(** * ion-go: the scanner, the parser and the rendering of values

    A shallow embedding of [ion/scanner.go], [ion/parser.go] and
    [ion/value.go].  Go state is passed explicitly: a method on [*Scanner]
    or [*Parser] takes the record and returns it with its results.

    Text.  The scanner reads its input one rune at a time
    ([bufio.Reader.ReadRune]) and builds every literal with [WriteRune], so
    a text is modelled as the list of the runes it decodes to, and a rune
    as its code point. *)

From Stdlib Require Import ZArith List String Ascii Bool Lia.
From Stdlib.Strings Require Import Byte.
From Stdlib Require Import SpecFloat.
From Stdlib Require DecimalPos DecimalN.
Import ListNotations.
Open Scope Z_scope.

(** ** Runes and strings *)

Definition rune := Z.
Definition str := list rune.

Definition rune_of_bytes (l : list Byte.byte) : option Z :=
  match l with
  | [b] => Some (Z.of_N (Byte.to_N b))
  | _ => None
  end.

Definition bytes_of_rune (z : Z) : option (list Byte.byte) :=
  match Byte.of_N (Z.to_N z) with
  | Some b => if 0 <=? z then Some [b] else None
  | None => None
  end.

Declare Scope rune_scope.
Delimit Scope rune_scope with rune.
String Notation Z rune_of_bytes bytes_of_rune : rune_scope.

(** The runes of an ASCII text, to write texts as string literals. *)
Definition runes (s : string) : str :=
  map (fun c => Z.of_N (N_of_ascii c)) (list_ascii_of_string s).

Definition tab : rune := 9.
Definition newline : rune := 10.
Definition carriage_return : rune := 13.
Definition dquote : rune := 34. (* the double quote *)

Definition rune_in (ch : rune) (set : str) : bool := existsb (Z.eqb ch) set.

Fixpoint str_eqb (a b : str) : bool :=
  match a, b with
  | [], [] => true
  | x :: a', y :: b' => (x =? y) && str_eqb a' b'
  | _, _ => false
  end.

(** [strings.HasPrefix]. *)
Fixpoint HasPrefix (s prefix : str) : bool :=
  match prefix, s with
  | [], _ => true
  | x :: prefix', y :: s' => (x =? y) && HasPrefix s' prefix'
  | _ :: _, [] => false
  end.

(** ** scanner.go *)

Inductive Token :=
| ILLEGAL | EOF | WHITESPACE | COMMA | COLON | DOUBLE_COLON | SYMBOL | STRING
| OPEN_BRACE | CLOSE_BRACE | OPEN_BRACKET | CLOSE_BRACKET | OPEN_PAREN
| CLOSE_PAREN | NUMBER.

Definition Token_eqb (a b : Token) : bool :=
  match a, b with
  | ILLEGAL, ILLEGAL | EOF, EOF | WHITESPACE, WHITESPACE | COMMA, COMMA
  | COLON, COLON | DOUBLE_COLON, DOUBLE_COLON | SYMBOL, SYMBOL
  | STRING, STRING | OPEN_BRACE, OPEN_BRACE | CLOSE_BRACE, CLOSE_BRACE
  | OPEN_BRACKET, OPEN_BRACKET | CLOSE_BRACKET, CLOSE_BRACKET
  | OPEN_PAREN, OPEN_PAREN | CLOSE_PAREN, CLOSE_PAREN | NUMBER, NUMBER => true
  | _, _ => false
  end.

Definition isWhitespace (ch : rune) : bool :=
  (ch =? " "%rune) || (ch =? tab) || (ch =? newline).

Definition isLetter (ch : rune) : bool :=
  (("a"%rune <=? ch) && (ch <=? "z"%rune))
  || (("A"%rune <=? ch) && (ch <=? "Z"%rune)).

Definition isDigit (ch : rune) : bool :=
  ("0"%rune <=? ch) && (ch <=? "9"%rune).

Definition eof : rune := 0.

(** [bufio.Reader], as far as the scanner uses it: the runes still to be
    read, and the rune [UnreadRune] would give back.  [ReadRune] at the end
    of the input fails, and [UnreadRune] gives back only the rune of a
    [ReadRune] that succeeded just before (otherwise it returns an error,
    which [unread] drops). *)
Record Reader := mkReader {
  pending : list rune;
  unreadable : option rune
}.

Definition ReadRune (b : Reader) : option rune * Reader :=
  match pending b with
  | [] => (None, mkReader [] None)
  | ch :: rest => (Some ch, mkReader rest (Some ch))
  end.

Definition UnreadRune (b : Reader) : Reader :=
  match unreadable b with
  | Some ch => mkReader (ch :: pending b) None
  | None => b
  end.

(** [Scanner.read]: a failed read is the rune [eof]. *)
Definition read (b : Reader) : rune * Reader :=
  match ReadRune b with
  | (Some ch, b') => (ch, b')
  | (None, b') => (eof, b')
  end.

Definition unread (b : Reader) : Reader := UnreadRune b.

Record Scanner := mkScanner {
  r : Reader;
  lastToken : Token;
  lastLiteral : str
}.

Definition NewScanner (input : list rune) : Scanner :=
  mkScanner (mkReader input None) ILLEGAL [].

Definition Unscan (s : Scanner) (tok : Token) (lit : str) : Scanner :=
  mkScanner (r s) tok lit.

(** The loops of the scanner read one rune per iteration, so each is a
    recursion on the runes still to be read: the case [[]] is the read that
    fails, and giving a rune back ([s.unread()]) leaves it at the head. *)

(** [skipLine]: the reader after the loop. *)
Fixpoint skipLine (l : list rune) : Reader :=
  match l with
  | [] => mkReader [] None
  | ch :: l' =>
      if (ch =? eof) || (ch =? newline) then mkReader l' (Some ch)
      else skipLine l'
  end.

(** The loop of [scanWhitespace], after the first rune went into [buf]. *)
Fixpoint scanWhitespace_loop (l : list rune) (buf : str) : str * Reader :=
  match l with
  | [] => (buf, mkReader [] None)
  | ch :: l' =>
      if ch =? eof then (buf, mkReader l' (Some ch))
      else if negb (isWhitespace ch) then (buf, unread (mkReader l' (Some ch)))
      else scanWhitespace_loop l' (buf ++ [ch])
  end.

Definition scanWhitespace (b : Reader) : Token * str * Reader :=
  let (ch, b1) := read b in
  let (lit, b2) := scanWhitespace_loop (pending b1) [ch] in
  (WHITESPACE, lit, b2).

Fixpoint scanIdentifier_loop (l : list rune) (buf : str) : str * Reader :=
  match l with
  | [] => (buf, mkReader [] None)
  | ch :: l' =>
      if ch =? eof then (buf, mkReader l' (Some ch))
      else if negb (isLetter ch) && negb (isDigit ch) && negb (ch =? "_"%rune)
      then (buf, unread (mkReader l' (Some ch)))
      else scanIdentifier_loop l' (buf ++ [ch])
  end.

Definition scanIdentifier (b : Reader) : Token * str * Reader :=
  let (ch, b1) := read b in
  let (lit, b2) := scanIdentifier_loop (pending b1) [ch] in
  (SYMBOL, lit, b2).

(** The loop of [scanNumber]; [strings.Index(digits, string(ch)) >= 0] is
    membership of the rune in [digits]. *)
Fixpoint scanNumber_loop (digits : str) (l : list rune) (buf : str)
  : str * Reader :=
  match l with
  | [] => (buf, mkReader [] None)
  | ch :: l' =>
      if ch =? eof then (buf, mkReader l' (Some ch))
      else if rune_in ch digits then scanNumber_loop digits l' (buf ++ [ch])
      else (buf, unread (mkReader l' (Some ch)))
  end.

Definition scanNumber (b : Reader) (first : rune) : Token * str * Reader :=
  let buf := [first] in
  let digits := runes "0123456789." in
  let (ch, b1) := read b in
  if negb (ch =? eof) then
    let '(digits, buf, b2) :=
      if first =? "0"%rune then
        if ch =? "x"%rune then (runes "0123456789abcdefABCDEF.", buf ++ [ch], b1)
        else if ch =? "b"%rune then (runes "01.", buf ++ [ch], b1)
        else (digits, buf, unread b1)
      else (digits, buf, unread b1) in
    let (lit, b3) := scanNumber_loop digits (pending b2) buf in
    (NUMBER, lit, b3)
  else (NUMBER, buf, b1).

(** [scanUntil].  Its outer loop reads the literal, [escape] telling whether
    the rune before was a backslash; after a backslash and a newline an
    inner loop reads on while it finds whitespace, gives the last rune back
    and the outer loop goes on.  Both loops read one rune per iteration, so
    they are one recursion here, [mode] telling where a rune is read:
    [Plain] and [Escaped] in the outer loop ([escape] false and true),
    [Continuation] in the inner one. *)
Inductive ScanMode := Plain | Escaped | Continuation.

Fixpoint scanUntil_loop (tok : Token) (delim : rune) (l : list rune)
    (mode : ScanMode) (buf : str) : Token * str * Reader :=
  match l with
  | [] => (tok, buf, mkReader [] None)
  | ch :: l' =>
      let b' := mkReader l' (Some ch) in
      (* an iteration of the outer loop with [escape] false *)
      let plain :=
        if ch =? eof then (tok, buf, b')
        else if ch =? delim then (tok, buf, b')
        else if ch =? "\"%rune then scanUntil_loop tok delim l' Escaped buf
        else scanUntil_loop tok delim l' Plain (buf ++ [ch]) in
      match mode with
      | Plain => plain
      | Escaped =>
          if ch =? eof then (tok, buf, b')
          else if ch =? dquote then
            scanUntil_loop tok delim l' Plain (buf ++ [dquote])
          else if ch =? "t"%rune then
            scanUntil_loop tok delim l' Plain (buf ++ [tab])
          else if ch =? "n"%rune then
            scanUntil_loop tok delim l' Plain (buf ++ [newline])
          else if ch =? "r"%rune then
            scanUntil_loop tok delim l' Plain (buf ++ [carriage_return])
          else if ch =? newline then
            scanUntil_loop tok delim l' Continuation buf
          else (ILLEGAL, "\"%rune :: [ch], b')
      | Continuation =>
          if (ch =? eof) || negb (isWhitespace ch) then
            (* the inner loop ends, [ch] is given back and read again *)
            plain
          else scanUntil_loop tok delim l' Continuation buf
      end
  end.

Definition scanUntil (b : Reader) (tok : Token) (delim : rune)
  : Token * str * Reader :=
  let (ch, b1) := read b in
  scanUntil_loop tok delim (pending b1) Plain [ch].

(** [Scan].  The call of itself after a comment is the only recursion; it
    is counted down by [fuel], and [Scan] below gives it enough. *)
Fixpoint Scan_fuel (fuel : nat) (s : Scanner) : option (Token * str * Scanner) :=
  match fuel with
  | O => None
  | S fuel' =>
      if negb (Token_eqb (lastToken s) ILLEGAL) then
        Some (lastToken s, lastLiteral s, mkScanner (r s) ILLEGAL [])
      else
        let ret (res : Token * str * Reader) :=
          let '(tok, lit, b) := res in
          Some (tok, lit, mkScanner b (lastToken s) (lastLiteral s)) in
        let (ch, b1) := read (r s) in
        if isWhitespace ch then ret (scanWhitespace (unread b1))
        else if isLetter ch then ret (scanIdentifier (unread b1))
        else if ch =? eof then ret (EOF, [], b1)
        else if ch =? "/"%rune then
          let (ch, b2) := read b1 in
          if ch =? "/"%rune then
            Scan_fuel fuel'
              (mkScanner (skipLine (pending b2)) (lastToken s) (lastLiteral s))
          else ret (ILLEGAL, ["/"%rune], unread b2)
        else if ch =? ":"%rune then
          let (ch, b2) := read b1 in
          if ch =? ":"%rune then ret (DOUBLE_COLON, runes "::", b2)
          else ret (COLON, runes ":", unread b2)
        else if ch =? "'"%rune then ret (scanUntil b1 SYMBOL ch)
        else if ch =? dquote then ret (scanUntil b1 STRING ch)
        else if ch =? ","%rune then ret (COMMA, [ch], b1)
        else if ch =? "{"%rune then ret (OPEN_BRACE, [ch], b1)
        else if ch =? "}"%rune then ret (CLOSE_BRACE, [ch], b1)
        else if ch =? "["%rune then ret (OPEN_BRACKET, [ch], b1)
        else if ch =? "]"%rune then ret (CLOSE_BRACKET, [ch], b1)
        else if ch =? "("%rune then ret (OPEN_PAREN, [ch], b1)
        else if ch =? ")"%rune then ret (CLOSE_PAREN, [ch], b1)
        else if isDigit ch then ret (scanNumber b1 ch)
        else ret (ILLEGAL, [ch], b1)
  end.

Definition Scan (s : Scanner) : Token * str * Scanner :=
  match Scan_fuel (S (List.length (pending (r s)))) s with
  | Some res => res
  | None => (ILLEGAL, [], s)
  end.

(** ** value.go: the data *)

Inductive Type_ :=
| NullType | BoolType | IntType | FloatType | StringType | SymbolType
| StructType | ListType | SexpType.

(** A [float64] is a binary64 number of IEEE 754. *)
Definition float64 := spec_float.
Definition SFbinary64_div := SFdiv 53 1024.

#[local] Unset Elimination Schemes.
Inductive Value := mkValue {
  Type' : Type_;
  Annotations : list str;
  Int : Z;
  Float : float64;
  Text : str;
  Sequence : list Value;
  Struct : list Field
}
with Field := mkField {
  Name : str;
  Value' : Value
}.
#[local] Set Elimination Schemes.


(** The values the parser builds, as Go's composite literals give them:
    the fields a literal does not name are zero. *)
Definition float64_zero : float64 := S754_zero false.
Definition NullValue : Value := mkValue NullType [] 0 float64_zero [] [] [].
Definition BoolValue (i : Z) : Value := mkValue BoolType [] i float64_zero [] [] [].
Definition IntValue (i : Z) : Value := mkValue IntType [] i float64_zero [] [] [].
Definition FloatValue (f : float64) : Value := mkValue FloatType [] 0 f [] [] [].
Definition StringValue (s : str) : Value := mkValue StringType [] 0 float64_zero s [] [].
Definition SymbolValue (s : str) : Value := mkValue SymbolType [] 0 float64_zero s [] [].
Definition StructValue (fields : list Field) : Value :=
  mkValue StructType [] 0 float64_zero [] [] fields.
Definition ListValue (seq : list Value) : Value :=
  mkValue ListType [] 0 float64_zero [] seq [].
Definition SexpValue (seq : list Value) : Value :=
  mkValue SexpType [] 0 float64_zero [] seq [].

Definition Type_eqb (a b : Type_) : bool :=
  match a, b with
  | NullType, NullType | BoolType, BoolType | IntType, IntType
  | FloatType, FloatType | StringType, StringType | SymbolType, SymbolType
  | StructType, StructType | ListType, ListType | SexpType, SexpType => true
  | _, _ => false
  end.

(** ** The functions of Go's [strconv] that the parser calls

    [strconv] is Go's library, not this repository's; its functions are
    written here after their documentation and source, for the arguments
    the parser gives them.  An error of [strconv] is [None]: the parser
    only tests [err != nil]. *)

Definition maxUint64 : Z := 2 ^ 64 - 1.

(** The digit a byte stands for in [ParseUint]: [0-9], then letters of
    either case from ten on.  A rune of two bytes or more is no digit. *)
Definition digit_of (c : rune) : option Z :=
  if ("0"%rune <=? c) && (c <=? "9"%rune) then Some (c - "0"%rune)
  else if (0 <=? c) && (c <? 128)
          && ("a"%rune <=? Z.lor c 32) && (Z.lor c 32 <=? "z"%rune)
  then Some (Z.lor c 32 - "a"%rune + 10)
  else None.

(** The loop of [ParseUint(s, base, 64)] for a base that is not 0: [n] is
    a [uint64], and the sum that may wrap around is tested as Go does. *)
Fixpoint ParseUint_loop (base : Z) (s : str) (n : Z) : option Z :=
  match s with
  | [] => Some n
  | c :: s' =>
      match digit_of c with
      | None => None
      | Some d =>
          if base <=? d then None
          else if maxUint64 / base + 1 <=? n then None
          else
            let n := n * base in
            let n1 := (n + d) mod 2 ^ 64 in
            if (n1 <? n) || (maxUint64 <? n1) then None
            else ParseUint_loop base s' n1
      end
  end.

Definition ParseUint (s : str) (base : Z) : option Z :=
  match s with
  | [] => None
  | _ => if (base <? 2) || (36 <? base) then None else ParseUint_loop base s 0
  end.

(** [ParseInt(s, base, 64)], [base] not 0. *)
Definition ParseInt (s : str) (base : Z) : option Z :=
  match s with
  | [] => None
  | c :: s' =>
      let '(neg, s) :=
        if c =? "+"%rune then (false, s')
        else if c =? "-"%rune then (true, s')
        else (false, s) in
      match ParseUint s base with
      | None => None
      | Some un =>
          let cutoff := 2 ^ 63 in
          if negb neg && (cutoff <=? un) then None
          else if neg && (cutoff <? un) then None
          else Some (if neg then - un else un)
      end
  end.

(** The digits and the point of a decimal literal: the digits read as one
    number, and how many of them stand after the point. *)
Fixpoint readFloat (s : str) (mantissa : Z) (sawdot sawdigits : bool)
    (fraction : Z) : option (Z * Z) :=
  match s with
  | [] => if sawdigits then Some (mantissa, fraction) else None
  | c :: s' =>
      if c =? "."%rune then
        if sawdot then None else readFloat s' mantissa true sawdigits fraction
      else if isDigit c then
        readFloat s' (mantissa * 10 + (c - "0"%rune)) sawdot true
          (if sawdot then fraction + 1 else fraction)
      else None
  end.

(** The binary64 number nearest to [mantissa * 10 ^ exp10], ties to even:
    one correctly rounded division or multiplication of exact integers. *)
Definition float64_of_decimal (mantissa exp10 : Z) : float64 :=
  match mantissa with
  | Zpos m =>
      if 0 <=? exp10
      then SFbinary64_div (S754_finite false (m * Z.to_pos (10 ^ exp10)) 0)
                          (S754_finite false 1 0)
      else SFbinary64_div (S754_finite false m 0)
                          (S754_finite false (Z.to_pos (10 ^ (- exp10))) 0)
  | _ => S754_zero false
  end.

(** [ParseFloat(s, 64)] on the literals that reach it.  The parser calls it
    with a NUMBER literal that has no [0x] or [0b] prefix, and the scanner
    makes such a literal of decimal digits and points only
    ([scanNumber_loop] with the digits ["0123456789."]); signs, exponents,
    hexadecimal floats, [Inf] and [NaN], which never reach it, are not
    read here.  A number too large for a [float64] is a range error. *)
Definition ParseFloat (s : str) : option float64 :=
  match readFloat s 0 false false 0 with
  | None => None
  | Some (mantissa, fraction) =>
      match float64_of_decimal mantissa (- fraction) with
      | S754_infinity _ => None
      | f => Some f
      end
  end.

(** ** parser.go *)

(** The errors of the parser, one constructor for each [fmt.Errorf] of
    parser.go, with the arguments of its format. *)
Inductive error :=
| ErrTokenNotHandled (tok : Token) (lit : str)
    (* "token not handled: %s - %q" *)
| ErrUnexpected (tok : Token)
    (* "Unexpected %q" *)
| ErrCannotParseReal (lit : str)
    (* "Cannot parse real number: %q" *)
| ErrCannotParseInt (base : Z) (lit : str)
    (* "Cannot parse base %d integer: %q", [lit] after its prefix is cut *)
| ErrBadSequence (end_ tok : Token)
    (* "Bad sequence, expecting %v, encounted %s" *)
| ErrUnexpectedEOF
    (* "Unexpected EOF" *)
| ErrInvalidFieldName (elem : Value)
    (* "Invalid struct field name: %v" *)
| ErrBadStructSyntax (tok : Token)
    (* "Bad struct syntax, encountered %v" *).

Record Parser := mkParser {
  scanner : Scanner;
  err : option error;
  source : str;
  buf_tok : Token;  (* last read token *)
  buf_lit : str;    (* last read literal *)
  buf_n : Z         (* buffer size (max=1) *)
}.

Definition scan (p : Parser) : Token * str * Parser :=
  if negb (buf_n p =? 0) then
    (buf_tok p, buf_lit p,
     mkParser (scanner p) (err p) (source p) (buf_tok p) (buf_lit p) 0)
  else
    let '(tok, lit, s) := Scan (scanner p) in
    (tok, lit, mkParser s (err p) (source p) tok lit (buf_n p)).

Definition unscan (p : Parser) : Parser :=
  mkParser (scanner p) (err p) (source p) (buf_tok p) (buf_lit p) 1.

Definition scanIgnoreWhitespace (p : Parser) : Token * str * Parser :=
  let '(tok, lit, p1) := scan p in
  if Token_eqb tok WHITESPACE then scan p1 else (tok, lit, p1).

Definition set_err (p : Parser) (e : error) : Parser :=
  mkParser (scanner p) (Some e) (source p) (buf_tok p) (buf_lit p) (buf_n p).

Definition set_Annotations (v : Value) (a : list str) : Value :=
  mkValue (Type' v) a (Int v) (Float v) (Text v) (Sequence v) (Struct v).

(** What a method of the parser does: it returns its value and error and
    leaves the parser in a state, or it panics (a nil pointer is
    dereferenced), or the count of nested calls [fuel] ran out. *)
Inductive outcome :=
| Return (val : option Value) (e : option error) (p : Parser)
| Panic
| OutOfFuel.

Definition NUMBER_value (lit : str) (p : Parser) : outcome :=
  if rune_in "."%rune lit then
    (* to do: handle arbitrary precision decimal *)
    match
      (if negb (HasPrefix lit (runes "0x")) && negb (HasPrefix lit (runes "0b"))
       then ParseFloat lit else None)
    with
    | Some n => Return (Some (FloatValue n)) None p
    | None => Return None (Some (ErrCannotParseReal lit)) p
    end
  else
    let '(base, lit) :=
      if HasPrefix lit (runes "0x") then (16, skipn 2 lit)
      else if HasPrefix lit (runes "0b") then (2, skipn 2 lit)
      else (10, lit) in
    match ParseInt lit base with
    | None => Return None (Some (ErrCannotParseInt base lit)) p
    | Some i => Return (Some (IntValue i)) None p
    end.

Fixpoint parse (fuel : nat) (p : Parser) : outcome :=
  match fuel with
  | O => OutOfFuel
  | S fuel =>
      let '(tok, lit, p) := scanIgnoreWhitespace p in
      parseToken fuel tok lit p
  end

with parseToken (fuel : nat) (tok : Token) (lit : str) (p : Parser) : outcome :=
  match fuel with
  | O => OutOfFuel
  | S fuel =>
      match tok with
      | EOF => Return None None p
      | ILLEGAL =>
          let e := ErrTokenNotHandled tok lit in
          Return None (Some e) (set_err p e)
      | SYMBOL =>
          let '(nextTok, _, p) := scanIgnoreWhitespace p in
          if Token_eqb nextTok DOUBLE_COLON then
            (* fix me to not be a hack that assumes only s single annotation *)
            match parse fuel p with
            | Return val e p =>
                match e, val with
                | None, Some v => Return (Some (set_Annotations v [lit])) e p
                | _, _ => Return val e p
                end
            | o => o
            end
          else
            let p := unscan p in
            if str_eqb lit (runes "true") then
              Return (Some (BoolValue 1)) None p
            else if str_eqb lit (runes "false") then
              Return (Some (BoolValue 0)) None p
            else if str_eqb lit (runes "null") then
              Return (Some NullValue) None p
            else
              Return (Some (SymbolValue lit)) None p
      | OPEN_PAREN => parseSequence fuel CLOSE_PAREN p
      | OPEN_BRACKET => parseSequence fuel CLOSE_BRACKET p
      | OPEN_BRACE => parseStruct fuel p
      | CLOSE_BRACE | CLOSE_BRACKET | CLOSE_PAREN | DOUBLE_COLON =>
          Return None (Some (ErrUnexpected tok)) p
      | COMMA | COLON => Return None None p (* we basically ignore commas *)
      | NUMBER => NUMBER_value lit p
      | STRING =>
          Return (Some (StringValue lit)) None p
      | WHITESPACE =>
          let e := ErrTokenNotHandled tok lit in
          Return None (Some e) (set_err p e)
      end
  end

with parseSequence (fuel : nat) (end_ : Token) (p : Parser) : outcome :=
  match fuel with
  | O => OutOfFuel
  | S fuel =>
      let '(tok, lit, p) := scanIgnoreWhitespace p in
      parseSequence_loop fuel end_ [] tok lit p
  end

(** The [for tok != EOF] of [parseSequence], at the test of an iteration. *)
with parseSequence_loop (fuel : nat) (end_ : Token) (seq : list Value)
    (tok : Token) (lit : str) (p : Parser) : outcome :=
  match fuel with
  | O => OutOfFuel
  | S fuel =>
      if Token_eqb tok EOF then Return None (Some ErrUnexpectedEOF) p
      else if Token_eqb tok CLOSE_BRACKET || Token_eqb tok CLOSE_PAREN then
        if negb (Token_eqb end_ tok) then
          Return None (Some (ErrBadSequence end_ tok)) p
        else if Token_eqb end_ CLOSE_PAREN then
          Return (Some (SexpValue seq)) None p
        else
          Return (Some (ListValue seq)) None p
      else
        (* to do: fix this to error on missing commas, this assumes they are
           optional *)
        match parseToken fuel tok lit p with
        | Return _ (Some e) p => Return None (Some e) p
        | Return elem None p =>
            let seq := match elem with Some v => seq ++ [v] | None => seq end in
            let '(tok, lit, p) := scanIgnoreWhitespace p in
            parseSequence_loop fuel end_ seq tok lit p
        | o => o
        end
  end

with parseStruct (fuel : nat) (p : Parser) : outcome :=
  match fuel with
  | O => OutOfFuel
  | S fuel =>
      let '(tok, lit, p) := scanIgnoreWhitespace p in
      parseStruct_loop fuel [] tok lit p
  end

(** The [for tok != EOF] of [parseStruct], at the test of an iteration. *)
with parseStruct_loop (fuel : nat) (fields : list Field)
    (tok : Token) (lit : str) (p : Parser) : outcome :=
  match fuel with
  | O => OutOfFuel
  | S fuel =>
      if Token_eqb tok EOF then Return None (Some ErrUnexpectedEOF) p
      else if Token_eqb tok CLOSE_BRACE then
        Return (Some (StructValue fields)) None p
      else if Token_eqb tok COMMA then
        let '(tok, lit, p) := scanIgnoreWhitespace p in
        parseStruct_loop fuel fields tok lit p
      else
        match parseToken fuel tok lit p with
        | Return _ (Some e) p => Return None (Some e) p
        | Return None None p => Panic (* elem is nil in [elem.Type] *)
        | Return (Some elem) None p =>
            if negb (Type_eqb (Type' elem) SymbolType)
               && negb (Type_eqb (Type' elem) StringType)
            then Return None (Some (ErrInvalidFieldName elem)) p
            else
              let name := Text elem in
              let '(tok, lit, p) := scanIgnoreWhitespace p in
              if negb (Token_eqb tok COLON) then
                Return None (Some (ErrBadStructSyntax tok)) p
              else
                match parse fuel p with
                | Return _ (Some e) p => Return None (Some e) p
                | Return None None p => Panic (* elem is nil in [*elem] *)
                | Return (Some elem) None p =>
                    let fields := fields ++ [mkField name elem] in
                    let '(tok, lit, p) := scanIgnoreWhitespace p in
                    parseStruct_loop fuel fields tok lit p
                | o => o
                end
        | o => o
        end
  end.

Definition parseFrom (fuel : nat) (source : str) (reader : list rune) : outcome :=
  let p := mkParser (NewScanner reader) None source ILLEGAL [] 0 in
  parse fuel p.

(** What the caller of [Parse] sees. *)
Inductive result :=
| Returned (val : option Value) (e : option error)
| Panicked
| Unfinished.

Definition result_of (o : outcome) : result :=
  match o with
  | Return val e _ => Returned val e
  | Panic => Panicked
  | OutOfFuel => Unfinished
  end.

Definition Parse_fuel (fuel : nat) (reader : list rune) : result :=
  result_of (parseFrom fuel [] reader).

(** [Parse], with a count of nested calls that no input exhausts
    ([Parse_finishes] below). *)
Definition Parse (reader : list rune) : result :=
  Parse_fuel (3 * List.length reader + 4) reader.

(** ** value.go: rendering *)

(** The decimal digits of a number, the first one first. *)
Fixpoint digits_of_uint (u : Decimal.uint) : list Z :=
  match u with
  | Decimal.Nil => []
  | Decimal.D0 u => 0 :: digits_of_uint u
  | Decimal.D1 u => 1 :: digits_of_uint u
  | Decimal.D2 u => 2 :: digits_of_uint u
  | Decimal.D3 u => 3 :: digits_of_uint u
  | Decimal.D4 u => 4 :: digits_of_uint u
  | Decimal.D5 u => 5 :: digits_of_uint u
  | Decimal.D6 u => 6 :: digits_of_uint u
  | Decimal.D7 u => 7 :: digits_of_uint u
  | Decimal.D8 u => 8 :: digits_of_uint u
  | Decimal.D9 u => 9 :: digits_of_uint u
  end.

Definition decimal_digits (n : Z) : list Z := digits_of_uint (N.to_uint (Z.to_N n)).

Definition digit_rune (d : Z) : rune := "0"%rune + d.

(** [fmt.Sprintf("%d", i)]. *)
Definition FormatInt (i : Z) : str :=
  (if i <? 0 then ["-"%rune] else []) ++ map digit_rune (decimal_digits (Z.abs i)).

(** [fmt.Sprintf("%g", f)]: [strconv.FormatFloat(f, 'g', -1, 64)], the
    shortest decimal that reads back as [f].  [shortest] looks for it among
    the decimals of 1, 2, ... digits next below and next above the exact
    value [n / 10 ^ scale] of [f]; with both reading back as [f] it takes
    the nearer, and of two equally near the even one.  The result is the
    digits, without zeros at the end, and the place [dp] of the point. *)
Fixpoint trim_zeros (rev_digits : list Z) : list Z :=
  match rev_digits with
  | 0 :: d => trim_zeros d
  | d => d
  end.

Definition trim (digits : list Z) : list Z := rev (trim_zeros (rev digits)).

Fixpoint shortest (fuel : nat) (f : float64) (n nd dp : Z) (k : Z)
  : list Z * Z :=
  match fuel with
  | O => (trim (decimal_digits n), dp)
  | S fuel =>
      let unit := 10 ^ (nd - k) in
      let lo := n / unit in
      let hi := lo + 1 in
      let rest := n mod unit in
      let reads_back d :=
        match f, float64_of_decimal d (dp - k) with
        | S754_finite _ m e, S754_finite _ m' e' => Pos.eqb m m' && (e =? e')
        | _, _ => false
        end in
      let okdown := reads_back lo in
      let okup := reads_back hi in
      let up := (unit <? 2 * rest) || ((unit =? 2 * rest) && Z.odd lo) in
      if okdown && (negb okup || negb up) then (trim (decimal_digits lo), dp)
      else if okup then
        let digits := decimal_digits hi in
        (trim digits, dp + (Z.of_nat (List.length digits) - k))
      else shortest fuel f n nd dp (k + 1)
  end.

Definition shortest_digits (f : float64) : list Z * Z :=
  match f with
  | S754_finite _ m e =>
      let '(n, scale) :=
        if 0 <=? e then (Zpos m * 2 ^ e, 0) else (Zpos m * 5 ^ (- e), - e) in
      let nd := Z.of_nat (List.length (decimal_digits n)) in
      shortest (Z.to_nat nd - 1) f n nd (nd - scale) 1
  | _ => ([], 0)
  end.

Definition sign_str (neg : bool) : str := if neg then ["-"%rune] else [].

(** [%e]: [d.ddde±dd], with all the digits. *)
Definition fmtE (neg : bool) (digits : list Z) (dp : Z) : str :=
  let exp := match digits with [] => 0 | _ => dp - 1 end in
  let exp_digits := decimal_digits (Z.abs exp) in
  sign_str neg
  ++ match digits with
     | [] => ["0"%rune]
     | [d] => [digit_rune d]
     | d :: more => digit_rune d :: "."%rune :: map digit_rune more
     end
  ++ ["e"%rune; if exp <? 0 then "-"%rune else "+"%rune]
  ++ (if Z.abs exp <? 10 then ["0"%rune] else [])
  ++ map digit_rune exp_digits.

(** [%f], with [prec] digits after the point. *)
Definition fmtF (neg : bool) (digits : list Z) (dp prec : Z) : str :=
  let digit_at j :=
    if (0 <=? j) && (j <? Z.of_nat (List.length digits))
    then digit_rune (nth (Z.to_nat j) digits 0) else "0"%rune in
  sign_str neg
  ++ (if 0 <? dp then map (fun i => digit_at (Z.of_nat i)) (seq 0 (Z.to_nat dp))
      else ["0"%rune])
  ++ (if 0 <? prec
      then "."%rune :: map (fun i => digit_at (dp + Z.of_nat i)) (seq 0 (Z.to_nat prec))
      else []).

Definition FormatFloat_g (f : float64) : str :=
  match f with
  | S754_nan => runes "NaN"
  | S754_infinity neg => runes (if neg then "-Inf" else "+Inf")
  | S754_zero neg => fmtF neg [] 0 0
  | S754_finite neg _ _ =>
      let '(digits, dp) := shortest_digits f in
      let nd := Z.of_nat (List.length digits) in
      let exp := dp - 1 in
      if (exp <? -4) || (6 <=? exp) then fmtE neg digits dp
      else fmtF neg digits dp (Z.max (nd - dp) 0)
  end.

Definition hex_digit (d : Z) : rune :=
  nth (Z.to_nat d) (runes "0123456789abcdef") "0"%rune.

(** The digits of [r] in base 16, [n] of them. *)
Fixpoint hex_digits (n : nat) (r : Z) : str :=
  match n with
  | O => []
  | S n' => hex_digit (Z.shiftr r (4 * Z.of_nat n') mod 16) :: hex_digits n' r
  end.

Definition ValidRune (r : rune) : bool :=
  ((0 <=? r) && (r <? 55296)) || ((57343 <? r) && (r <=? 1114111)).

Section Rendering.

(** Whether a rune above U+00FF is printable: Go's [strconv.IsPrint]
    looks it up in tables of its own, which are no part of this
    repository. *)
Variable isPrintTable : rune -> bool.

Definition IsPrint (r : rune) : bool :=
  if r <=? 255 then
    if (32 <=? r) && (r <=? 126) then true
    else if (161 <=? r) && (r <=? 255) then negb (r =? 173)
    else false
  else isPrintTable r.

(** [strconv.Quote] on one rune of the string. *)
Definition appendEscapedRune (r : rune) : str :=
  if (r =? dquote) || (r =? "\"%rune) then ["\"%rune; r]
  else if IsPrint r then [r]
  else if r =? 7 then runes "\a"
  else if r =? 8 then runes "\b"
  else if r =? 12 then runes "\f"
  else if r =? newline then runes "\n"
  else if r =? carriage_return then runes "\r"
  else if r =? tab then runes "\t"
  else if r =? 11 then runes "\v"
  else if (r <? " "%rune) || (r =? 127) then runes "\x" ++ hex_digits 2 r
  else
    let r := if ValidRune r then r else 65533 in
    if r <? 65536 then runes "\u" ++ hex_digits 4 r
    else runes "\U" ++ hex_digits 8 r.

(** [fmt.Sprintf("%q", s)]. *)
Definition Quote (s : str) : str :=
  [dquote] ++ flat_map appendEscapedRune s ++ [dquote].

Definition annotate (val : Value) : str :=
  flat_map (fun anno => anno ++ runes "::") (Annotations val).

Definition symbolToString (val : str) : str :=
  (* to do: escape embedded single quotes *)
  ["'"%rune] ++ val ++ ["'"%rune].

(** [structToString] and [sequenceToString] call [Value.String] on the
    members; it is their first argument here. *)
Definition structToString (String : Value -> str) (fields : list Field) : str :=
  match fields with
  | [] => runes "{}"
  | [f] => runes "{" ++ Name f ++ runes ": " ++ String (Value' f) ++ runes "}"
  | _ =>
      ["{"%rune]
      ++ (fix loop (items : list Field) (first : bool) : str :=
            match items with
            | [] => []
            | item :: items' =>
                (if first then [] else runes ", ")
                ++ Name item ++ runes ": " ++ String (Value' item)
                ++ loop items' false
            end) fields true
      ++ ["}"%rune]
  end.

Definition sequenceToString (String : Value -> str) (values : list Value)
    (openChar delimChar closeChar : rune) : str :=
  match values with
  | [] => [openChar] ++ [closeChar]
  | [v] => [openChar] ++ String v ++ [closeChar]
  | _ =>
      [openChar]
      ++ (fix loop (items : list Value) (first : bool) : str :=
            match items with
            | [] => []
            | item :: items' =>
                (if first then []
                 else (if negb (delimChar =? 0) then [delimChar] else [])
                      ++ [" "%rune])
                ++ String item ++ loop items' false
            end) values true
      ++ [closeChar]
  end.

(** [Value.String]. *)
Fixpoint String (v : Value) : str :=
  match Type' v with
  | NullType => runes "null"
  | BoolType => if Int v =? 0 then runes "false" else runes "true"
  | IntType => FormatInt (Int v)
  | FloatType => FormatFloat_g (Float v)
  | StringType => Quote (Text v)
  | SymbolType => symbolToString (Text v)
  | StructType => annotate v ++ structToString String (Struct v)
  | ListType => sequenceToString String (Sequence v) "["%rune ","%rune "]"%rune
  | SexpType => sequenceToString String (Sequence v) "("%rune 0 ")"%rune
  end.

End Rendering.
(** ** Measures for the termination of the parser *)

(** What is left to scan: a token that is not EOF takes at least one rune
    of it, or the token pushed back. *)
Definition tok_weight (tok : Token) : nat := if Token_eqb tok EOF then 0 else 1.

Definition scanner_left (s : Scanner) : nat :=
  (List.length (pending (r s))
   + (if Token_eqb (lastToken s) ILLEGAL then 0 else 1))%nat.

(** What is left to parse: what is left to scan, and the token in the
    buffer of the parser. *)
Definition parser_left (p : Parser) : nat :=
  (scanner_left (scanner p)
   + (if (buf_n p =? 0)%Z then 0 else tok_weight (buf_tok p)))%nat.

(** An outcome that is a result, with no more left to parse than [bound]. *)
Definition finishes (o : outcome) (bound : nat) : Prop :=
  o <> OutOfFuel
  /\ forall val e p', o = Return val e p' -> (parser_left p' <= bound)%nat.

Ltac scan_leaf :=
  do 3 eexists; (split; [reflexivity|]); simpl; (split; [reflexivity|]);
  unfold tok_weight; simpl; lia.


(** ** Predicates of the claims *)

Definition is_keyword (s : str) : bool :=
  str_eqb s (runes "true") || str_eqb s (runes "false") || str_eqb s (runes "null").

(** No Symbol in [v], at any depth, has the text [true], [false] or
    [null]. *)
Fixpoint no_keyword_symbol (v : Value) : bool :=
  negb (Type_eqb (Type' v) SymbolType && is_keyword (Text v))
  && forallb no_keyword_symbol (Sequence v)
  && forallb (fun f => no_keyword_symbol (Value' f)) (Struct v).

(** [SubValue w v]: [w] is [v] or a value inside it. *)
Inductive SubValue (w : Value) : Value -> Prop :=
| SubValue_self : SubValue w w
| SubValue_element x v : In x (Sequence v) -> SubValue w x -> SubValue w v
| SubValue_field f v : In f (Struct v) -> SubValue w (Value' f) -> SubValue w v.

(** A rune of an identifier after its first letter, and an identifier: what
    [scanIdentifier] scans. *)
Definition ident_char (c : rune) : bool :=
  isLetter c || isDigit c || (c =? "_"%rune).

Definition is_identifier (a : str) : bool :=
  match a with
  | [] => false
  | c :: a' => isLetter c && forallb ident_char a'
  end.

(** The parser on the input [t], before its first token: the state
    [parseFrom] makes.  The rune that can be given back and the token in
    the buffer differ from state to state; a scan does not look at them. *)
Definition parser_at (t : list rune) (u : option rune) (tok : Token) (lit : str)
  : Parser :=
  mkParser (mkScanner (mkReader t u) ILLEGAL []) None [] tok lit 0.

(** [follows p t]: the parser [p] goes on with the tokens of [t]. *)
Definition follows (p : Parser) (t : list rune) : Prop :=
  scanIgnoreWhitespace p = scanIgnoreWhitespace (parser_at t None ILLEGAL []).

(** The text [t] with the annotations [names] before it: [a::b::t]. *)
Definition annotated (names : list str) (t : str) : str :=
  flat_map (fun a => a ++ runes "::") names ++ t.

(** What [parseToken] does with a value that [p.parse()] returned for an
    annotation [a]. *)
Definition annotate_outcome (a : str) (o : outcome) : outcome :=
  match o with
  | Return val e p =>
      match e, val with
      | None, Some v => Return (Some (set_Annotations v [a])) e p
      | _, _ => Return val e p
      end
  | o => o
  end.

(** The methods of the parser with the fuel that is enough for them
    ([parser_finishes]). *)
Definition parse_all (p : Parser) : outcome := parse (3 * parser_left p + 4) p.

Definition parseToken_all (tok : Token) (lit : str) (p : Parser) : outcome :=
  parseToken (3 * parser_left p + 3) tok lit p.

(** ** Containers that the input leaves open *)

Inductive container := InSequence | InStruct.

Definition opens (tok : Token) : option container :=
  match tok with
  | OPEN_BRACKET | OPEN_PAREN => Some InSequence
  | OPEN_BRACE => Some InStruct
  | _ => None
  end.

(** [left_open c p]: the parser [p] is inside a container [c], and the
    input ends before the container is closed: what follows in the input
    are complete elements (for a struct commas and fields [name: value])
    that parse without error, then the end of the input, or a container
    that is itself left open.

    [value_left_open tok p]: the value that begins with the token [tok],
    [p] being the parser after [tok], is a container left open, possibly
    with annotations before it. *)
Inductive value_left_open : Token -> Parser -> Prop :=
| open_container tok c p :
    opens tok = Some c -> left_open c p -> value_left_open tok p
| open_annotated p lit p1 tok2 lit2 p2 :
    scanIgnoreWhitespace p = (DOUBLE_COLON, lit, p1) ->
    scanIgnoreWhitespace p1 = (tok2, lit2, p2) ->
    value_left_open tok2 p2 ->
    value_left_open SYMBOL p

with left_open : container -> Parser -> Prop :=
| open_end c p lit p1 :
    scanIgnoreWhitespace p = (EOF, lit, p1) -> left_open c p
| open_inner c p tok lit p1 :
    scanIgnoreWhitespace p = (tok, lit, p1) ->
    value_left_open tok p1 ->
    left_open c p
| open_element p tok lit p1 elem p2 :
    scanIgnoreWhitespace p = (tok, lit, p1) ->
    tok <> EOF -> tok <> CLOSE_BRACKET -> tok <> CLOSE_PAREN ->
    parseToken_all tok lit p1 = Return elem None p2 ->
    left_open InSequence p2 ->
    left_open InSequence p
| open_comma p lit p1 :
    scanIgnoreWhitespace p = (COMMA, lit, p1) ->
    left_open InStruct p1 ->
    left_open InStruct p
| open_field p tok lit p1 name p2 lit2 p3 val p4 :
    scanIgnoreWhitespace p = (tok, lit, p1) ->
    tok <> EOF -> tok <> CLOSE_BRACE -> tok <> COMMA ->
    parseToken_all tok lit p1 = Return (Some name) None p2 ->
    Type' name = SymbolType \/ Type' name = StringType ->
    scanIgnoreWhitespace p2 = (COLON, lit2, p3) ->
    parse_all p3 = Return (Some val) None p4 ->
    left_open InStruct p4 ->
    left_open InStruct p
| open_field_value p tok lit p1 name p2 lit2 p3 tok3 lit3 p4 :
    scanIgnoreWhitespace p = (tok, lit, p1) ->
    tok <> EOF -> tok <> CLOSE_BRACE -> tok <> COMMA ->
    parseToken_all tok lit p1 = Return (Some name) None p2 ->
    Type' name = SymbolType \/ Type' name = StringType ->
    scanIgnoreWhitespace p2 = (COLON, lit2, p3) ->
    scanIgnoreWhitespace p3 = (tok3, lit3, p4) ->
    value_left_open tok3 p4 ->
    left_open InStruct p.

Scheme value_left_open_mut := Minimality for value_left_open Sort Prop
  with left_open_mut := Minimality for left_open Sort Prop.

(** The input [t] begins, after whitespace, with a container that it
    leaves open. *)
Definition leaves_open (t : list rune) : Prop :=
  exists tok lit p,
    scanIgnoreWhitespace (parser_at t None ILLEGAL []) = (tok, lit, p)
    /\ value_left_open tok p.

Combined Scheme left_open_mutind from value_left_open_mut, left_open_mut.

(** The loops of [parseSequence] and [parseStruct] from the scan before
    their test. *)
Definition parseSequence_from (n : nat) (end_ : Token) (seq : list Value)
    (p : Parser) : outcome :=
  let '(tok, lit, p) := scanIgnoreWhitespace p in
  parseSequence_loop n end_ seq tok lit p.

Definition parseStruct_from (n : nat) (fields : list Field) (p : Parser) : outcome :=
  let '(tok, lit, p) := scanIgnoreWhitespace p in
  parseStruct_loop n fields tok lit p.


(** An equation between a computation and its value. *)
Ltac run := cbv; reflexivity.

(** ** The values that rendering and parsing take back and forth *)

(** The number that decimal digits stand for, after the digits [acc]. *)
Definition digits_value (digits : list Z) (acc : Z) : Z :=
  fold_left (fun a d => a * 10 + d) digits acc.

(** The text between the brackets of a rendered container: the items,
    [sep] before each one but the first. *)
Definition items_text {A : Type} (sep : str) (f : A -> str) (items : list A) : str :=
  match items with
  | [] => []
  | x :: items' => f x ++ flat_map (fun y => sep ++ f y) items'
  end.

(** What stands between two elements of a rendered sequence. *)
Definition separator (delimChar : rune) : str :=
  (if negb (delimChar =? 0) then [delimChar] else []) ++ [" "%rune].

(** A token that begins a value. *)
Definition value_token (tok : Token) : bool :=
  match tok with
  | SYMBOL | STRING | NUMBER | OPEN_BRACE | OPEN_BRACKET | OPEN_PAREN => true
  | _ => false
  end.

(** The text [t] begins with a value: a rune that is not whitespace, the
    first of a token that begins a value. *)
Definition begins_value (t : list rune) : Prop :=
  exists c t0 tok lit t' u',
    t = c :: t0 /\ isWhitespace c = false /\ c <> eof
    /\ Scan (mkScanner (mkReader t None) ILLEGAL [])
       = (tok, lit, mkScanner (mkReader t' u') ILLEGAL [])
    /\ value_token tok = true.

(** What may follow a rendered value: the end of the text, a closing
    bracket, a comma, or a space and then a value. *)
Definition terminated (rest : list rune) : bool :=
  match rest with
  | [] => true
  | c :: _ => rune_in c (runes ", ])}")
  end.

Definition stops (rest : list rune) : Prop :=
  terminated rest = true
  /\ exists tok lit t' u',
       scanIgnoreWhitespace (parser_at rest None ILLEGAL [])
       = (tok, lit, parser_at t' u' tok lit)
       /\ tok <> DOUBLE_COLON /\ tok <> WHITESPACE.

(** The value [parseToken] makes of a SYMBOL token that no [::] follows. *)
Definition symbol_value (lit : str) : Value :=
  if str_eqb lit (runes "true") then BoolValue 1
  else if str_eqb lit (runes "false") then BoolValue 0
  else if str_eqb lit (runes "null") then NullValue
  else SymbolValue lit.

(** The runes of a Symbol after its first one: [symbolToString] writes them
    as they are, and [scanUntil] reads them as they are unless they are
    the quote, the backslash or the rune read as the end of the input. *)
Definition symbol_rune (c : rune) : bool :=
  negb (c =? "'"%rune) && negb (c =? "\"%rune) && negb (c =? eof).

Definition symbol_text (s : str) : bool :=
  match s with
  | [] => false
  | _ :: s' => forallb symbol_rune s' && negb (is_keyword s)
  end.

Definition field_name (s : str) : bool := is_identifier s && negb (is_keyword s).

Definition annotations_ok (annotations : list str) : bool :=
  match annotations with
  | [] => true
  | [a] => is_identifier a
  | _ => false
  end.

(** The same [float64]: the same sign, mantissa and exponent. *)
Definition float64_eqb (f g : float64) : bool :=
  match f, g with
  | S754_zero a, S754_zero b => Bool.eqb a b
  | S754_infinity a, S754_infinity b => Bool.eqb a b
  | S754_nan, S754_nan => true
  | S754_finite a m e, S754_finite b m' e' => Bool.eqb a b && Pos.eqb m m' && (e =? e')
  | _, _ => false
  end.

(** A Float that is rendered as a literal of the scanner which reads back
    as the Float: [%g] writes it with digits and a point only (no sign, no
    exponent, not [NaN] or [Inf], and not a whole number, which is written
    without a point), and [ParseFloat] gives the Float for these digits,
    as it does for the shortest decimal that [%g] is to find. *)
Definition float_text (f : float64) : bool :=
  match FormatFloat_g f with
  | [] => false
  | d :: l =>
      isDigit d && forallb (fun c => rune_in c (runes "0123456789.")) l
      && rune_in "."%rune l
      && match ParseFloat (d :: l) with
         | Some g => float64_eqb g f
         | None => false
         end
  end.

Section RoundTrip.

Variable isPrintTable : rune -> bool.

(** The first rune of a String must be printable and neither the quote nor
    the backslash, as [scanUntil] copies the first rune of a literal
    without looking at it; a later rune may also be the quote, the tab,
    the newline or the carriage return, which [Quote] writes as escapes
    that [scanUntil] knows. *)
Definition string_first (c : rune) : bool :=
  IsPrint isPrintTable c && negb (c =? dquote) && negb (c =? "\"%rune).

Definition string_rune (c : rune) : bool :=
  negb (c =? "\"%rune)
  && (IsPrint isPrintTable c || (c =? tab) || (c =? newline)
      || (c =? carriage_return)).

Definition string_text (s : str) : bool :=
  match s with
  | [] => false
  | c :: s' => string_first c && forallb string_rune s'
  end.

(** [Renderable v]: [v] is a value as the parser builds it, of which every
    part is rendered in a form that the scanner reads back: Floats that
    [%g] writes with digits and a point; no annotation but at most one, an
    identifier, on a Struct; field names that are identifiers and no
    keywords; Strings and Symbols of runes that need no escape the scanner
    does not know. *)
#[local] Unset Elimination Schemes.
Inductive Renderable : Value -> Prop :=
| Renderable_Null : Renderable NullValue
| Renderable_Bool i : i = 0 \/ i = 1 -> Renderable (BoolValue i)
| Renderable_Int i : 0 <= i < 2 ^ 63 -> Renderable (IntValue i)
| Renderable_Float f : float_text f = true -> Renderable (FloatValue f)
| Renderable_String s : string_text s = true -> Renderable (StringValue s)
| Renderable_Symbol s : symbol_text s = true -> Renderable (SymbolValue s)
| Renderable_List seq : Forall Renderable seq -> Renderable (ListValue seq)
| Renderable_Sexp seq : Forall Renderable seq -> Renderable (SexpValue seq)
| Renderable_Struct annotations fields :
    annotations_ok annotations = true ->
    Forall (fun f => field_name (Name f) = true) fields ->
    Forall (fun f => Renderable (Value' f)) fields ->
    Renderable (set_Annotations (StructValue fields) annotations).
#[local] Set Elimination Schemes.

End RoundTrip.

(** What ends a number: the end of the input, or a rune that is no digit
    and no point (nor the [x] or [b] of a radix prefix, nor the rune read
    as the end). *)
Definition ends_number (rest : list rune) : bool :=
  match rest with
  | [] => true
  | c :: _ =>
      negb (rune_in c (runes "0123456789.")) && negb (c =? eof)
      && negb (c =? "x"%rune) && negb (c =? "b"%rune)
  end.

(** Ltac: the tests of [Scan] on a rune that the hypotheses bound. *)
Ltac decide_tests c :=
  repeat match goal with
         | |- context [c =? ?k] => replace (c =? k) with false by lia
         | |- context [isWhitespace c] =>
             replace (isWhitespace c) with false
               by (unfold isWhitespace, tab, newline; lia)
         | |- context [isLetter c] =>
             replace (isLetter c) with false by (unfold isLetter; lia)
         end.

(** The tokens of one rune. *)
Definition punctuation (c : rune) : option Token :=
  if c =? ","%rune then Some COMMA
  else if c =? "{"%rune then Some OPEN_BRACE
  else if c =? "}"%rune then Some CLOSE_BRACE
  else if c =? "["%rune then Some OPEN_BRACKET
  else if c =? "]"%rune then Some CLOSE_BRACKET
  else if c =? "("%rune then Some OPEN_PAREN
  else if c =? ")"%rune then Some CLOSE_PAREN
  else None.

(** The text of a field in a rendered struct. *)
Definition field_text (S : Value -> str) (f : Field) : str :=
  Name f ++ runes ": " ++ S (Value' f).

(** [parses p v rest]: [p.parse()] returns the value [v] and leaves a
    parser that goes on with [rest]. *)
Definition parses (p : Parser) (v : Value) (rest : list rune) : Prop :=
  exists n p', parse n p = Return (Some v) None p' /\ follows p' rest.

(** The value [parseSequence] returns for [seq]. *)
Definition sequence_value (end_ : Token) (seq : list Value) : Value :=
  if Token_eqb end_ CLOSE_PAREN then SexpValue seq else ListValue seq.

(** The two kinds of sequence: the delimiter and the closing rune of the
    rendering, and the token that closes. *)
Definition sequence_kind (delim close : rune) (end_ : Token) : Prop :=
  (delim = ","%rune /\ close = "]"%rune /\ end_ = CLOSE_BRACKET)
  \/ (delim = 0 /\ close = ")"%rune /\ end_ = CLOSE_PAREN).

(** The text after the first item of a rendered container, the text
    [rest] after the container included. *)
Definition tail_text {A : Type} (sep : str) (f : A -> str) (items : list A)
    (close : rune) (rest : str) : str :=
  flat_map (fun y => sep ++ f y) items ++ close :: rest.

(** A value with a part of each renderable kind, the value of
    [a::{name: "ion", tags: [1, 'sym'], rest: (true null 42)}]. *)
Definition sample_value : Value :=
  set_Annotations
    (StructValue
       [mkField (runes "name") (StringValue (runes "ion"));
        mkField (runes "tags") (ListValue [IntValue 1; SymbolValue (runes "sym")]);
        mkField (runes "rest") (SexpValue [BoolValue 1; NullValue; IntValue 42])])
    [runes "a"].


(** What ends an identifier: the end of the input, or a rune that is no
    part of an identifier (and not the rune read as the end). *)
Definition ends_identifier (rest : list rune) : bool :=
  match rest with
  | [] => true
  | c :: _ => negb (ident_char c) && negb (c =? eof)
  end.

(** The property of the round trip for one value: wherever its rendering
    stands before a text that may follow a value, [p.parse()] returns the
    value and goes on with that text. *)
Definition parses_back (tbl : rune -> bool) (v : Value) : Prop :=
  forall rest p, stops rest -> follows p (String tbl v ++ rest) -> parses p v rest.

(** A text between double quotes. *)
Definition quoted (s : str) : str := dquote :: s ++ [dquote].

(** A rune inside a line comment: [skipLine] stops at the newline, and at
    the rune read as the end of the input. *)
Definition comment_rune (c : rune) : bool := negb (c =? eof) && negb (c =? newline).

(** What [Parse] returns has not both a value and an error. *)
Definition value_or_error (val : option Value) (e : option error) : Prop :=
  val = None \/ e = None.

(** ** Runes of a quoted literal *)

(** A rune that [scanUntil] copies into the literal as it stands: not the
    rune read as the end of the input, not the delimiter, not the
    backslash. *)
Definition plain_rune (delim c : rune) : bool :=
  negb (c =? eof) && negb (c =? delim) && negb (c =? "\"%rune).

(** The runes [scanUntil] knows after a backslash (the rune read as the
    end of the input ends the literal there too). *)
Definition known_escape (c : rune) : bool :=
  (c =? eof) || (c =? dquote) || (c =? "t"%rune) || (c =? "n"%rune)
  || (c =? "r"%rune) || (c =? newline).

(** A rune with which [Scan] begins no token: it is returned as an ILLEGAL
    token. *)
Definition unknown_rune (c : rune) : bool :=
  negb (isWhitespace c) && negb (isLetter c) && negb (c =? eof)
  && negb (rune_in c (runes "/:',{}[]()")) && negb (c =? dquote)
  && negb (isDigit c).

(** ** Sequences as they may be written *)

(** The delimiters [sequenceToString] is called with, the runes that open
    and close a sequence, and their tokens. *)
Definition delimiter (delim : rune) : Prop := delim = ","%rune \/ delim = 0.

Definition opener (open : rune) (end_ : Token) : Prop :=
  (open = "["%rune /\ end_ = CLOSE_BRACKET) \/ (open = "("%rune /\ end_ = CLOSE_PAREN).

Definition closer (close : rune) (tok : Token) : Prop :=
  (close = "]"%rune /\ tok = CLOSE_BRACKET) \/ (close = ")"%rune /\ tok = CLOSE_PAREN).

(** What [parseSequence] returns at the closing token [tok], with the
    elements [seq] read. *)
Definition closed_sequence (end_ tok : Token) (seq : list Value)
  : option Value * option error :=
  if negb (Token_eqb end_ tok) then (None, Some (ErrBadSequence end_ tok))
  else (Some (sequence_value end_ seq), None).

(** ** Structs as they may be written *)

(** The text of a field whose name is written as a string literal. *)
Definition quoted_field_text (tbl : rune -> bool) (S : Value -> str) (f : Field) : str :=
  Quote tbl (Name f) ++ runes ": " ++ S (Value' f).

(** What stands between two fields: a comma and a space, or a space. *)
Definition field_separator (sep : str) : Prop := sep = runes ", " \/ sep = runes " ".

(** A rune that closes a container, and its token. *)
Definition closing_rune (c : rune) (tok : Token) : Prop :=
  (c = "}"%rune /\ tok = CLOSE_BRACE) \/ closer c tok.

(** ** Integer literals *)

(** The three forms of an integer literal: the prefix that [scanNumber]
    and [parseToken] look for, the base that [parseToken] gives to
    [ParseInt], and the digits of the base. *)
Inductive Radix := Decimal | Hexadecimal | Binary.

Definition radix_prefix (k : Radix) : str :=
  match k with
  | Decimal => []
  | Hexadecimal => runes "0x"
  | Binary => runes "0b"
  end.

Definition radix_base (k : Radix) : Z :=
  match k with
  | Decimal => 10
  | Hexadecimal => 16
  | Binary => 2
  end.

Definition radix_digits (k : Radix) : str :=
  match k with
  | Decimal => runes "0123456789"
  | Hexadecimal => runes "0123456789abcdefABCDEF"
  | Binary => runes "01"
  end.

(** The number that the digits [s] stand for in a base, after the number
    [acc] of the digits before them. *)
Definition digit_value (c : rune) : Z :=
  match digit_of c with
  | Some d => d
  | None => 0
  end.

Definition number_value (base : Z) (s : str) (acc : Z) : Z :=
  fold_left (fun a c => a * base + digit_value c) s acc.

(** ** parser.go: ParseFile *)

(** The parser with another name of its source. *)
Definition with_source (src : str) (p : Parser) : Parser :=
  mkParser (scanner p) (err p) src (buf_tok p) (buf_lit p) (buf_n p).

Definition outcome_with_source (src : str) (o : outcome) : outcome :=
  match o with
  | Return val e p => Return val e (with_source src p)
  | o => o
  end.

Section Files.

(** [os.Open]: for a path, the error of the operating system, or a file,
    of which the parser sees the runes that its reader gives. *)
Variable os_error : Type.
Variable Open : str -> os_error + list rune.

(** What [ParseFile] returns: [nil] and the error of [os.Open], or what
    [parseFrom] returns. *)
Inductive file_result :=
| OpenFailed (e : os_error)
| Parsed (res : result).

Definition ParseFile (path : str) : file_result :=
  match Open path with
  | inl e => OpenFailed e
  | inr reader =>
      Parsed (result_of (parseFrom (3 * List.length reader + 4) path reader))
  end.

End Files.

(** ** Inputs without a struct *)

(** No rune of the text opens a struct. *)
Definition brace_free (l : list rune) : Prop := Forall (fun c => c <> "{"%rune) l.

(** The parser has no opening brace before it: none in the input left, and
    none as a token in the pushback slot of the scanner or in the buffer of
    the parser. *)
Definition no_brace (p : Parser) : Prop :=
  brace_free (pending (r (scanner p)))
  /\ lastToken (scanner p) <> OPEN_BRACE
  /\ buf_tok p <> OPEN_BRACE.

(** A method of the parser did not panic, and left no opening brace before
    the parser. *)
Definition safe (o : outcome) : Prop :=
  o <> Panic /\ forall val e p', o = Return val e p' -> no_brace p'.

(** ** The texts of tokens and errors *)

(** The number of a token, the value of its constant ([iota]). *)
Definition Token_number (t : Token) : Z :=
  match t with
  | ILLEGAL => 0
  | EOF => 1
  | WHITESPACE => 2
  | COMMA => 3
  | COLON => 4
  | DOUBLE_COLON => 5
  | SYMBOL => 6
  | STRING => 7
  | OPEN_BRACE => 8
  | CLOSE_BRACE => 9
  | OPEN_BRACKET => 10
  | CLOSE_BRACKET => 11
  | OPEN_PAREN => 12
  | CLOSE_PAREN => 13
  | NUMBER => 14
  end.

(** [Token.String]. *)
Definition Token_String (t : Token) : str :=
  match t with
  | EOF => runes "EOF"
  | WHITESPACE => runes "WHITESPACE"
  | COMMA => runes "COMMA"
  | COLON => runes "COLON"
  | DOUBLE_COLON => runes "DOUBLE_COLON"
  | SYMBOL => runes "SYMBOL"
  | STRING => runes "STRING"
  | OPEN_BRACE => runes "OPEN_BRACE"
  | CLOSE_BRACE => runes "CLOSE_BRACE"
  | OPEN_BRACKET => runes "OPEN_BRACKET"
  | CLOSE_BRACKET => runes "CLOSE_BRACKET"
  | OPEN_PAREN => runes "OPEN_PAREN"
  | CLOSE_PAREN => runes "CLOSE_PAREN"
  | NUMBER => runes "NUMBER"
  | ILLEGAL => runes "ILLEGAL"
  end.

(** The message of an error: the format of its [fmt.Errorf] with the
    arguments.  [%s] and [%v] of a token are [Token.String], [%v] of a
    value is [Value.String], [%q] is [strconv.Quote], and [string(tok)] is
    the one rune that has the number of the token. *)
Definition Error (isPrintTable : rune -> bool) (e : error) : str :=
  match e with
  | ErrTokenNotHandled tok lit =>
      runes "token not handled: " ++ Token_String tok ++ runes " - "
      ++ Quote isPrintTable lit
  | ErrUnexpected tok =>
      runes "Unexpected " ++ Quote isPrintTable [Token_number tok]
  | ErrCannotParseReal lit =>
      runes "Cannot parse real number: " ++ Quote isPrintTable lit
  | ErrCannotParseInt base lit =>
      runes "Cannot parse base " ++ FormatInt base ++ runes " integer: "
      ++ Quote isPrintTable lit
  | ErrBadSequence end_ tok =>
      runes "Bad sequence, expecting " ++ Token_String end_
      ++ runes ", encounted " ++ Token_String tok
  | ErrUnexpectedEOF => runes "Unexpected EOF"
  | ErrInvalidFieldName elem =>
      runes "Invalid struct field name: " ++ String isPrintTable elem
  | ErrBadStructSyntax tok =>
      runes "Bad struct syntax, encountered " ++ Token_String tok
  end.
(** * Facts about the scanner *)

Lemma Token_eqb_eq a b : Token_eqb a b = true <-> a = b.
Proof. destruct a, b; simpl; split; intro H; try reflexivity; discriminate. Qed.

Lemma Token_eqb_refl a : Token_eqb a a = true.
Proof. now apply Token_eqb_eq. Qed.

Lemma Token_eqb_neq a b : Token_eqb a b = false <-> a <> b.
Proof.
  split.
  - intros H E. subst. rewrite Token_eqb_refl in H. discriminate.
  - intro H. destruct (Token_eqb a b) eqn:E; [|reflexivity].
    apply Token_eqb_eq in E. contradiction.
Qed.

Lemma skipLine_length l : (List.length (pending (skipLine l)) <= List.length l)%nat.
Proof.
  induction l as [|ch l IH]; simpl; [lia|].
  destruct ((ch =? eof) || (ch =? newline)); simpl; lia.
Qed.

Lemma scanWhitespace_loop_length l : forall buf lit b,
  scanWhitespace_loop l buf = (lit, b) ->
  (List.length (pending b) <= List.length l)%nat.
Proof.
  induction l as [|ch l IH]; simpl; intros buf lit b H.
  - inversion H; subst; simpl; lia.
  - destruct (ch =? eof).
    + inversion H; subst; simpl; lia.
    + destruct (negb (isWhitespace ch)).
      * inversion H; subst; simpl; lia.
      * apply IH in H. lia.
Qed.

Lemma scanIdentifier_loop_length l : forall buf lit b,
  scanIdentifier_loop l buf = (lit, b) ->
  (List.length (pending b) <= List.length l)%nat.
Proof.
  induction l as [|ch l IH]; simpl; intros buf lit b H.
  - inversion H; subst; simpl; lia.
  - destruct (ch =? eof).
    + inversion H; subst; simpl; lia.
    + destruct (negb (isLetter ch) && negb (isDigit ch) && negb (ch =? "_"%rune)).
      * inversion H; subst; simpl; lia.
      * apply IH in H. lia.
Qed.

Lemma scanNumber_loop_length digits l : forall buf lit b,
  scanNumber_loop digits l buf = (lit, b) ->
  (List.length (pending b) <= List.length l)%nat.
Proof.
  induction l as [|ch l IH]; simpl; intros buf lit b H.
  - inversion H; subst; simpl; lia.
  - destruct (ch =? eof).
    + inversion H; subst; simpl; lia.
    + destruct (rune_in ch digits).
      * apply IH in H. lia.
      * inversion H; subst; simpl; lia.
Qed.

Lemma scanUntil_loop_length tok delim l : forall mode buf tok' lit b,
  scanUntil_loop tok delim l mode buf = (tok', lit, b) ->
  (List.length (pending b) <= List.length l)%nat.
Proof.
  induction l as [|ch l IH]; simpl; intros mode buf tok' lit b H.
  - inversion H; subst; simpl; lia.
  - destruct mode;
      repeat match type of H with
             | (if ?c then _ else _) = _ => destruct c
             end;
      try (inversion H; subst; simpl; lia);
      try (apply IH in H; lia).
Qed.
Lemma Scan_fuel_spec : forall n s,
  (List.length (pending (r s)) < n)%nat ->
  exists tok lit s',
    Scan_fuel n s = Some (tok, lit, s')
    /\ lastToken s' = ILLEGAL
    /\ (scanner_left s' + tok_weight tok <= scanner_left s)%nat.
Proof.
  induction n as [|n IH]; intros s Hn; [lia|].
  destruct s as [[l u] lt ll]. unfold scanner_left in *. simpl in *.
  destruct (Token_eqb lt ILLEGAL) eqn:Elt; simpl.
  2:{ do 3 eexists. split; [reflexivity|]. simpl. split; [reflexivity|].
      unfold tok_weight. destruct (Token_eqb lt EOF); lia. }
  apply Token_eqb_eq in Elt. subst lt.
  destruct l as [|ch l].
  { simpl. scan_leaf. }
  unfold read at 1. simpl.
  destruct (isWhitespace ch) eqn:Ews.
  { unfold scanWhitespace, read. simpl.
    destruct (scanWhitespace_loop l [ch]) as [lit b2] eqn:E.
    apply scanWhitespace_loop_length in E.
    scan_leaf. }
  destruct (isLetter ch) eqn:Elet.
  { unfold scanIdentifier, read. simpl.
    destruct (scanIdentifier_loop l [ch]) as [lit b2] eqn:E.
    apply scanIdentifier_loop_length in E.
    scan_leaf. }
  destruct (ch =? eof) eqn:Eeof.
  { scan_leaf. }
  destruct (ch =? "/"%rune) eqn:Eslash.
  { destruct l as [|ch2 l]; unfold read; simpl.
    { scan_leaf. }
    destruct (ch2 =? "/"%rune).
    - destruct (IH (mkScanner (skipLine l) ILLEGAL ll)) as (tok & lit & s' & E & Hl & Hw).
      { simpl. pose proof (skipLine_length l). simpl in Hn. lia. }
      do 3 eexists. split; [exact E|]. split; [exact Hl|].
      simpl in Hw. pose proof (skipLine_length l). lia.
    - scan_leaf. }
  destruct (ch =? ":"%rune) eqn:Ecolon.
  { destruct l as [|ch2 l]; unfold read; simpl.
    { scan_leaf. }
    destruct (ch2 =? ":"%rune);
      scan_leaf. }
  destruct (ch =? "'"%rune) eqn:Eq.
  { unfold scanUntil.
    destruct (read _) as [c b1] eqn:Er.
    destruct (scanUntil_loop SYMBOL ch (pending b1) Plain [c]) as [[tok lit] b2] eqn:E.
    apply scanUntil_loop_length in E.
    assert (List.length (pending b1) <= List.length l)%nat.
    { unfold read in Er. simpl in Er. destruct l; inversion Er; subst; simpl; lia. }
    do 3 eexists. split; [reflexivity|]. simpl. split; [reflexivity|].
    unfold tok_weight. destruct (Token_eqb tok EOF); simpl; lia. }
  destruct (ch =? dquote) eqn:Edq.
  { unfold scanUntil.
    destruct (read _) as [c b1] eqn:Er.
    destruct (scanUntil_loop STRING ch (pending b1) Plain [c]) as [[tok lit] b2] eqn:E.
    apply scanUntil_loop_length in E.
    assert (List.length (pending b1) <= List.length l)%nat.
    { unfold read in Er. simpl in Er. destruct l; inversion Er; subst; simpl; lia. }
    do 3 eexists. split; [reflexivity|]. simpl. split; [reflexivity|].
    unfold tok_weight. destruct (Token_eqb tok EOF); simpl; lia. }
  repeat match goal with
         | |- context [if ?c then _ else _] =>
             lazymatch c with
             | isDigit _ => fail
             | _ => destruct c;
                    [scan_leaf|]
             end
         end.
  destruct (isDigit ch).
  2:{ scan_leaf. }
  unfold scanNumber.
  destruct (read _) as [c b1] eqn:Er.
  assert (Hb1 : (List.length (pending b1) <= List.length l)%nat
                /\ (List.length (pending (unread b1)) <= List.length l)%nat).
  { unfold read in Er. simpl in Er. destruct l; inversion Er; subst; simpl; lia. }
  destruct (negb (c =? eof)).
  2:{ scan_leaf. }
  destruct (ch =? "0"%rune); [destruct (c =? "x"%rune); [|destruct (c =? "b"%rune)]|];
    match goal with
    | |- context [scanNumber_loop ?d ?l ?b] =>
        destruct (scanNumber_loop d l b) as [lit b3] eqn:E
    end;
    apply scanNumber_loop_length in E;
    do 3 eexists; (split; [reflexivity|]); simpl; (split; [reflexivity|]);
    unfold tok_weight; simpl; lia.
Qed.

(** [Scan] returns what [Scan_fuel] computes: its fuel is enough. *)
Lemma Scan_spec s :
  exists tok lit s',
    Scan s = (tok, lit, s')
    /\ lastToken s' = ILLEGAL
    /\ (scanner_left s' + tok_weight tok <= scanner_left s)%nat.
Proof.
  destruct (Scan_fuel_spec (S (List.length (pending (r s)))) s) as (tok & lit & s' & E & H);
    [lia|].
  exists tok, lit, s'. unfold Scan. rewrite E. auto.
Qed.
(** * Facts about the parser *)

Lemma parse_S n p :
  parse (S n) p =
  let '(tok, lit, p) := scanIgnoreWhitespace p in parseToken n tok lit p.
Proof. reflexivity. Qed.

Lemma parseSequence_S n end_ p :
  parseSequence (S n) end_ p =
  let '(tok, lit, p) := scanIgnoreWhitespace p in
  parseSequence_loop n end_ [] tok lit p.
Proof. reflexivity. Qed.

Lemma parseStruct_S n p :
  parseStruct (S n) p =
  let '(tok, lit, p) := scanIgnoreWhitespace p in
  parseStruct_loop n [] tok lit p.
Proof. reflexivity. Qed.

Lemma parseToken_S n tok lit p :
  parseToken (S n) tok lit p =
  match tok with
  | EOF => Return None None p
  | ILLEGAL | WHITESPACE =>
      let e := ErrTokenNotHandled tok lit in Return None (Some e) (set_err p e)
  | SYMBOL =>
      let '(nextTok, _, p) := scanIgnoreWhitespace p in
      if Token_eqb nextTok DOUBLE_COLON then
        match parse n p with
        | Return val e p =>
            match e, val with
            | None, Some v => Return (Some (set_Annotations v [lit])) e p
            | _, _ => Return val e p
            end
        | o => o
        end
      else
        let p := unscan p in
        if str_eqb lit (runes "true") then
          Return (Some (BoolValue 1)) None p
        else if str_eqb lit (runes "false") then
          Return (Some (BoolValue 0)) None p
        else if str_eqb lit (runes "null") then
          Return (Some NullValue) None p
        else
          Return (Some (SymbolValue lit)) None p
  | OPEN_PAREN => parseSequence n CLOSE_PAREN p
  | OPEN_BRACKET => parseSequence n CLOSE_BRACKET p
  | OPEN_BRACE => parseStruct n p
  | CLOSE_BRACE | CLOSE_BRACKET | CLOSE_PAREN | DOUBLE_COLON =>
      Return None (Some (ErrUnexpected tok)) p
  | COMMA | COLON => Return None None p
  | NUMBER => NUMBER_value lit p
  | STRING =>
      Return (Some (StringValue lit)) None p
  end.
Proof. destruct tok; reflexivity. Qed.

Lemma parseSequence_loop_S n end_ seq tok lit p :
  parseSequence_loop (S n) end_ seq tok lit p =
  if Token_eqb tok EOF then Return None (Some ErrUnexpectedEOF) p
  else if Token_eqb tok CLOSE_BRACKET || Token_eqb tok CLOSE_PAREN then
    if negb (Token_eqb end_ tok) then
      Return None (Some (ErrBadSequence end_ tok)) p
    else if Token_eqb end_ CLOSE_PAREN then
      Return (Some (SexpValue seq)) None p
    else
      Return (Some (ListValue seq)) None p
  else
    match parseToken n tok lit p with
    | Return _ (Some e) p => Return None (Some e) p
    | Return elem None p =>
        let seq := match elem with Some v => seq ++ [v] | None => seq end in
        let '(tok, lit, p) := scanIgnoreWhitespace p in
        parseSequence_loop n end_ seq tok lit p
    | o => o
    end.
Proof. reflexivity. Qed.

Lemma parseStruct_loop_S n fields tok lit p :
  parseStruct_loop (S n) fields tok lit p =
  if Token_eqb tok EOF then Return None (Some ErrUnexpectedEOF) p
  else if Token_eqb tok CLOSE_BRACE then
    Return (Some (StructValue fields)) None p
  else if Token_eqb tok COMMA then
    let '(tok, lit, p) := scanIgnoreWhitespace p in
    parseStruct_loop n fields tok lit p
  else
    match parseToken n tok lit p with
    | Return _ (Some e) p => Return None (Some e) p
    | Return None None p => Panic
    | Return (Some elem) None p =>
        if negb (Type_eqb (Type' elem) SymbolType)
           && negb (Type_eqb (Type' elem) StringType)
        then Return None (Some (ErrInvalidFieldName elem)) p
        else
          let name := Text elem in
          let '(tok, lit, p) := scanIgnoreWhitespace p in
          if negb (Token_eqb tok COLON) then
            Return None (Some (ErrBadStructSyntax tok)) p
          else
            match parse n p with
            | Return _ (Some e) p => Return None (Some e) p
            | Return None None p => Panic
            | Return (Some elem) None p =>
                let fields := fields ++ [mkField name elem] in
                let '(tok, lit, p) := scanIgnoreWhitespace p in
                parseStruct_loop n fields tok lit p
            | o => o
            end
    | o => o
    end.
Proof. reflexivity. Qed.

(** More fuel changes no result. *)
Lemma fuel_monotone : forall n m, (n <= m)%nat ->
  (forall p, parse n p <> OutOfFuel -> parse m p = parse n p)
  /\ (forall tok lit p,
        parseToken n tok lit p <> OutOfFuel ->
        parseToken m tok lit p = parseToken n tok lit p)
  /\ (forall end_ p,
        parseSequence n end_ p <> OutOfFuel ->
        parseSequence m end_ p = parseSequence n end_ p)
  /\ (forall end_ seq tok lit p,
        parseSequence_loop n end_ seq tok lit p <> OutOfFuel ->
        parseSequence_loop m end_ seq tok lit p
        = parseSequence_loop n end_ seq tok lit p)
  /\ (forall p, parseStruct n p <> OutOfFuel -> parseStruct m p = parseStruct n p)
  /\ (forall fields tok lit p,
        parseStruct_loop n fields tok lit p <> OutOfFuel ->
        parseStruct_loop m fields tok lit p = parseStruct_loop n fields tok lit p).
Proof.
  induction n as [|n IH]; intros m Hm.
  { repeat split; intros; exfalso; auto. }
  destruct m as [|m]; [lia|].
  destruct (IH m ltac:(lia)) as (Hp & Ht & Hs & Hsl & Hst & Hstl).
  repeat split.
  - intros p H. rewrite !parse_S in *.
    destruct (scanIgnoreWhitespace p) as [[tok lit] p1]. auto.
  - intros tok lit p H. rewrite !parseToken_S in *.
    destruct tok; auto.
    destruct (scanIgnoreWhitespace p) as [[nt nl] p1].
    destruct (Token_eqb nt DOUBLE_COLON); auto.
    destruct (parse n p1) eqn:E; try congruence; rewrite Hp, E; congruence.
  - intros end_ p H. rewrite !parseSequence_S in *.
    destruct (scanIgnoreWhitespace p) as [[tok lit] p1]. auto.
  - intros end_ seq tok lit p H. rewrite !parseSequence_loop_S in *.
    destruct (Token_eqb tok EOF); auto.
    destruct (Token_eqb tok CLOSE_BRACKET || Token_eqb tok CLOSE_PAREN); auto.
    destruct (parseToken n tok lit p) as [val e p1| |] eqn:E; try congruence;
      rewrite Ht, E by congruence; auto.
    destruct e; auto.
    destruct (scanIgnoreWhitespace p1) as [[tok' lit'] p2]. auto.
  - intros p H. rewrite !parseStruct_S in *.
    destruct (scanIgnoreWhitespace p) as [[tok lit] p1]. auto.
  - intros fields tok lit p H. rewrite !parseStruct_loop_S in *.
    destruct (Token_eqb tok EOF); auto.
    destruct (Token_eqb tok CLOSE_BRACE); auto.
    destruct (Token_eqb tok COMMA).
    { destruct (scanIgnoreWhitespace p) as [[tok' lit'] p1]. auto. }
    destruct (parseToken n tok lit p) as [val e p1| |] eqn:E; try congruence;
      rewrite Ht, E by congruence; auto.
    destruct e; auto. destruct val as [elem|]; auto.
    destruct (negb (Type_eqb (Type' elem) SymbolType)
              && negb (Type_eqb (Type' elem) StringType)); auto.
    destruct (scanIgnoreWhitespace p1) as [[tok' lit'] p2].
    destruct (negb (Token_eqb tok' COLON)); auto.
    destruct (parse n p2) as [val2 e2 p3| |] eqn:E2; try congruence;
      rewrite Hp, E2 by congruence; auto.
    destruct e2; auto. destruct val2; auto.
    destruct (scanIgnoreWhitespace p3) as [[tok3 lit3] p4]. auto.
Qed.
Lemma scan_spec p :
  exists tok lit p',
    scan p = (tok, lit, p')
    /\ buf_n p' = 0 /\ buf_tok p' = tok /\ buf_lit p' = lit
    /\ (parser_left p' + tok_weight tok <= parser_left p)%nat.
Proof.
  unfold scan, parser_left.
  destruct (buf_n p =? 0) eqn:E; simpl.
  - destruct (Scan_spec (scanner p)) as (tok & lit & s' & Es & _ & Hw).
    rewrite Es. exists tok, lit. eexists. split; [reflexivity|]. simpl.
    apply Z.eqb_eq in E. rewrite E. simpl. repeat split; auto. lia.
  - do 3 eexists. split; [reflexivity|]. simpl. repeat split. lia.
Qed.

Lemma scanIgnoreWhitespace_spec p :
  exists tok lit p',
    scanIgnoreWhitespace p = (tok, lit, p')
    /\ buf_n p' = 0 /\ buf_tok p' = tok /\ buf_lit p' = lit
    /\ (parser_left p' + tok_weight tok <= parser_left p)%nat.
Proof.
  unfold scanIgnoreWhitespace.
  destruct (scan_spec p) as (tok & lit & p1 & E & Hn & Ht & Hl & Hw). rewrite E.
  destruct (Token_eqb tok WHITESPACE).
  - destruct (scan_spec p1) as (tok2 & lit2 & p2 & E2 & Hn2 & Ht2 & Hl2 & Hw2).
    exists tok2, lit2, p2. repeat split; auto. lia.
  - exists tok, lit, p1. repeat split; auto.
Qed.

Lemma unscan_left p :
  buf_n p = 0 -> parser_left (unscan p) = (parser_left p + tok_weight (buf_tok p))%nat.
Proof. unfold parser_left. intros ->. simpl. lia. Qed.

Lemma parser_left_set_err p e : parser_left (set_err p e) = parser_left p.
Proof. reflexivity. Qed.

Lemma finishes_Return val e p bound :
  (parser_left p <= bound)%nat -> finishes (Return val e p) bound.
Proof.
  intro H. split; [discriminate|]. intros val' e' p' E. inversion E; subst. exact H.
Qed.

Lemma finishes_Panic bound : finishes Panic bound.
Proof. split; discriminate. Qed.

Lemma finishes_le o a b : (a <= b)%nat -> finishes o a -> finishes o b.
Proof.
  intros Hab [H1 H2]. split; [exact H1|].
  intros val e p' E. specialize (H2 _ _ _ E). lia.
Qed.

Lemma NUMBER_value_finishes lit p : finishes (NUMBER_value lit p) (parser_left p).
Proof.
  unfold NUMBER_value.
  destruct (rune_in "."%rune lit).
  - match goal with |- context [match ?x with Some _ => _ | None => _ end] =>
      destruct x end; apply finishes_Return; lia.
  - match goal with |- context [let '(_, _) := ?x in _] =>
      destruct x as [base lit'] end.
    destruct (ParseInt lit' base); apply finishes_Return; lia.
Qed.

Create HintDb fin.
#[local] Hint Resolve finishes_Return finishes_Panic : fin.

(** The parser finishes: fuel three times what is left, and four more, is
    enough for [parse]. *)
Lemma parser_finishes : forall n,
  (forall p, (3 * parser_left p + 4 <= n)%nat -> finishes (parse n p) (parser_left p))
  /\ (forall tok lit p, (3 * parser_left p + 3 <= n)%nat ->
        finishes (parseToken n tok lit p) (parser_left p))
  /\ (forall end_ p, (3 * parser_left p + 2 <= n)%nat ->
        finishes (parseSequence n end_ p) (parser_left p))
  /\ (forall end_ seq tok lit p,
        (1 <= n)%nat -> (tok <> EOF -> (3 * parser_left p + 4 <= n)%nat) ->
        finishes (parseSequence_loop n end_ seq tok lit p) (parser_left p))
  /\ (forall p, (3 * parser_left p + 2 <= n)%nat ->
        finishes (parseStruct n p) (parser_left p))
  /\ (forall fields tok lit p,
        (1 <= n)%nat -> (tok <> EOF -> (3 * parser_left p + 4 <= n)%nat) ->
        finishes (parseStruct_loop n fields tok lit p) (parser_left p)).
Proof.
  assert (Hweight : forall tok, tok <> EOF -> tok_weight tok = 1%nat).
  { intros tok H. unfold tok_weight. apply Token_eqb_neq in H. now rewrite H. }
  assert (Hnext : forall (n : nat) (p p1 : Parser) tok,
             (parser_left p1 + tok_weight tok <= parser_left p)%nat ->
             (3 * parser_left p + 1 <= n)%nat ->
             (1 <= n)%nat /\ (tok <> EOF -> (3 * parser_left p1 + 4 <= n)%nat)).
  { intros n p p1 tok Hw Hn. split; [lia|]. intro Ht. rewrite (Hweight _ Ht) in Hw. lia. }
  induction n as [|n IH].
  { repeat split; intros; lia. }
  destruct IH as (Hp & Ht & Hs & Hsl & Hst & Hstl).
  split; [|split; [|split; [|split; [|split]]]].
  - intros p Hn. rewrite parse_S.
    destruct (scanIgnoreWhitespace_spec p) as (tok & lit & p1 & E & _ & _ & _ & Hw).
    rewrite E. eapply finishes_le; [|apply Ht]; lia.
  - intros tok lit p Hn. rewrite parseToken_S.
    destruct tok;
      try (apply finishes_Return; lia);
      try (cbv zeta; apply finishes_Return; rewrite parser_left_set_err; lia);
      try (apply Hs; lia); try (apply Hst; lia); try apply NUMBER_value_finishes.
    destruct (scanIgnoreWhitespace_spec p) as (nt & nl & p1 & E & Hbn & Hbt & _ & Hw).
    rewrite E.
    destruct (Token_eqb nt DOUBLE_COLON) eqn:Ent.
    + apply Token_eqb_eq in Ent. rewrite Ent in Hw. unfold tok_weight in Hw; simpl in Hw.
      destruct (Hp p1 ltac:(lia)) as [H1 H2].
      destruct (parse n p1) as [val e p2| |] eqn:Ep; try congruence.
      * specialize (H2 _ _ _ eq_refl).
        destruct e; [|destruct val]; apply finishes_Return; lia.
      * apply finishes_Panic.
    + assert (parser_left (unscan p1) <= parser_left p)%nat.
      { rewrite unscan_left by assumption. rewrite Hbt. lia. }
      repeat match goal with
             | |- context [if ?c then _ else _] => destruct c
             end; apply finishes_Return; assumption.
  - intros end_ p Hn. rewrite parseSequence_S.
    destruct (scanIgnoreWhitespace_spec p) as (tok & lit & p1 & E & _ & _ & _ & Hw).
    rewrite E. eapply finishes_le; [|apply Hsl; eapply Hnext; eauto; lia]. lia.
  - intros end_ seq tok lit p _ Hn. rewrite parseSequence_loop_S.
    destruct (Token_eqb tok EOF) eqn:Eeof; [apply finishes_Return; lia|].
    apply Token_eqb_neq in Eeof. specialize (Hn Eeof).
    destruct (Token_eqb tok CLOSE_BRACKET || Token_eqb tok CLOSE_PAREN).
    { destruct (negb (Token_eqb end_ tok)); [|destruct (Token_eqb end_ CLOSE_PAREN)];
        apply finishes_Return; lia. }
    destruct (Ht tok lit p ltac:(lia)) as [H1 H2].
    destruct (parseToken n tok lit p) as [val e p1| |]; try congruence;
      [|apply finishes_Panic].
    specialize (H2 _ _ _ eq_refl).
    destruct e; [apply finishes_Return; lia|].
    destruct (scanIgnoreWhitespace_spec p1) as (tok' & lit' & p2 & E & _ & _ & _ & Hw).
    rewrite E. eapply finishes_le; [|apply Hsl; apply (Hnext n p p2 tok'); lia]. lia.
  - intros p Hn. rewrite parseStruct_S.
    destruct (scanIgnoreWhitespace_spec p) as (tok & lit & p1 & E & _ & _ & _ & Hw).
    rewrite E. eapply finishes_le; [|apply Hstl; eapply Hnext; eauto; lia]. lia.
  - intros fields tok lit p _ Hn. rewrite parseStruct_loop_S.
    destruct (Token_eqb tok EOF) eqn:Eeof; [apply finishes_Return; lia|].
    apply Token_eqb_neq in Eeof. specialize (Hn Eeof).
    destruct (Token_eqb tok CLOSE_BRACE); [apply finishes_Return; lia|].
    destruct (Token_eqb tok COMMA).
    { destruct (scanIgnoreWhitespace_spec p) as (tok' & lit' & p2 & E & _ & _ & _ & Hw).
      rewrite E. eapply finishes_le; [|apply Hstl; apply (Hnext n p p2 tok'); lia]. lia. }
    destruct (Ht tok lit p ltac:(lia)) as [H1 H2].
    destruct (parseToken n tok lit p) as [val e p1| |]; try congruence;
      [|apply finishes_Panic].
    specialize (H2 _ _ _ eq_refl).
    destruct val as [elem|], e as [e|];
      try (apply finishes_Return; lia); try apply finishes_Panic.
    destruct (negb (Type_eqb (Type' elem) SymbolType)
              && negb (Type_eqb (Type' elem) StringType));
      [apply finishes_Return; lia|].
    destruct (scanIgnoreWhitespace_spec p1) as (tok2 & lit2 & p2 & E & _ & _ & _ & Hw).
    rewrite E.
    destruct (negb (Token_eqb tok2 COLON)) eqn:Ecol; [apply finishes_Return; lia|].
    apply negb_false_iff, Token_eqb_eq in Ecol. subst tok2. unfold tok_weight in Hw; simpl in Hw.
    destruct (Hp p2 ltac:(lia)) as [H3 H4].
    destruct (parse n p2) as [val2 e2 p3| |]; try congruence; [|apply finishes_Panic].
    specialize (H4 _ _ _ eq_refl).
    destruct val2 as [elem2|], e2 as [e2|];
      try (apply finishes_Return; lia); try apply finishes_Panic.
    destruct (scanIgnoreWhitespace_spec p3) as (tok4 & lit4 & p4 & E4 & _ & _ & _ & Hw4).
    rewrite E4. eapply finishes_le; [|apply Hstl; apply (Hnext n p p4 tok4); lia]. lia.
Qed.
Lemma result_of_Unfinished o : result_of o = Unfinished -> o = OutOfFuel.
Proof. destruct o; simpl; congruence. Qed.

Lemma parse_fuel_agree n m p :
  parse n p <> OutOfFuel -> parse m p <> OutOfFuel -> parse m p = parse n p.
Proof.
  intros Hn Hm. destruct (Nat.le_ge_cases n m) as [H|H].
  - now apply (fuel_monotone n m H).
  - symmetry. now apply (fuel_monotone m n H).
Qed.

(** [Parse] returns or panics on every input. *)
Theorem Parse_finishes reader : Parse reader <> Unfinished.
Proof.
  unfold Parse, Parse_fuel, parseFrom. intro H. apply result_of_Unfinished in H.
  revert H. apply (proj1 (parser_finishes _)).
  unfold parser_left, scanner_left. simpl. lia.
Qed.

(** A result found with some fuel is the result of [Parse]. *)
Lemma Parse_fuel_Parse n reader :
  Parse_fuel n reader <> Unfinished -> Parse reader = Parse_fuel n reader.
Proof.
  intro H. pose proof (Parse_finishes reader) as Hc.
  unfold Parse, Parse_fuel, parseFrom in *.
  f_equal. apply parse_fuel_agree.
  - intro E. rewrite E in H. now apply H.
  - intro E. rewrite E in Hc. now apply Hc.
Qed.
Lemma str_eqb_eq a : forall b, str_eqb a b = true <-> a = b.
Proof.
  induction a as [|x a IH]; intros [|y b]; simpl; split; intro H;
    try reflexivity; try discriminate.
  - apply andb_true_iff in H. destruct H as [H1 H2].
    apply Z.eqb_eq in H1. apply IH in H2. congruence.
  - inversion H; subst. rewrite Z.eqb_refl. simpl. now apply IH.
Qed.

Lemma no_keyword_symbol_SubValue v w :
  no_keyword_symbol v = true -> SubValue w v ->
  Type_eqb (Type' w) SymbolType && is_keyword (Text w) = false.
Proof.
  intros H S. induction S as [|x v Hin S IH|f v Hin S IH].
  - destruct w; simpl in *.
    apply andb_true_iff in H. destruct H as [H _].
    apply andb_true_iff in H. destruct H as [H _].
    now apply negb_true_iff in H.
  - apply IH. destruct v; simpl in *.
    apply andb_true_iff in H. destruct H as [H _].
    apply andb_true_iff in H. destruct H as [_ H].
    rewrite forallb_forall in H. now apply H.
  - apply IH. destruct v; simpl in *.
    apply andb_true_iff in H. destruct H as [_ H].
    rewrite forallb_forall in H. now apply (H f).
Qed.

Lemma no_keyword_symbol_set_Annotations v a :
  no_keyword_symbol (set_Annotations v a) = no_keyword_symbol v.
Proof. destruct v; reflexivity. Qed.

Lemma NUMBER_value_no_keyword lit p v e p' :
  NUMBER_value lit p = Return (Some v) e p' -> no_keyword_symbol v = true.
Proof.
  unfold NUMBER_value. intro H.
  destruct (rune_in "."%rune lit).
  - match type of H with context [match ?x with Some _ => _ | None => _ end] =>
      destruct x end; inversion H; reflexivity.
  - match type of H with context [let '(_, _) := ?x in _] =>
      destruct x as [base lit'] end.
    destruct (ParseInt lit' base); inversion H; reflexivity.
Qed.

(** The parser builds no Symbol with the text of a keyword. *)
Lemma parser_no_keyword_symbol : forall n,
  (forall p v e p', parse n p = Return (Some v) e p' -> no_keyword_symbol v = true)
  /\ (forall tok lit p v e p',
        parseToken n tok lit p = Return (Some v) e p' -> no_keyword_symbol v = true)
  /\ (forall end_ p v e p',
        parseSequence n end_ p = Return (Some v) e p' -> no_keyword_symbol v = true)
  /\ (forall end_ seq tok lit p v e p',
        forallb no_keyword_symbol seq = true ->
        parseSequence_loop n end_ seq tok lit p = Return (Some v) e p' ->
        no_keyword_symbol v = true)
  /\ (forall p v e p',
        parseStruct n p = Return (Some v) e p' -> no_keyword_symbol v = true)
  /\ (forall fields tok lit p v e p',
        forallb (fun f => no_keyword_symbol (Value' f)) fields = true ->
        parseStruct_loop n fields tok lit p = Return (Some v) e p' ->
        no_keyword_symbol v = true).
Proof.
  induction n as [|n IH].
  { repeat split; intros; discriminate. }
  destruct IH as (Hp & Ht & Hs & Hsl & Hst & Hstl).
  split; [|split; [|split; [|split; [|split]]]].
  - intros p v e p' H. rewrite parse_S in H.
    destruct (scanIgnoreWhitespace p) as [[tok lit] p1]. eauto.
  - intros tok lit p v e p' H. rewrite parseToken_S in H.
    destruct tok; try discriminate; eauto using NUMBER_value_no_keyword;
      try (inversion H; reflexivity).
    destruct (scanIgnoreWhitespace p) as [[nt nl] p1].
    destruct (Token_eqb nt DOUBLE_COLON).
    + destruct (parse n p1) as [val e1 p2| |] eqn:E; try discriminate.
      destruct e1; [|destruct val]; inversion H; subst; eauto.
      rewrite no_keyword_symbol_set_Annotations. eauto.
    + destruct (str_eqb lit (runes "true")) eqn:E1; [inversion H; reflexivity|].
      destruct (str_eqb lit (runes "false")) eqn:E2; [inversion H; reflexivity|].
      destruct (str_eqb lit (runes "null")) eqn:E3; [inversion H; reflexivity|].
      inversion H; subst. unfold SymbolValue, no_keyword_symbol, is_keyword. simpl.
      now rewrite E1, E2, E3.
  - intros end_ p v e p' H. rewrite parseSequence_S in H.
    destruct (scanIgnoreWhitespace p) as [[tok lit] p1].
    eapply Hsl; [|exact H]; reflexivity.
  - intros end_ seq tok lit p v e p' Hseq H. rewrite parseSequence_loop_S in H.
    destruct (Token_eqb tok EOF); [discriminate|].
    destruct (Token_eqb tok CLOSE_BRACKET || Token_eqb tok CLOSE_PAREN).
    { destruct (negb (Token_eqb end_ tok)); [discriminate|].
      destruct (Token_eqb end_ CLOSE_PAREN); inversion H; subst;
        unfold SexpValue, ListValue; simpl; now rewrite Hseq. }
    destruct (parseToken n tok lit p) as [val e1 p1| |] eqn:E; try discriminate.
    destruct e1; [discriminate|].
    destruct (scanIgnoreWhitespace p1) as [[tok' lit'] p2].
    eapply Hsl; [|exact H].
    destruct val as [x|]; [|exact Hseq].
    rewrite forallb_app, Hseq. simpl. erewrite Ht; eauto.
  - intros p v e p' H. rewrite parseStruct_S in H.
    destruct (scanIgnoreWhitespace p) as [[tok lit] p1].
    eapply Hstl; [|exact H]; reflexivity.
  - intros fields tok lit p v e p' Hfields H. rewrite parseStruct_loop_S in H.
    destruct (Token_eqb tok EOF); [discriminate|].
    destruct (Token_eqb tok CLOSE_BRACE).
    { inversion H; subst. unfold StructValue. simpl. exact Hfields. }
    destruct (Token_eqb tok COMMA).
    { destruct (scanIgnoreWhitespace p) as [[tok' lit'] p1]. eapply Hstl; eauto. }
    destruct (parseToken n tok lit p) as [val e1 p1| |] eqn:E; try discriminate.
    destruct val as [elem|], e1; try discriminate.
    destruct (negb (Type_eqb (Type' elem) SymbolType)
              && negb (Type_eqb (Type' elem) StringType)); [discriminate|].
    destruct (scanIgnoreWhitespace p1) as [[tok' lit'] p2].
    destruct (negb (Token_eqb tok' COLON)); [discriminate|].
    destruct (parse n p2) as [val2 e2 p3| |] eqn:E2; try discriminate.
    destruct val2 as [elem2|], e2; try discriminate.
    destruct (scanIgnoreWhitespace p3) as [[tok3 lit3] p4].
    eapply Hstl; [|exact H].
    rewrite forallb_app, Hfields. simpl. erewrite Hp; eauto.
Qed.
(** * Scanning a text that is known in part *)

Lemma read_reader_irrelevant t u : read (mkReader t u) = read (mkReader t None).
Proof. destruct t; reflexivity. Qed.

Lemma Scan_fuel_reader_irrelevant n t u ll :
  Scan_fuel n (mkScanner (mkReader t u) ILLEGAL ll)
  = Scan_fuel n (mkScanner (mkReader t None) ILLEGAL ll).
Proof.
  destruct n; [reflexivity|].
  cbn [Scan_fuel lastToken lastLiteral r Token_eqb negb].
  rewrite (read_reader_irrelevant t u). reflexivity.
Qed.

Lemma Scan_reader_irrelevant t u ll :
  Scan (mkScanner (mkReader t u) ILLEGAL ll) = Scan (mkScanner (mkReader t None) ILLEGAL ll).
Proof.
  unfold Scan. cbn [r pending]. rewrite Scan_fuel_reader_irrelevant.
  destruct (Scan_fuel_spec (S (List.length t)) (mkScanner (mkReader t None) ILLEGAL ll))
    as (tok & lit & s' & E & _); [simpl; lia|].
  now rewrite E.
Qed.

Lemma scanIgnoreWhitespace_parser_at t u tok lit :
  scanIgnoreWhitespace (parser_at t u tok lit)
  = scanIgnoreWhitespace (parser_at t None ILLEGAL []).
Proof.
  unfold scanIgnoreWhitespace, scan, parser_at. simpl.
  rewrite (Scan_reader_irrelevant t u). reflexivity.
Qed.

Lemma follows_parser_at t u tok lit : follows (parser_at t u tok lit) t.
Proof. apply scanIgnoreWhitespace_parser_at. Qed.

Lemma parseFrom_parser_at n t :
  parseFrom n [] t = parse n (parser_at t None ILLEGAL []).
Proof. reflexivity. Qed.

Lemma parse_follows n p t :
  follows p t -> parse n p = parse n (parser_at t None ILLEGAL []).
Proof. intro H. destruct n; [reflexivity|]. rewrite !parse_S, H. reflexivity. Qed.

Lemma ident_char_not_eof c : ident_char c = true -> (c =? eof) = false.
Proof. unfold ident_char, isLetter, isDigit, eof. lia. Qed.

Lemma isLetter_not_whitespace c : isLetter c = true -> isWhitespace c = false.
Proof. unfold isLetter, isWhitespace, tab, newline. lia. Qed.


Lemma scanIdentifier_loop_app a : forall rest buf,
  forallb ident_char a = true -> ends_identifier rest = true ->
  scanIdentifier_loop (a ++ rest) buf = (buf ++ a, mkReader rest None).
Proof.
  induction a as [|c a IH]; intros rest buf Ha Hrest; simpl in *.
  - rewrite app_nil_r. destruct rest as [|c rest]; [reflexivity|]. simpl.
    apply andb_true_iff in Hrest. destruct Hrest as [H1 H2].
    apply negb_true_iff in H2. rewrite H2.
    unfold ident_char in H1. apply negb_true_iff in H1.
    apply orb_false_iff in H1. destruct H1 as [H1 H3].
    apply orb_false_iff in H1. destruct H1 as [H1 H4].
    rewrite H1, H3, H4. reflexivity.
  - apply andb_true_iff in Ha. destruct Ha as [Hc Ha].
    rewrite (ident_char_not_eof c Hc).
    unfold ident_char in Hc.
    assert (E : negb (isLetter c) && negb (isDigit c) && negb (c =? "_"%rune) = false).
    { destruct (isLetter c), (isDigit c), (c =? "_"%rune); simpl in *; congruence. }
    rewrite E. rewrite IH by assumption. now rewrite <- app_assoc.
Qed.

Lemma Scan_identifier a rest u ll :
  is_identifier a = true -> ends_identifier rest = true ->
  Scan (mkScanner (mkReader (a ++ rest) u) ILLEGAL ll)
  = (SYMBOL, a, mkScanner (mkReader rest None) ILLEGAL ll).
Proof.
  intros Ha Hrest. destruct a as [|c a]; [discriminate|].
  simpl in Ha. apply andb_true_iff in Ha. destruct Ha as [Hc Ha].
  unfold Scan, Scan_fuel. simpl. unfold read at 1. simpl.
  rewrite (isLetter_not_whitespace c Hc), Hc.
  unfold scanIdentifier, read. simpl.
  now rewrite scanIdentifier_loop_app.
Qed.

Lemma Scan_double_colon t u ll :
  Scan (mkScanner (mkReader (runes "::" ++ t) u) ILLEGAL ll)
  = (DOUBLE_COLON, runes "::", mkScanner (mkReader t (Some ":"%rune)) ILLEGAL ll).
Proof. reflexivity. Qed.
(** * Annotations *)

Lemma scanIgnoreWhitespace_token t u bt bl tok lit t' u' :
  Scan (mkScanner (mkReader t u) ILLEGAL []) = (tok, lit, mkScanner (mkReader t' u') ILLEGAL []) ->
  tok <> WHITESPACE ->
  scanIgnoreWhitespace (parser_at t u bt bl) = (tok, lit, parser_at t' u' tok lit).
Proof.
  intros H Hw. unfold scanIgnoreWhitespace, scan, parser_at. simpl. rewrite H.
  apply Token_eqb_neq in Hw. now rewrite Hw.
Qed.

Lemma scanIgnoreWhitespace_identifier a rest u bt bl :
  is_identifier a = true -> ends_identifier rest = true ->
  scanIgnoreWhitespace (parser_at (a ++ rest) u bt bl)
  = (SYMBOL, a, parser_at rest None SYMBOL a).
Proof.
  intros. apply scanIgnoreWhitespace_token; [|discriminate].
  now apply Scan_identifier.
Qed.

Lemma scanIgnoreWhitespace_double_colon t u bt bl :
  scanIgnoreWhitespace (parser_at (runes "::" ++ t) u bt bl)
  = (DOUBLE_COLON, runes "::", parser_at t (Some ":"%rune) DOUBLE_COLON (runes "::")).
Proof. apply scanIgnoreWhitespace_token; [|discriminate]. apply Scan_double_colon. Qed.

Lemma parse_annotation a t n :
  is_identifier a = true ->
  parse (S (S n)) (parser_at (a ++ runes "::" ++ t) None ILLEGAL [])
  = annotate_outcome a (parse n (parser_at t None ILLEGAL [])).
Proof.
  intro Ha. rewrite parse_S.
  rewrite scanIgnoreWhitespace_identifier by (assumption || reflexivity).
  rewrite parseToken_S, scanIgnoreWhitespace_double_colon. cbn [Token_eqb].
  rewrite (parse_follows n _ t) by apply follows_parser_at.
  destruct (parse n _) as [[v|] [e|] p| |]; reflexivity.
Qed.

Lemma annotated_cons a names t :
  annotated (a :: names) t = a ++ runes "::" ++ annotated names t.
Proof. unfold annotated. simpl. now rewrite <- !app_assoc. Qed.

Lemma parse_annotated t v p names : forall a n,
  is_identifier a = true -> forallb is_identifier names = true ->
  parse n (parser_at t None ILLEGAL []) = Return (Some v) None p ->
  exists m,
    parse m (parser_at (annotated (a :: names) t) None ILLEGAL [])
    = Return (Some (set_Annotations v [a])) None p.
Proof.
  induction names as [|b names IH]; intros a n Ha Hnames H.
  - exists (S (S n)). rewrite annotated_cons, parse_annotation by assumption.
    unfold annotated. simpl. now rewrite H.
  - simpl in Hnames. apply andb_true_iff in Hnames. destruct Hnames as [Hb Hnames].
    destruct (IH b n Hb Hnames H) as [m Hm].
    exists (S (S m)). rewrite annotated_cons, parse_annotation by assumption.
    now rewrite Hm.
Qed.
(** * Containers left open *)

Lemma parse_more n m p val e p' :
  parse n p = Return val e p' -> (n <= m)%nat -> parse m p = Return val e p'.
Proof.
  intros H Hm. rewrite <- H. apply (fuel_monotone n m Hm). rewrite H. discriminate.
Qed.

Lemma parseToken_more n m tok lit p val e p' :
  parseToken n tok lit p = Return val e p' -> (n <= m)%nat ->
  parseToken m tok lit p = Return val e p'.
Proof.
  intros H Hm. rewrite <- H. apply (fuel_monotone n m Hm). rewrite H. discriminate.
Qed.

Lemma parseSequence_loop_more n m end_ seq tok lit p val e p' :
  parseSequence_loop n end_ seq tok lit p = Return val e p' -> (n <= m)%nat ->
  parseSequence_loop m end_ seq tok lit p = Return val e p'.
Proof.
  intros H Hm. rewrite <- H. apply (fuel_monotone n m Hm). rewrite H. discriminate.
Qed.

Lemma parseStruct_loop_more n m fields tok lit p val e p' :
  parseStruct_loop n fields tok lit p = Return val e p' -> (n <= m)%nat ->
  parseStruct_loop m fields tok lit p = Return val e p'.
Proof.
  intros H Hm. rewrite <- H. apply (fuel_monotone n m Hm). rewrite H. discriminate.
Qed.

(** * Rendering and parsing back *)

(** Induction on a renderable value, with the property of its members. *)
Lemma Renderable_ind (tbl : rune -> bool) (P : Value -> Prop) :
  P NullValue ->
  (forall i, i = 0 \/ i = 1 -> P (BoolValue i)) ->
  (forall i, 0 <= i < 2 ^ 63 -> P (IntValue i)) ->
  (forall f, float_text f = true -> P (FloatValue f)) ->
  (forall s, string_text tbl s = true -> P (StringValue s)) ->
  (forall s, symbol_text s = true -> P (SymbolValue s)) ->
  (forall seq, Forall (Renderable tbl) seq -> Forall P seq -> P (ListValue seq)) ->
  (forall seq, Forall (Renderable tbl) seq -> Forall P seq -> P (SexpValue seq)) ->
  (forall annotations fields,
     annotations_ok annotations = true ->
     Forall (fun f => field_name (Name f) = true) fields ->
     Forall (fun f => Renderable tbl (Value' f)) fields ->
     Forall (fun f => P (Value' f)) fields ->
     P (set_Annotations (StructValue fields) annotations)) ->
  forall v, Renderable tbl v -> P v.
Proof.
  intros Hnull Hbool Hint Hfloat Hstring Hsymbol Hlist Hsexp Hstruct.
  fix IH 2. intros v H.
  destruct H as [|i Hi|i Hi|f Hf|s Hs|s Hs|seq Hseq|seq Hseq|a fields Ha Hn Hf].
  - exact Hnull.
  - now apply Hbool.
  - now apply Hint.
  - now apply Hfloat.
  - now apply Hstring.
  - now apply Hsymbol.
  - apply Hlist; [exact Hseq|].
    revert seq Hseq. fix IHl 2. intros seq Hseq. destruct Hseq as [|x l Hx Hl].
    + constructor.
    + constructor; [exact (IH x Hx)|exact (IHl l Hl)].
  - apply Hsexp; [exact Hseq|].
    revert seq Hseq. fix IHl 2. intros seq Hseq. destruct Hseq as [|x l Hx Hl].
    + constructor.
    + constructor; [exact (IH x Hx)|exact (IHl l Hl)].
  - apply Hstruct; try assumption.
    clear Hn. revert fields Hf. fix IHl 2. intros fields Hf. destruct Hf as [|x l Hx Hl].
    + constructor.
    + constructor; [exact (IH (Value' x) Hx)|exact (IHl l Hl)].
Qed.
(** ** Integers: [%d] and [ParseInt] *)

Lemma digits_of_uint_range u : Forall (fun d => 0 <= d <= 9) (digits_of_uint u).
Proof. induction u; simpl; constructor; (lia || assumption). Qed.

Lemma digits_value_cons d ds acc :
  digits_value (d :: ds) acc = digits_value ds (acc * 10 + d).
Proof. reflexivity. Qed.

Lemma of_uint_acc_value u : forall acc,
  Zpos (Pos.of_uint_acc u acc) = digits_value (digits_of_uint u) (Zpos acc).
Proof.
  induction u; intro acc; simpl digits_of_uint; [reflexivity|..];
    rewrite digits_value_cons; cbn [Pos.of_uint_acc]; rewrite IHu; f_equal; lia.
Qed.

Lemma of_uint_value u : Z.of_N (Pos.of_uint u) = digits_value (digits_of_uint u) 0.
Proof.
  induction u; simpl digits_of_uint; [reflexivity|..];
    rewrite digits_value_cons; cbn [Pos.of_uint];
    [exact IHu|rewrite N2Z.inj_pos, of_uint_acc_value; reflexivity..].
Qed.

Lemma decimal_digits_value i : 0 <= i -> digits_value (decimal_digits i) 0 = i.
Proof.
  intro H. unfold decimal_digits. rewrite <- of_uint_value.
  change (Pos.of_uint (N.to_uint (Z.to_N i))) with (N.of_uint (N.to_uint (Z.to_N i))).
  rewrite DecimalN.Unsigned.of_to. lia.
Qed.

Lemma decimal_digits_nonempty i : decimal_digits i <> [].
Proof.
  unfold decimal_digits. destruct (Z.to_N i) as [|p]; [discriminate|].
  simpl. pose proof (DecimalPos.Unsigned.to_uint_nonnil p) as H.
  destruct (Pos.to_uint p); [congruence|discriminate..].
Qed.

Lemma digits_value_ge ds : forall acc,
  Forall (fun d => 0 <= d <= 9) ds -> 0 <= acc -> acc <= digits_value ds acc.
Proof.
  induction ds as [|d ds IH]; intros acc H Hacc; [simpl; lia|].
  inversion H; subst. rewrite digits_value_cons.
  specialize (IH (acc * 10 + d) H3 ltac:(lia)). lia.
Qed.

Lemma digit_of_digit_rune d : 0 <= d <= 9 -> digit_of (digit_rune d) = Some d.
Proof.
  intro H. unfold digit_of, digit_rune.
  replace (("0"%rune <=? "0"%rune + d) && ("0"%rune + d <=? "9"%rune)) with true by lia.
  f_equal. lia.
Qed.

Lemma isDigit_digit_rune d : 0 <= d <= 9 -> isDigit (digit_rune d) = true.
Proof. unfold isDigit, digit_rune. lia. Qed.

Lemma ParseUint_loop_digits ds : forall acc,
  Forall (fun d => 0 <= d <= 9) ds -> 0 <= acc ->
  digits_value ds acc <= maxUint64 ->
  ParseUint_loop 10 (map digit_rune ds) acc = Some (digits_value ds acc).
Proof.
  induction ds as [|d ds IH]; intros acc H Hacc Hmax; [reflexivity|].
  inversion H; subst. rewrite digits_value_cons in *.
  pose proof (digits_value_ge ds (acc * 10 + d) H3 ltac:(lia)) as Hge.
  simpl map. cbn [ParseUint_loop]. rewrite digit_of_digit_rune by assumption.
  unfold maxUint64 in *.
  replace (10 <=? d) with false by lia.
  replace ((2 ^ 64 - 1) / 10 + 1 <=? acc) with false
    by (symmetry; apply Z.leb_gt; change ((2 ^ 64 - 1) / 10 + 1) with 1844674407370955162; lia).
  rewrite (Z.mod_small (acc * 10 + d)) by lia.
  replace ((acc * 10 + d <? acc * 10) || (2 ^ 64 - 1 <? acc * 10 + d)) with false by lia.
  apply IH; (assumption || lia).
Qed.

Lemma ParseInt_FormatInt i :
  0 <= i < 2 ^ 63 -> ParseInt (FormatInt i) 10 = Some i.
Proof.
  intro H. unfold FormatInt.
  replace (i <? 0) with false by lia. rewrite Z.abs_eq by lia. cbn [app].
  pose proof (decimal_digits_nonempty i) as Hne.
  pose proof (digits_of_uint_range (N.to_uint (Z.to_N i))) as Hr.
  fold (decimal_digits i) in Hr.
  pose proof (decimal_digits_value i ltac:(lia)) as Hv.
  destruct (decimal_digits i) as [|d ds] eqn:E; [congruence|].
  apply Forall_cons_iff in Hr. destruct Hr as [Hd0 Hds].
  assert (Hr : Forall (fun d => 0 <= d <= 9) (d :: ds)) by now constructor.
  unfold ParseInt. cbn [map].
  assert (Hd : isDigit (digit_rune d) = true) by now apply isDigit_digit_rune.
  replace (digit_rune d =? "+"%rune) with false by (unfold isDigit in Hd; lia).
  replace (digit_rune d =? "-"%rune) with false by (unfold isDigit in Hd; lia).
  unfold ParseUint. change ((10 <? 2) || (36 <? 10)) with false. cbv iota.
  change (digit_rune d :: map digit_rune ds) with (map digit_rune (d :: ds)).
  rewrite ParseUint_loop_digits; try assumption; try lia.
  - rewrite Hv. cbn [negb andb]. replace (2 ^ 63 <=? i) with false by lia. reflexivity.
  - rewrite Hv. unfold maxUint64. lia.
Qed.

(** The text of a nonnegative integer: decimal digits, at least one. *)
Lemma FormatInt_digits i :
  0 <= i ->
  exists d ds, FormatInt i = d :: ds /\ forallb isDigit (d :: ds) = true.
Proof.
  intro H. unfold FormatInt.
  replace (i <? 0) with false by lia. rewrite Z.abs_eq by lia. cbn [app].
  pose proof (decimal_digits_nonempty i) as Hne.
  pose proof (digits_of_uint_range (N.to_uint (Z.to_N i))) as Hr.
  fold (decimal_digits i) in Hr.
  destruct (decimal_digits i) as [|d ds]; [congruence|].
  exists (digit_rune d), (map digit_rune ds). split; [reflexivity|].
  change (digit_rune d :: map digit_rune ds) with (map digit_rune (d :: ds)).
  rewrite forallb_forall. intros x Hx. apply in_map_iff in Hx.
  destruct Hx as [y [<- Hy]]. apply isDigit_digit_rune.
  rewrite Forall_forall in Hr. now apply Hr.
Qed.
(** ** Scanning numbers, quoted texts and punctuation *)

Lemma Scan_fuel_S n s :
  Scan_fuel (S n) s =
  if negb (Token_eqb (lastToken s) ILLEGAL) then
    Some (lastToken s, lastLiteral s, mkScanner (r s) ILLEGAL [])
  else
    let ret (res : Token * str * Reader) :=
      let '(tok, lit, b) := res in
      Some (tok, lit, mkScanner b (lastToken s) (lastLiteral s)) in
    let (ch, b1) := read (r s) in
    if isWhitespace ch then ret (scanWhitespace (unread b1))
    else if isLetter ch then ret (scanIdentifier (unread b1))
    else if ch =? eof then ret (EOF, [], b1)
    else if ch =? "/"%rune then
      let (ch, b2) := read b1 in
      if ch =? "/"%rune then
        Scan_fuel n
          (mkScanner (skipLine (pending b2)) (lastToken s) (lastLiteral s))
      else ret (ILLEGAL, ["/"%rune], unread b2)
    else if ch =? ":"%rune then
      let (ch, b2) := read b1 in
      if ch =? ":"%rune then ret (DOUBLE_COLON, runes "::", b2)
      else ret (COLON, runes ":", unread b2)
    else if ch =? "'"%rune then ret (scanUntil b1 SYMBOL ch)
    else if ch =? dquote then ret (scanUntil b1 STRING ch)
    else if ch =? ","%rune then ret (COMMA, [ch], b1)
    else if ch =? "{"%rune then ret (OPEN_BRACE, [ch], b1)
    else if ch =? "}"%rune then ret (CLOSE_BRACE, [ch], b1)
    else if ch =? "["%rune then ret (OPEN_BRACKET, [ch], b1)
    else if ch =? "]"%rune then ret (CLOSE_BRACKET, [ch], b1)
    else if ch =? "("%rune then ret (OPEN_PAREN, [ch], b1)
    else if ch =? ")"%rune then ret (CLOSE_PAREN, [ch], b1)
    else if isDigit ch then ret (scanNumber b1 ch)
    else ret (ILLEGAL, [ch], b1).
Proof. reflexivity. Qed.

(** [Scan] on an input whose first rune is known. *)
Lemma Scan_cons c t u ll :
  Scan (mkScanner (mkReader (c :: t) u) ILLEGAL ll)
  = match Scan_fuel (S (S (List.length t))) (mkScanner (mkReader (c :: t) u) ILLEGAL ll) with
    | Some res => res
    | None => (ILLEGAL, [], mkScanner (mkReader (c :: t) u) ILLEGAL ll)
    end.
Proof. reflexivity. Qed.

Lemma isDigit_in_digits c : isDigit c = true -> rune_in c (runes "0123456789.") = true.
Proof. unfold isDigit, rune_in. cbn [runes list_ascii_of_string map existsb N_of_ascii Z.of_N]. simpl. lia. Qed.

Lemma scanNumber_loop_app ds : forall rest buf,
  forallb isDigit ds = true -> ends_number rest = true ->
  scanNumber_loop (runes "0123456789.") (ds ++ rest) buf = (buf ++ ds, mkReader rest None).
Proof.
  induction ds as [|d ds IH]; intros rest buf Hds Hrest.
  - rewrite app_nil_r. destruct rest as [|c rest]; [reflexivity|].
    cbn [ends_number] in Hrest. cbn [app scanNumber_loop].
    destruct (rune_in c (runes "0123456789.")); [discriminate|].
    destruct (c =? eof); [discriminate|]. reflexivity.
  - cbn [forallb] in Hds. apply andb_true_iff in Hds. destruct Hds as [Hd Hds].
    cbn [app scanNumber_loop]. rewrite (isDigit_in_digits d Hd).
    replace (d =? eof) with false by (unfold isDigit, eof in *; lia).
    rewrite IH by assumption. now rewrite <- app_assoc.
Qed.

Lemma Scan_number d ds rest u ll :
  forallb isDigit (d :: ds) = true -> ends_number rest = true ->
  Scan (mkScanner (mkReader ((d :: ds) ++ rest) u) ILLEGAL ll)
  = (NUMBER, d :: ds, mkScanner (mkReader rest None) ILLEGAL ll).
Proof.
  intros Hds Hrest. cbn [forallb] in Hds.
  apply andb_true_iff in Hds. destruct Hds as [Hd Hds].
  cbn [app]. rewrite Scan_cons, Scan_fuel_S.
  cbn [lastToken lastLiteral r Token_eqb negb read ReadRune pending].
  assert (Hr : 48 <= d <= 57) by (unfold isDigit in Hd; lia).
  unfold dquote, eof. decide_tests d. rewrite Hd.
  unfold scanNumber.
  destruct ds as [|d1 ds].
  - destruct rest as [|c rest].
    + reflexivity.
    + cbn [app read ReadRune pending]. cbn [ends_number] in Hrest.
      destruct (rune_in c (runes "0123456789.")) eqn:E1; [discriminate|].
      unfold eof in *.
      destruct (c =? 0) eqn:E2; [discriminate|].
      destruct (c =? "x"%rune) eqn:E3; [discriminate|].
      destruct (c =? "b"%rune) eqn:E4; [discriminate|].
      cbn [negb].
      assert (E : scanNumber_loop (runes "0123456789.") (c :: rest) [d]
                  = ([d], mkReader (c :: rest) None)).
      { cbn [scanNumber_loop]. unfold eof. now rewrite E1, E2. }
      destruct (d =? "0"%rune); cbn [unread UnreadRune unreadable pending];
        rewrite E; reflexivity.
  - cbn [forallb] in Hds. apply andb_true_iff in Hds. destruct Hds as [Hd1 Hds].
    assert (Hr1 : 48 <= d1 <= 57) by (unfold isDigit in Hd1; lia).
    cbn [app read ReadRune pending]. unfold eof. decide_tests d1. cbn [negb].
    assert (E : scanNumber_loop (runes "0123456789.") (d1 :: ds ++ rest) [d]
                = (d :: d1 :: ds, mkReader rest None)).
    { change (d1 :: ds ++ rest) with ((d1 :: ds) ++ rest).
      rewrite scanNumber_loop_app; [reflexivity| |assumption].
      cbn [forallb]. now rewrite Hd1, Hds. }
    destruct (d =? "0"%rune); cbn [unread UnreadRune unreadable pending];
      rewrite E; reflexivity.
Qed.
Lemma scanUntil_loop_symbol s : forall rest buf,
  forallb symbol_rune s = true ->
  scanUntil_loop SYMBOL "'"%rune (s ++ "'"%rune :: rest) Plain buf
  = (SYMBOL, buf ++ s, mkReader rest (Some "'"%rune)).
Proof.
  induction s as [|c s IH]; intros rest buf Hs.
  - rewrite app_nil_r. reflexivity.
  - cbn [forallb] in Hs. apply andb_true_iff in Hs. destruct Hs as [Hc Hs].
    unfold symbol_rune in Hc.
    apply andb_true_iff in Hc. destruct Hc as [Hc H3].
    apply andb_true_iff in Hc. destruct Hc as [H1 H2].
    apply negb_true_iff in H1, H2, H3.
    cbn [app scanUntil_loop]. rewrite H1, H2, H3.
    rewrite IH by assumption. now rewrite <- app_assoc.
Qed.

Lemma Scan_quoted_symbol c s rest u ll :
  forallb symbol_rune s = true ->
  Scan (mkScanner (mkReader (symbolToString (c :: s) ++ rest) u) ILLEGAL ll)
  = (SYMBOL, c :: s, mkScanner (mkReader rest (Some "'"%rune)) ILLEGAL ll).
Proof.
  intro Hs. unfold symbolToString. cbn [app]. rewrite Scan_cons, Scan_fuel_S.
  cbn [lastToken lastLiteral r Token_eqb negb read ReadRune pending].
  change (isWhitespace "'"%rune) with false. change (isLetter "'"%rune) with false.
  cbv iota. change ("'"%rune =? eof) with false. cbv iota.
  cbn [Z.eqb Pos.eqb]. unfold scanUntil. cbn [read ReadRune pending].
  rewrite <- app_assoc. cbn [app].
  rewrite scanUntil_loop_symbol by assumption. reflexivity.
Qed.
Section ScanQuote.

Variable tbl : rune -> bool.

Lemma IsPrint_bounds c : IsPrint tbl c = true -> 32 <= c.
Proof.
  unfold IsPrint. intro H. destruct (Z.lt_ge_cases c 32) as [Hlt|]; [exfalso|lia].
  replace (c <=? 255) with true in H by lia.
  replace (32 <=? c) with false in H by lia.
  replace (161 <=? c) with false in H by lia.
  discriminate H.
Qed.

(** The runes [Quote] writes for a rune of a String, read again. *)
Lemma scanUntil_loop_escaped c : forall l buf,
  string_rune tbl c = true ->
  scanUntil_loop STRING dquote (appendEscapedRune tbl c ++ l) Plain buf
  = scanUntil_loop STRING dquote l Plain (buf ++ [c]).
Proof.
  intros l buf Hc. unfold string_rune in Hc.
  apply andb_true_iff in Hc. destruct Hc as [Hb Hc]. apply negb_true_iff in Hb.
  unfold appendEscapedRune.
  destruct (c =? dquote) eqn:Eq.
  - apply Z.eqb_eq in Eq. subst c. reflexivity.
  - rewrite Hb. cbn [orb].
    destruct (IsPrint tbl c) eqn:Ep.
    + pose proof (IsPrint_bounds c Ep) as Hge.
      cbn [app scanUntil_loop]. rewrite Eq, Hb.
      replace (c =? eof) with false by (unfold eof; lia). reflexivity.
    + cbn [orb] in Hc. unfold tab, newline, carriage_return in *.
      assert (Hcases : c = 9 \/ c = 10 \/ c = 13) by lia.
      destruct Hcases as [-> | [-> | ->]]; reflexivity.
Qed.

Lemma scanUntil_loop_string s : forall rest buf,
  forallb (string_rune tbl) s = true ->
  scanUntil_loop STRING dquote (flat_map (appendEscapedRune tbl) s ++ dquote :: rest)
    Plain buf
  = (STRING, buf ++ s, mkReader rest (Some dquote)).
Proof.
  induction s as [|c s IH]; intros rest buf Hs.
  - rewrite app_nil_r. reflexivity.
  - cbn [forallb] in Hs. apply andb_true_iff in Hs. destruct Hs as [Hc Hs].
    cbn [flat_map]. rewrite <- app_assoc, scanUntil_loop_escaped by assumption.
    rewrite IH by assumption. now rewrite <- app_assoc.
Qed.

Lemma Scan_quoted_string s rest u ll :
  string_text tbl s = true ->
  Scan (mkScanner (mkReader (Quote tbl s ++ rest) u) ILLEGAL ll)
  = (STRING, s, mkScanner (mkReader rest (Some dquote)) ILLEGAL ll).
Proof.
  intro Hs. destruct s as [|c s]; [discriminate|].
  cbn [string_text] in Hs. apply andb_true_iff in Hs. destruct Hs as [Hc Hs].
  unfold string_first in Hc.
  apply andb_true_iff in Hc. destruct Hc as [Hc Hb].
  apply andb_true_iff in Hc. destruct Hc as [Hp Hq].
  apply negb_true_iff in Hb, Hq.
  unfold Quote. cbn [app flat_map]. rewrite Scan_cons, Scan_fuel_S.
  cbn [lastToken lastLiteral r Token_eqb negb read ReadRune pending].
  change (isWhitespace dquote) with false. change (isLetter dquote) with false.
  cbv iota. change (dquote =? eof) with false. cbv iota.
  change (dquote =? "/"%rune) with false. change (dquote =? ":"%rune) with false.
  change (dquote =? "'"%rune) with false. cbv iota. rewrite Z.eqb_refl.
  unfold scanUntil, appendEscapedRune at 1. rewrite Hq, Hb, Hp. cbn [orb].
  rewrite <- !app_assoc. cbn [app read ReadRune pending].
  rewrite scanUntil_loop_string by assumption. reflexivity.
Qed.

End ScanQuote.
Lemma Scan_punctuation c tok rest u ll :
  punctuation c = Some tok ->
  Scan (mkScanner (mkReader (c :: rest) u) ILLEGAL ll)
  = (tok, [c], mkScanner (mkReader rest (Some c)) ILLEGAL ll).
Proof.
  unfold punctuation. intro H.
  repeat match type of H with
         | (if ?c =? ?k then _ else _) = _ =>
             destruct (c =? k) eqn:E;
             [apply Z.eqb_eq in E; subst c; inversion H; subst tok; reflexivity|clear E]
         end.
  discriminate H.
Qed.

Lemma scanIgnoreWhitespace_punctuation c tok rest u bt bl :
  punctuation c = Some tok ->
  scanIgnoreWhitespace (parser_at (c :: rest) u bt bl)
  = (tok, [c], parser_at rest (Some c) tok [c]).
Proof.
  intro H. apply scanIgnoreWhitespace_token; [now apply Scan_punctuation|].
  unfold punctuation in H.
  repeat match type of H with
         | (if ?c then _ else _) = _ => destruct c; [inversion H; discriminate|]
         end.
  discriminate H.
Qed.

Lemma scanIgnoreWhitespace_colon rest u bt bl :
  scanIgnoreWhitespace (parser_at (runes ": " ++ rest) u bt bl)
  = (COLON, runes ":", parser_at (" "%rune :: rest) None COLON (runes ":")).
Proof. apply scanIgnoreWhitespace_token; [reflexivity|discriminate]. Qed.

Lemma value_token_not tok :
  value_token tok = true ->
  tok <> WHITESPACE /\ tok <> DOUBLE_COLON /\ tok <> EOF /\ tok <> COMMA
  /\ tok <> CLOSE_BRACE /\ tok <> CLOSE_BRACKET /\ tok <> CLOSE_PAREN.
Proof. destruct tok; simpl; intro H; try discriminate H; repeat split; discriminate. Qed.

Lemma scanIgnoreWhitespace_whitespace t u bt bl lit t' u' tok2 lit2 t2 u2 :
  Scan (mkScanner (mkReader t u) ILLEGAL [])
  = (WHITESPACE, lit, mkScanner (mkReader t' u') ILLEGAL []) ->
  Scan (mkScanner (mkReader t' u') ILLEGAL [])
  = (tok2, lit2, mkScanner (mkReader t2 u2) ILLEGAL []) ->
  scanIgnoreWhitespace (parser_at t u bt bl) = (tok2, lit2, parser_at t2 u2 tok2 lit2).
Proof.
  intros H H2. unfold scanIgnoreWhitespace, scan, parser_at. simpl. rewrite H.
  simpl. rewrite H2. reflexivity.
Qed.

(** A space before a value is skipped. *)
Lemma scanIgnoreWhitespace_space t u bt bl :
  begins_value t ->
  scanIgnoreWhitespace (parser_at (" "%rune :: t) u bt bl)
  = scanIgnoreWhitespace (parser_at t None ILLEGAL []).
Proof.
  intros (c & t0 & tok & lit & t' & u' & -> & Hws & Heof & Hscan & Htok).
  apply value_token_not in Htok. destruct Htok as [Hw _].
  rewrite (scanIgnoreWhitespace_token _ None ILLEGAL [] _ _ _ _ Hscan Hw).
  apply (scanIgnoreWhitespace_whitespace _ _ _ _ [" "%rune] (c :: t0) None);
    [|exact Hscan].
  rewrite Scan_cons, Scan_fuel_S.
  cbn [lastToken lastLiteral r Token_eqb negb read ReadRune pending].
  change (isWhitespace " "%rune) with true. cbv iota.
  unfold scanWhitespace. cbn [unread UnreadRune unreadable pending read ReadRune].
  cbn [scanWhitespace_loop]. apply Z.eqb_neq in Heof. rewrite Heof, Hws. reflexivity.
Qed.

Lemma terminated_ends_identifier rest : terminated rest = true -> ends_identifier rest = true.
Proof.
  destruct rest as [|c rest]; [reflexivity|]. unfold terminated, ends_identifier, rune_in.
  cbn [runes list_ascii_of_string map existsb N_of_ascii Z.of_N]. simpl.
  unfold ident_char, isLetter, isDigit, eof. lia.
Qed.

Lemma terminated_ends_number rest : terminated rest = true -> ends_number rest = true.
Proof.
  destruct rest as [|c rest]; [reflexivity|]. unfold terminated, ends_number, rune_in.
  cbn [runes list_ascii_of_string map existsb N_of_ascii Z.of_N]. simpl.
  unfold eof. lia.
Qed.

Lemma stops_nil : stops [].
Proof.
  split; [reflexivity|]. exists EOF, [], [], None.
  split; [reflexivity|]. split; discriminate.
Qed.

Lemma stops_punctuation c tok rest :
  punctuation c = Some tok -> tok <> OPEN_BRACE -> tok <> OPEN_BRACKET ->
  tok <> OPEN_PAREN -> stops (c :: rest).
Proof.
  intros H H1 H2 H3. split.
  - unfold punctuation in H. unfold terminated, rune_in.
    cbn [runes list_ascii_of_string map existsb N_of_ascii Z.of_N]. simpl.
    repeat match type of H with
           | (if ?c =? ?k then _ else _) = _ =>
               destruct (c =? k) eqn:E;
               [apply Z.eqb_eq in E; subst c; inversion H; subst tok;
                (reflexivity || congruence)|clear E]
           end.
    discriminate H.
  - exists tok, [c], rest, (Some c).
    split; [now apply scanIgnoreWhitespace_punctuation|].
    unfold punctuation in H.
    repeat match type of H with
           | (if ?c then _ else _) = _ =>
               destruct c; [inversion H; split; discriminate|]
           end.
    discriminate H.
Qed.

Lemma stops_space t : begins_value t -> stops (" "%rune :: t).
Proof.
  intro H. split; [reflexivity|].
  rewrite scanIgnoreWhitespace_space by assumption.
  destruct H as (c & t0 & tok & lit & t' & u' & -> & Hws & Heof & Hscan & Htok).
  apply value_token_not in Htok. destruct Htok as (Hw & Hd & _).
  exists tok, lit, t', u'. split; [|now split].
  now apply scanIgnoreWhitespace_token.
Qed.
(** ** The form of the rendered text *)

Lemma sequenceToString_eq (S : Value -> str) values o d c :
  sequenceToString S values o d c = o :: items_text (separator d) S values ++ [c].
Proof.
  assert (Hloop : forall items,
    (fix loop (items : list Value) (first : bool) : str :=
       match items with
       | [] => []
       | item :: items' =>
           (if first then []
            else (if negb (d =? 0) then [d] else []) ++ [" "%rune])
           ++ S item ++ loop items' false
       end) items false
    = flat_map (fun y => separator d ++ S y) items).
  { induction items as [|x items IH]; [reflexivity|].
    cbn [flat_map]. rewrite <- IH. unfold separator. now rewrite <- !app_assoc. }
  destruct values as [|v [|v2 values]].
  - reflexivity.
  - unfold sequenceToString, items_text. cbn [flat_map app]. now rewrite app_nil_r.
  - unfold sequenceToString, items_text. rewrite Hloop. cbn [app flat_map].
    unfold separator. now rewrite <- !app_assoc.
Qed.

Lemma structToString_eq (S : Value -> str) fields :
  structToString S fields
  = "{"%rune :: items_text (runes ", ") (field_text S) fields ++ ["}"%rune].
Proof.
  assert (Hloop : forall items,
    (fix loop (items : list Field) (first : bool) : str :=
       match items with
       | [] => []
       | item :: items' =>
           (if first then [] else runes ", ")
           ++ Name item ++ runes ": " ++ S (Value' item) ++ loop items' false
       end) items false
    = flat_map (fun y => runes ", " ++ field_text S y) items).
  { induction items as [|x items IH]; [reflexivity|].
    cbn [flat_map]. rewrite <- IH. unfold field_text. now rewrite <- !app_assoc. }
  destruct fields as [|f [|f2 fields]].
  - reflexivity.
  - unfold structToString, items_text, field_text. cbn [flat_map app].
    now rewrite app_nil_r, <- !app_assoc.
  - unfold structToString, items_text. rewrite Hloop. cbn [app flat_map].
    unfold field_text. now rewrite <- !app_assoc.
Qed.

Lemma begins_with_punctuation c tok t :
  punctuation c = Some tok -> value_token tok = true -> begins_value (c :: t).
Proof.
  intros Hp Hv. exists c, t, tok, [c], t, (Some c).
  split; [reflexivity|].
  assert (Hc : isWhitespace c = false /\ c <> eof).
  { unfold punctuation in Hp.
    repeat match type of Hp with
           | (if ?c =? ?k then _ else _) = _ =>
               destruct (c =? k) eqn:E;
               [apply Z.eqb_eq in E; subst c; split; [reflexivity|discriminate]|clear E]
           end.
    discriminate Hp. }
  destruct Hc. repeat split; try assumption. now apply Scan_punctuation.
Qed.

Lemma begins_with_identifier a rest :
  is_identifier a = true -> ends_identifier rest = true -> begins_value (a ++ rest).
Proof.
  intros Ha Hrest. destruct a as [|c a]; [discriminate|].
  exists c, (a ++ rest), SYMBOL, (c :: a), rest, None.
  pose proof Ha as Ha'. cbn [is_identifier] in Ha'.
  apply andb_true_iff in Ha'. destruct Ha' as [Hc _].
  split; [reflexivity|]. split; [now apply isLetter_not_whitespace|].
  split; [unfold isLetter, eof in *; lia|].
  split; [|reflexivity]. now apply (Scan_identifier (c :: a)).
Qed.


(** ** Literals of digits and points before a text *)

Lemma scanNumber_loop_rest digits l : forall rest buf,
  rune_in eof digits = false ->
  forallb (fun c => rune_in c digits) l = true ->
  match rest with
  | [] => True
  | c :: _ => rune_in c digits = false /\ (c =? eof) = false
  end ->
  scanNumber_loop digits (l ++ rest) buf = (buf ++ l, mkReader rest None).
Proof.
  induction l as [|c l IH]; intros rest buf H0 Hl Hrest.
  - rewrite app_nil_r. destruct rest as [|c rest]; [reflexivity|].
    destruct Hrest as [Hc Hc0]. cbn [app scanNumber_loop]. now rewrite Hc0, Hc.
  - cbn [forallb] in Hl. apply andb_prop in Hl. destruct Hl as [Hc Hl].
    assert (Hc0 : (c =? eof) = false).
    { apply Z.eqb_neq. intros ->. congruence. }
    cbn [app scanNumber_loop]. rewrite Hc0, Hc, (IH _ _ H0 Hl Hrest).
    now rewrite <- app_assoc.
Qed.

Lemma ends_number_rest rest :
  ends_number rest = true ->
  match rest with
  | [] => True
  | c :: _ => rune_in c (runes "0123456789.") = false /\ (c =? eof) = false
  end.
Proof.
  destruct rest as [|c rest]; [trivial|]. cbn [ends_number]. intros H.
  apply andb_prop in H. destruct H as [H _].
  apply andb_prop in H. destruct H as [H _].
  apply andb_prop in H. destruct H as [H1 H2].
  apply negb_true_iff in H1, H2. now split.
Qed.

(** A digit, then digits and points, before a text that ends a number:
    one NUMBER token. *)
Lemma Scan_decimal d l rest u ll :
  isDigit d = true ->
  forallb (fun c => rune_in c (runes "0123456789.")) l = true ->
  ends_number rest = true ->
  Scan (mkScanner (mkReader (d :: l ++ rest) u) ILLEGAL ll)
  = (NUMBER, d :: l, mkScanner (mkReader rest None) ILLEGAL ll).
Proof.
  intros Hd Hl Hrest.
  rewrite Scan_cons, Scan_fuel_S.
  cbn [lastToken lastLiteral r Token_eqb negb read ReadRune pending].
  assert (Hr : 48 <= d <= 57) by (unfold isDigit in Hd; lia).
  unfold dquote, eof. decide_tests d. rewrite Hd.
  unfold scanNumber.
  assert (E : scanNumber_loop (runes "0123456789.") (l ++ rest) [d]
              = (d :: l, mkReader rest None)).
  { apply (scanNumber_loop_rest (runes "0123456789.") l rest [d]);
      [reflexivity|exact Hl|now apply ends_number_rest]. }
  destruct (l ++ rest) as [|c t] eqn:Et.
  - apply app_eq_nil in Et. destruct Et as [-> ->]. reflexivity.
  - assert (Hc : (c =? eof) = false /\ (c =? "x"%rune) = false /\ (c =? "b"%rune) = false).
    { destruct l as [|c' l].
      - cbn [app] in Et. subst rest. cbn [ends_number] in Hrest.
        apply andb_prop in Hrest. destruct Hrest as [Hrest H3].
        apply andb_prop in Hrest. destruct Hrest as [Hrest H2].
        apply andb_prop in Hrest. destruct Hrest as [_ H1].
        apply negb_true_iff in H1, H2, H3. now repeat split.
      - cbn [app] in Et. inversion Et; subst c' t.
        cbn [forallb] in Hl. apply andb_prop in Hl. destruct Hl as [Hc _].
        repeat split; apply Z.eqb_neq; intros ->; discriminate Hc. }
    destruct Hc as (Hc0 & Hx & Hb).
    cbn [read ReadRune pending]. unfold eof in *. rewrite Hc0, Hx, Hb. cbn [negb].
    destruct (d =? "0"%rune); cbn [unread UnreadRune unreadable pending];
      rewrite E; reflexivity.
Qed.

Lemma digits_not_prefixed d l :
  isDigit d = true ->
  forallb (fun c => rune_in c (runes "0123456789.")) l = true ->
  HasPrefix (d :: l) (runes "0x") = false /\ HasPrefix (d :: l) (runes "0b") = false.
Proof.
  intros Hd Hl.
  change (runes "0x") with ["0"%rune; "x"%rune].
  change (runes "0b") with ["0"%rune; "b"%rune].
  destruct l as [|c l]; cbn [HasPrefix]; [split; apply andb_false_r|].
  cbn [forallb] in Hl. apply andb_prop in Hl. destruct Hl as [Hc _].
  assert (Hx : ("x"%rune =? c) = false).
  { apply Z.eqb_neq. intros <-. discriminate Hc. }
  assert (Hb : ("b"%rune =? c) = false).
  { apply Z.eqb_neq. intros <-. discriminate Hc. }
  rewrite Hx, Hb. cbn [andb]. split; apply andb_false_r.
Qed.


Lemma float64_eqb_eq f g : float64_eqb f g = true -> f = g.
Proof.
  destruct f as [a|a| |a m e], g as [b|b| |b m' e']; cbn [float64_eqb];
    try discriminate; try reflexivity.
  - intros H. apply Bool.eqb_prop in H. now subst.
  - intros H. apply Bool.eqb_prop in H. now subst.
  - intros H. apply andb_prop in H. destruct H as [H He].
    apply andb_prop in H. destruct H as [Ha Hm].
    apply Bool.eqb_prop in Ha. apply Pos.eqb_eq in Hm. apply Z.eqb_eq in He.
    now subst.
Qed.

(** The rendering of a Float with [float_text]. *)
Lemma float_text_literal f :
  float_text f = true ->
  exists d l,
    FormatFloat_g f = d :: l /\ isDigit d = true
    /\ forallb (fun c => rune_in c (runes "0123456789.")) l = true
    /\ rune_in "."%rune l = true /\ ParseFloat (d :: l) = Some f.
Proof.
  unfold float_text. destruct (FormatFloat_g f) as [|d l]; [discriminate|].
  intros H. apply andb_prop in H. destruct H as [H Hp].
  apply andb_prop in H. destruct H as [H Hdot].
  apply andb_prop in H. destruct H as [Hd Hl].
  exists d, l. repeat split; try assumption.
  destruct (ParseFloat (d :: l)) as [g|]; [|discriminate].
  now rewrite (float64_eqb_eq g f Hp).
Qed.

Lemma NUMBER_value_real d l f p :
  isDigit d = true ->
  forallb (fun c => rune_in c (runes "0123456789.")) l = true ->
  rune_in "."%rune l = true -> ParseFloat (d :: l) = Some f ->
  NUMBER_value (d :: l) p = Return (Some (FloatValue f)) None p.
Proof.
  intros Hd Hl Hdot Hf. unfold NUMBER_value.
  assert (E : rune_in "."%rune (d :: l) = true).
  { unfold rune_in in *. cbn [existsb]. rewrite Hdot. apply orb_true_r. }
  rewrite E. destruct (digits_not_prefixed d l Hd Hl) as [-> ->].
  cbn [negb andb]. now rewrite Hf.
Qed.

Lemma real_begins_value d l rest :
  isDigit d = true ->
  forallb (fun c => rune_in c (runes "0123456789.")) l = true ->
  terminated rest = true -> begins_value ((d :: l) ++ rest).
Proof.
  intros Hd Hl Hrest.
  exists d, (l ++ rest), NUMBER, (d :: l), rest, None.
  split; [reflexivity|].
  split; [unfold isDigit, isWhitespace, tab, newline in *; lia|].
  split; [unfold isDigit, eof in *; lia|].
  split; [|reflexivity].
  apply Scan_decimal; [assumption..|now apply terminated_ends_number].
Qed.

Section BeginsValue.

Variable tbl : rune -> bool.

Lemma String_begins_value v rest :
  Renderable tbl v -> terminated rest = true -> begins_value (String tbl v ++ rest).
Proof.
  intros H Hrest.
  pose proof (terminated_ends_identifier rest Hrest) as Hid.
  pose proof (terminated_ends_number rest Hrest) as Hnum.
  destruct H as [|i Hi|i Hi|f Hf|s Hs|s Hs|seq Hseq|seq Hseq|a fields Ha Hn Hf].
  - apply (begins_with_identifier (runes "null")); [reflexivity|assumption].
  - destruct Hi as [-> | ->].
    + apply (begins_with_identifier (runes "false")); [reflexivity|assumption].
    + apply (begins_with_identifier (runes "true")); [reflexivity|assumption].
  - cbn [String IntValue Type' Int].
    destruct (FormatInt_digits i (proj1 Hi)) as (d & ds & -> & Hds).
    exists d, (ds ++ rest), NUMBER, (d :: ds), rest, None.
    pose proof Hds as Hds'. cbn [forallb] in Hds'.
    apply andb_true_iff in Hds'. destruct Hds' as [Hd _].
    split; [reflexivity|].
    split; [unfold isDigit, isWhitespace, tab, newline in *; lia|].
    split; [unfold isDigit, eof in *; lia|].
    split; [|reflexivity]. now apply Scan_number.
  - cbn [String FloatValue Type' Float].
    destruct (float_text_literal f Hf) as (d & l & -> & Hd & Hl & _).
    now apply real_begins_value.
  - cbn [String StringValue Type' Text].
    exists dquote, (flat_map (appendEscapedRune tbl) s ++ [dquote] ++ rest),
      STRING, s, rest, (Some dquote).
    split; [unfold Quote; now rewrite <- !app_assoc|].
    split; [reflexivity|]. split; [discriminate|].
    split; [|reflexivity]. now apply Scan_quoted_string.
  - cbn [String SymbolValue Type' Text].
    destruct s as [|c s]; [discriminate|].
    cbn [symbol_text] in Hs. apply andb_true_iff in Hs. destruct Hs as [Hs _].
    exists "'"%rune, ((c :: s) ++ ["'"%rune] ++ rest), SYMBOL, (c :: s), rest, (Some "'"%rune).
    split; [unfold symbolToString; now rewrite <- !app_assoc|].
    split; [reflexivity|]. split; [discriminate|].
    split; [|reflexivity]. now apply Scan_quoted_symbol.
  - cbn [String ListValue Type' Sequence]. rewrite sequenceToString_eq.
    now apply (begins_with_punctuation "["%rune OPEN_BRACKET).
  - cbn [String SexpValue Type' Sequence]. rewrite sequenceToString_eq.
    now apply (begins_with_punctuation "("%rune OPEN_PAREN).
  - cbn [String set_Annotations StructValue Type' Struct]. rewrite structToString_eq.
    unfold annotate. cbn [Annotations].
    destruct a as [|a [|a2 more]]; [| |discriminate].
    + now apply (begins_with_punctuation "{"%rune OPEN_BRACE).
    + cbn [flat_map]. rewrite app_nil_r, <- !app_assoc.
      apply begins_with_identifier; [exact Ha|reflexivity].
Qed.

End BeginsValue.
(** ** Parsing the tokens of a rendered value *)

Lemma parseSequence_from_more n m end_ seq p val e p' :
  parseSequence_from n end_ seq p = Return val e p' -> (n <= m)%nat ->
  parseSequence_from m end_ seq p = Return val e p'.
Proof.
  unfold parseSequence_from. destruct (scanIgnoreWhitespace p) as [[tok lit] p1].
  apply parseSequence_loop_more.
Qed.

Lemma parseStruct_from_more n m fields p val e p' :
  parseStruct_from n fields p = Return val e p' -> (n <= m)%nat ->
  parseStruct_from m fields p = Return val e p'.
Proof.
  unfold parseStruct_from. destruct (scanIgnoreWhitespace p) as [[tok lit] p1].
  apply parseStruct_loop_more.
Qed.

Lemma follows_unscan t u tok lit :
  tok <> WHITESPACE ->
  scanIgnoreWhitespace (unscan (parser_at t u tok lit)) = (tok, lit, parser_at t u tok lit).
Proof.
  intro H. unfold scanIgnoreWhitespace, scan, unscan, parser_at. simpl.
  apply Token_eqb_neq in H. now rewrite H.
Qed.

(** A SYMBOL token that no [::] follows. *)
Lemma parseToken_SYMBOL n lit rest u bt bl :
  (exists tok lit' t' u',
     scanIgnoreWhitespace (parser_at rest None ILLEGAL [])
     = (tok, lit', parser_at t' u' tok lit')
     /\ tok <> DOUBLE_COLON /\ tok <> WHITESPACE) ->
  exists p',
    parseToken (S n) SYMBOL lit (parser_at rest u bt bl)
    = Return (Some (symbol_value lit)) None p'
    /\ follows p' rest.
Proof.
  intros (tok & lit' & t' & u' & E & Hd & Hw).
  exists (unscan (parser_at t' u' tok lit')). split.
  - rewrite parseToken_S, scanIgnoreWhitespace_parser_at, E.
    apply Token_eqb_neq in Hd. rewrite Hd. unfold symbol_value.
    destruct (str_eqb lit (runes "true")); [reflexivity|].
    destruct (str_eqb lit (runes "false")); [reflexivity|].
    destruct (str_eqb lit (runes "null")); reflexivity.
  - unfold follows. rewrite E. now apply follows_unscan.
Qed.

Lemma symbol_value_not_keyword s : is_keyword s = false -> symbol_value s = SymbolValue s.
Proof.
  unfold is_keyword, symbol_value. intro H.
  apply orb_false_iff in H. destruct H as [H H3].
  apply orb_false_iff in H. destruct H as [H1 H2].
  now rewrite H1, H2, H3.
Qed.

Lemma digits_no_prefix lit :
  forallb isDigit lit = true ->
  rune_in "."%rune lit = false
  /\ HasPrefix lit (runes "0x") = false /\ HasPrefix lit (runes "0b") = false.
Proof.
  intro H. split.
  - unfold rune_in. induction lit as [|c lit IH]; [reflexivity|].
    cbn [forallb existsb] in *. apply andb_true_iff in H. destruct H as [Hc H].
    rewrite IH by assumption. unfold isDigit in Hc.
    replace ("."%rune =? c) with false by lia. reflexivity.
  - change (runes "0x") with [48; 120]. change (runes "0b") with [48; 98].
    destruct lit as [|c [|c2 lit]]; cbn [HasPrefix].
    + split; reflexivity.
    + split; apply andb_false_r.
    + cbn [forallb] in H. apply andb_true_iff in H. destruct H as [_ H].
      apply andb_true_iff in H. destruct H as [Hc2 _]. unfold isDigit in Hc2.
      replace (120 =? c2) with false by lia.
      replace (98 =? c2) with false by lia.
      split; apply andb_false_r.
Qed.

Lemma NUMBER_value_FormatInt i p :
  0 <= i < 2 ^ 63 -> NUMBER_value (FormatInt i) p = Return (Some (IntValue i)) None p.
Proof.
  intro H. unfold NUMBER_value.
  destruct (FormatInt_digits i (proj1 H)) as (d & ds & E & Hds).
  rewrite <- E in Hds. destruct (digits_no_prefix _ Hds) as (H1 & H2 & H3).
  rewrite H1, H2, H3. now rewrite ParseInt_FormatInt.
Qed.

Lemma parse_of_token n p t tok lit p1 :
  follows p t ->
  scanIgnoreWhitespace (parser_at t None ILLEGAL []) = (tok, lit, p1) ->
  parse (S n) p = parseToken n tok lit p1.
Proof. intros H E. rewrite parse_S, H, E. reflexivity. Qed.

Lemma stops_terminated rest : stops rest -> terminated rest = true.
Proof. now intros [H _]. Qed.
(** ** Sequences *)

Lemma sequence_end end_ c seq0 p rest :
  punctuation c = Some end_ -> end_ = CLOSE_BRACKET \/ end_ = CLOSE_PAREN ->
  follows p (c :: rest) ->
  exists p',
    parseSequence_from 1 end_ seq0 p = Return (Some (sequence_value end_ seq0)) None p'
    /\ follows p' rest.
Proof.
  intros Hc Hend H. exists (parser_at rest (Some c) end_ [c]).
  split; [|apply follows_parser_at].
  unfold parseSequence_from. rewrite H, (scanIgnoreWhitespace_punctuation c end_) by assumption.
  rewrite parseSequence_loop_S. destruct Hend as [-> | ->]; reflexivity.
Qed.

Lemma sequence_element end_ seq0 p t k x p2 m val e p' :
  follows p t -> begins_value t ->
  parse k p = Return (Some x) None p2 ->
  parseSequence_from m end_ (seq0 ++ [x]) p2 = Return val e p' ->
  exists n, parseSequence_from n end_ seq0 p = Return val e p'.
Proof.
  intros H (c & t0 & tok & lit & t' & u' & -> & _ & _ & Hscan & Htok) Hx Hm.
  destruct (value_token_not tok Htok) as (Hw & _ & Heof & _ & _ & Hb & Hp).
  pose proof (scanIgnoreWhitespace_token _ None ILLEGAL [] _ _ _ _ Hscan Hw) as E.
  destruct k as [|k]; [discriminate|].
  rewrite (parse_of_token _ _ _ _ _ _ H E) in Hx.
  exists (S (Nat.max k m)).
  unfold parseSequence_from. rewrite H, E, parseSequence_loop_S.
  apply Token_eqb_neq in Heof, Hb, Hp. rewrite Heof, Hb, Hp. cbn [orb].
  rewrite (parseToken_more _ _ _ _ _ _ _ _ Hx) by lia.
  apply (parseSequence_from_more _ _ _ _ _ _ _ _ Hm). lia.
Qed.

Lemma sequence_comma end_ seq0 p t m val e p' :
  follows p (","%rune :: t) ->
  parseSequence_from m end_ seq0 (parser_at t (Some ","%rune) COMMA [","%rune])
  = Return val e p' ->
  exists n, parseSequence_from n end_ seq0 p = Return val e p'.
Proof.
  intros H Hm. exists (S (S m)).
  unfold parseSequence_from at 1.
  rewrite H, (scanIgnoreWhitespace_punctuation ","%rune COMMA) by reflexivity.
  rewrite parseSequence_loop_S. cbn [Token_eqb orb]. rewrite parseToken_S.
  apply (parseSequence_from_more _ _ _ _ _ _ _ _ Hm). lia.
Qed.

Section RenderedSequences.

Variable tbl : rune -> bool.


Lemma terminated_tail_text delim close end_ seq rest :
  sequence_kind delim close end_ ->
  terminated (tail_text (separator delim) (String tbl) seq close rest) = true.
Proof.
  intros [(-> & -> & _) | (-> & -> & _)]; destruct seq; reflexivity.
Qed.

Lemma stops_tail_text delim close end_ seq rest :
  sequence_kind delim close end_ -> Forall (Renderable tbl) seq ->
  stops (tail_text (separator delim) (String tbl) seq close rest).
Proof.
  intros Hk Hseq. destruct seq as [|x seq].
  - destruct Hk as [(_ & -> & ->) | (_ & -> & ->)];
      eapply stops_punctuation; (reflexivity || discriminate).
  - apply Forall_cons_iff in Hseq. destruct Hseq as [Hx Hseq].
    pose proof (terminated_tail_text delim close end_ seq rest Hk) as Ht.
    unfold tail_text in *. cbn [flat_map]. rewrite <- !app_assoc.
    destruct Hk as [(-> & _ & _) | (-> & _ & _)].
    + eapply (stops_punctuation ","%rune COMMA); (reflexivity || discriminate).
    + apply stops_space. now apply String_begins_value.
Qed.

Lemma sequence_tail delim close end_ rest :
  sequence_kind delim close end_ -> stops rest ->
  forall seq, Forall (Renderable tbl) seq -> Forall (parses_back tbl) seq ->
  forall seq0 p,
    follows p (tail_text (separator delim) (String tbl) seq close rest) ->
    exists n p',
      parseSequence_from n end_ seq0 p
      = Return (Some (sequence_value end_ (seq0 ++ seq))) None p'
      /\ follows p' rest.
Proof.
  intros Hk Hrest. induction seq as [|x seq IH]; intros Hr Hp seq0 p H.
  - rewrite app_nil_r. unfold tail_text in H. cbn [flat_map app] in H.
    destruct Hk as [(_ & -> & ->) | (_ & -> & ->)];
      (edestruct sequence_end as [p' Hp']; [| |exact H|exists 1%nat, p'; exact Hp']);
      (reflexivity || (now left) || (now right)).
  - apply Forall_cons_iff in Hr, Hp. destruct Hr as [Hrx Hr], Hp as [Hpx Hp].
    pose proof (stops_tail_text delim close end_ seq rest Hk Hr) as Hstops.
    pose proof (String_begins_value tbl x _ Hrx (stops_terminated _ Hstops)) as Hbegins.
    set (tail := tail_text (separator delim) (String tbl) seq close rest) in *.
    assert (Hstep : forall p1, follows p1 (String tbl x ++ tail) ->
              exists n p',
                parseSequence_from n end_ seq0 p1
                = Return (Some (sequence_value end_ (seq0 ++ x :: seq))) None p'
                /\ follows p' rest).
    { intros p1 H1.
      destruct (Hpx tail p1 Hstops H1) as (k & p2 & Hk2 & Hf2).
      destruct (IH Hr Hp (seq0 ++ [x]) p2 Hf2) as (m & p' & Hm & Hf').
      rewrite <- app_assoc in Hm. cbn [app] in Hm.
      destruct (sequence_element _ _ _ _ _ _ _ _ _ _ _ H1 Hbegins Hk2 Hm) as [n Hn].
      now exists n, p'. }
    assert (Htext : tail_text (separator delim) (String tbl) (x :: seq) close rest
                    = separator delim ++ String tbl x ++ tail).
    { unfold tail, tail_text. cbn [flat_map]. now rewrite <- !app_assoc. }
    rewrite Htext in H.
    destruct Hk as [(-> & _ & _) | (-> & _ & _)].
    + change (separator ","%rune) with [","%rune; " "%rune] in H. cbn [app] in H.
      destruct (Hstep (parser_at (" "%rune :: String tbl x ++ tail) (Some ","%rune)
                         COMMA [","%rune])) as (m & p' & Hm & Hf').
      { unfold follows. rewrite scanIgnoreWhitespace_parser_at.
        now apply scanIgnoreWhitespace_space. }
      destruct (sequence_comma _ _ _ _ _ _ _ _ H Hm) as [n Hn].
      now exists n, p'.
    + change (separator 0) with [" "%rune] in H. cbn [app] in H.
      apply Hstep. unfold follows. rewrite H. now apply scanIgnoreWhitespace_space.
Qed.

Lemma sequence_items delim close end_ rest :
  sequence_kind delim close end_ -> stops rest ->
  forall seq, Forall (Renderable tbl) seq -> Forall (parses_back tbl) seq ->
  forall p,
    follows p (items_text (separator delim) (String tbl) seq ++ close :: rest) ->
    exists n p',
      parseSequence_from n end_ [] p = Return (Some (sequence_value end_ seq)) None p'
      /\ follows p' rest.
Proof.
  intros Hk Hrest seq Hr Hp p H. destruct seq as [|x seq].
  - apply (sequence_tail delim close end_ rest Hk Hrest [] Hr Hp [] p H).
  - apply Forall_cons_iff in Hr, Hp. destruct Hr as [Hrx Hr], Hp as [Hpx Hp].
    pose proof (stops_tail_text delim close end_ seq rest Hk Hr) as Hstops.
    pose proof (String_begins_value tbl x _ Hrx (stops_terminated _ Hstops)) as Hbegins.
    cbn [items_text] in H. rewrite <- app_assoc in H.
    fold (tail_text (separator delim) (String tbl) seq close rest) in H.
    destruct (Hpx _ p Hstops H) as (k & p2 & Hk2 & Hf2).
    destruct (sequence_tail delim close end_ rest Hk Hrest seq Hr Hp [x] p2 Hf2)
      as (m & p' & Hm & Hf').
    destruct (sequence_element _ [] _ _ _ _ _ _ _ _ _ H Hbegins Hk2 Hm) as [n Hn].
    now exists n, p'.
Qed.

End RenderedSequences.
(** ** Structs *)

Lemma struct_end fields0 p rest :
  follows p ("}"%rune :: rest) ->
  exists p',
    parseStruct_from 1 fields0 p = Return (Some (StructValue fields0)) None p'
    /\ follows p' rest.
Proof.
  intros H. exists (parser_at rest (Some "}"%rune) CLOSE_BRACE ["}"%rune]).
  split; [|apply follows_parser_at].
  unfold parseStruct_from.
  rewrite H, (scanIgnoreWhitespace_punctuation "}"%rune CLOSE_BRACE) by reflexivity.
  reflexivity.
Qed.

Lemma struct_comma fields0 p t m val e p' :
  follows p (","%rune :: t) ->
  parseStruct_from m fields0 (parser_at t (Some ","%rune) COMMA [","%rune])
  = Return val e p' ->
  exists n, parseStruct_from n fields0 p = Return val e p'.
Proof.
  intros H Hm. exists (S m).
  unfold parseStruct_from at 1.
  rewrite H, (scanIgnoreWhitespace_punctuation ","%rune COMMA) by reflexivity.
  rewrite parseStruct_loop_S. cbn [Token_eqb]. exact Hm.
Qed.

Section RenderedStructs.

Variable tbl : rune -> bool.

Lemma begins_field f tail :
  field_name (Name f) = true -> begins_value (field_text (String tbl) f ++ tail).
Proof.
  intros Hn. apply andb_prop in Hn. destruct Hn as [Hid _].
  unfold field_text. rewrite <- app_assoc. now apply begins_with_identifier.
Qed.

Lemma struct_field fields0 f p tail :
  field_name (Name f) = true -> Renderable tbl (Value' f) ->
  parses_back tbl (Value' f) -> stops tail ->
  follows p (field_text (String tbl) f ++ tail) ->
  exists p2,
    follows p2 tail
    /\ forall m val e p',
         parseStruct_from m (fields0 ++ [f]) p2 = Return val e p' ->
         exists n, parseStruct_from n fields0 p = Return val e p'.
Proof.
  intros Hn Hr Hp Htail H. apply andb_prop in Hn. destruct Hn as [Hid Hkw].
  apply negb_true_iff in Hkw.
  pose proof (String_begins_value tbl _ _ Hr (stops_terminated _ Htail)) as Hbegins.
  unfold field_text in H. rewrite <- !app_assoc in H.
  set (t := String tbl (Value' f) ++ tail) in *.
  destruct (Hp tail (parser_at (" "%rune :: t) None COLON (runes ":")) Htail)
    as (k & p2 & Hk & Hf2).
  { unfold follows. rewrite scanIgnoreWhitespace_parser_at.
    now apply scanIgnoreWhitespace_space. }
  exists p2. split; [exact Hf2|]. intros m val e p' Hm.
  exists (S (S (k + m))). unfold parseStruct_from at 1.
  rewrite H, (scanIgnoreWhitespace_identifier (Name f)) by (assumption || reflexivity).
  rewrite parseStruct_loop_S. cbn [Token_eqb].
  destruct (parseToken_SYMBOL (k + m) (Name f) (runes ": " ++ t) None SYMBOL (Name f))
    as (p1 & Hp1 & Hf1).
  { exists COLON, (runes ":"), (" "%rune :: t), None.
    rewrite scanIgnoreWhitespace_colon. repeat split; discriminate. }
  rewrite Hp1, (symbol_value_not_keyword _ Hkw).
  cbn [SymbolValue Type' Type_eqb negb andb Text].
  rewrite Hf1, scanIgnoreWhitespace_colon. cbn [Token_eqb negb].
  rewrite (parse_more _ (S (k + m)) _ _ _ _ Hk) by lia.
  destruct f as [name value]. cbn [Name Value'] in *.
  apply (parseStruct_from_more _ _ _ _ _ _ _ Hm). lia.
Qed.

Lemma stops_struct_tail fields rest :
  stops (tail_text (runes ", ") (field_text (String tbl)) fields "}"%rune rest).
Proof.
  destruct fields as [|f fields].
  - eapply (stops_punctuation "}"%rune CLOSE_BRACE); (reflexivity || discriminate).
  - eapply (stops_punctuation ","%rune COMMA); (reflexivity || discriminate).
Qed.

Lemma struct_tail rest :
  stops rest ->
  forall fields,
    Forall (fun f => field_name (Name f) = true) fields ->
    Forall (fun f => Renderable tbl (Value' f)) fields ->
    Forall (fun f => parses_back tbl (Value' f)) fields ->
    forall fields0 p,
      follows p (tail_text (runes ", ") (field_text (String tbl)) fields "}"%rune rest) ->
      exists n p',
        parseStruct_from n fields0 p
        = Return (Some (StructValue (fields0 ++ fields))) None p'
        /\ follows p' rest.
Proof.
  intros Hrest. induction fields as [|f fields IH]; intros Hn Hr Hp fields0 p H.
  - rewrite app_nil_r. destruct (struct_end fields0 p rest H) as [p' Hp'].
    now exists 1%nat, p'.
  - apply Forall_cons_iff in Hn, Hr, Hp.
    destruct Hn as [Hnf Hn], Hr as [Hrf Hr], Hp as [Hpf Hp].
    pose proof (stops_struct_tail fields rest) as Hstops.
    set (tail := tail_text (runes ", ") (field_text (String tbl)) fields "}"%rune rest) in *.
    assert (Htext : tail_text (runes ", ") (field_text (String tbl)) (f :: fields)
                      "}"%rune rest
                    = ","%rune :: " "%rune :: field_text (String tbl) f ++ tail).
    { unfold tail, tail_text. cbn [flat_map]. now rewrite <- !app_assoc. }
    rewrite Htext in H.
    destruct (struct_field fields0 f
                (parser_at (" "%rune :: field_text (String tbl) f ++ tail)
                   (Some ","%rune) COMMA [","%rune]) tail Hnf Hrf Hpf Hstops)
      as (p2 & Hf2 & Hstep).
    { unfold follows. rewrite scanIgnoreWhitespace_parser_at.
      apply scanIgnoreWhitespace_space. now apply begins_field. }
    destruct (IH Hn Hr Hp (fields0 ++ [f]) p2 Hf2) as (m & p' & Hm & Hf').
    rewrite <- app_assoc in Hm. cbn [app] in Hm.
    destruct (Hstep _ _ _ _ Hm) as [n1 Hn1].
    destruct (struct_comma _ _ _ _ _ _ _ H Hn1) as [n Hn'].
    now exists n, p'.
Qed.

Lemma struct_items rest :
  stops rest ->
  forall fields,
    Forall (fun f => field_name (Name f) = true) fields ->
    Forall (fun f => Renderable tbl (Value' f)) fields ->
    Forall (fun f => parses_back tbl (Value' f)) fields ->
    forall p,
      follows p (items_text (runes ", ") (field_text (String tbl)) fields
                 ++ "}"%rune :: rest) ->
      exists n p',
        parseStruct_from n [] p = Return (Some (StructValue fields)) None p'
        /\ follows p' rest.
Proof.
  intros Hrest fields Hn Hr Hp p H. destruct fields as [|f fields].
  - apply (struct_tail rest Hrest [] Hn Hr Hp [] p H).
  - apply Forall_cons_iff in Hn, Hr, Hp.
    destruct Hn as [Hnf Hn], Hr as [Hrf Hr], Hp as [Hpf Hp].
    cbn [items_text] in H. rewrite <- app_assoc in H.
    fold (tail_text (runes ", ") (field_text (String tbl)) fields "}"%rune rest) in H.
    destruct (struct_field [] f p _ Hnf Hrf Hpf (stops_struct_tail fields rest) H)
      as (p2 & Hf2 & Hstep).
    destruct (struct_tail rest Hrest fields Hn Hr Hp [f] p2 Hf2) as (m & p' & Hm & Hf').
    destruct (Hstep _ _ _ _ Hm) as [n Hn'].
    now exists n, p'.
Qed.

(** A rendered struct without annotations is parsed back. *)
Lemma struct_parses fields rest p :
  stops rest ->
  Forall (fun f => field_name (Name f) = true) fields ->
  Forall (fun f => Renderable tbl (Value' f)) fields ->
  Forall (fun f => parses_back tbl (Value' f)) fields ->
  follows p (structToString (String tbl) fields ++ rest) ->
  parses p (StructValue fields) rest.
Proof.
  intros Hrest Hn Hr Hp H.
  rewrite structToString_eq in H. cbn [app] in H. rewrite <- app_assoc in H.
  cbn [app] in H.
  set (t := items_text (runes ", ") (field_text (String tbl)) fields ++ "}"%rune :: rest) in *.
  destruct (struct_items rest Hrest fields Hn Hr Hp
              (parser_at t (Some "{"%rune) OPEN_BRACE ["{"%rune]))
    as (n & p' & Hn' & Hf'); [apply follows_parser_at|].
  exists (S (S (S n))), p'. split; [|exact Hf'].
  rewrite (parse_of_token _ _ _ OPEN_BRACE ["{"%rune] _ H
             (scanIgnoreWhitespace_punctuation "{"%rune OPEN_BRACE t None ILLEGAL []
                eq_refl)).
  rewrite parseToken_S. cbn [Token_eqb]. rewrite parseStruct_S. exact Hn'.
Qed.

(** A rendered sequence is parsed back. *)
Lemma sequence_parses open delim close end_ seq rest p :
  sequence_kind delim close end_ ->
  punctuation open = Some (if Token_eqb end_ CLOSE_PAREN then OPEN_PAREN else OPEN_BRACKET) ->
  stops rest ->
  Forall (Renderable tbl) seq -> Forall (parses_back tbl) seq ->
  follows p (sequenceToString (String tbl) seq open delim close ++ rest) ->
  parses p (sequence_value end_ seq) rest.
Proof.
  intros Hk Hopen Hrest Hr Hp H.
  rewrite sequenceToString_eq in H. cbn [app] in H. rewrite <- app_assoc in H.
  cbn [app] in H.
  set (t := items_text (separator delim) (String tbl) seq ++ close :: rest) in *.
  destruct (sequence_items tbl delim close end_ rest Hk Hrest seq Hr Hp
              (parser_at t (Some open) (if Token_eqb end_ CLOSE_PAREN then OPEN_PAREN
                                        else OPEN_BRACKET) [open]))
    as (n & p' & Hn' & Hf'); [apply follows_parser_at|].
  exists (S (S (S n))), p'. split; [|exact Hf'].
  rewrite (parse_of_token _ _ _ _ [open] _ H
             (scanIgnoreWhitespace_punctuation open _ t None ILLEGAL [] Hopen)).
  rewrite parseToken_S.
  destruct Hk as [(_ & _ & ->) | (_ & _ & ->)];
    cbn [Token_eqb]; rewrite parseSequence_S; exact Hn'.
Qed.

End RenderedStructs.
(** ** The round trip *)

Lemma identifier_parses a rest p :
  is_identifier a = true -> stops rest -> follows p (a ++ rest) ->
  parses p (symbol_value a) rest.
Proof.
  intros Hid [Ht Hs] H.
  destruct (parseToken_SYMBOL 0 a rest None SYMBOL a Hs) as (p' & Hp' & Hf').
  exists 2%nat, p'. split; [|exact Hf'].
  rewrite (parse_of_token _ _ _ SYMBOL a _ H
             (scanIgnoreWhitespace_identifier a rest None ILLEGAL [] Hid
                (terminated_ends_identifier _ Ht))).
  exact Hp'.
Qed.

Lemma symbol_parses s rest p :
  symbol_text s = true -> stops rest -> follows p (symbolToString s ++ rest) ->
  parses p (SymbolValue s) rest.
Proof.
  intros Hs [Ht Hstops] H. destruct s as [|c s]; [discriminate|].
  cbn [symbol_text] in Hs. apply andb_prop in Hs. destruct Hs as [Hrunes Hkw].
  apply negb_true_iff in Hkw.
  destruct (parseToken_SYMBOL 0 (c :: s) rest (Some "'"%rune) SYMBOL (c :: s) Hstops)
    as (p' & Hp' & Hf').
  exists 2%nat, p'. split; [|exact Hf'].
  rewrite (parse_of_token _ _ _ SYMBOL (c :: s) _ H
             (scanIgnoreWhitespace_token _ None ILLEGAL [] _ _ _ _
                (Scan_quoted_symbol c s rest None [] Hrunes) ltac:(discriminate))).
  now rewrite Hp', (symbol_value_not_keyword _ Hkw).
Qed.

Lemma int_parses i rest p :
  0 <= i < 2 ^ 63 -> stops rest -> follows p (FormatInt i ++ rest) ->
  parses p (IntValue i) rest.
Proof.
  intros Hi [Ht _] H.
  destruct (FormatInt_digits i (proj1 Hi)) as (d & ds & E & Hd).
  exists 2%nat, (parser_at rest None NUMBER (FormatInt i)).
  split; [|apply follows_parser_at].
  rewrite (parse_of_token _ _ _ NUMBER (FormatInt i) (parser_at rest None NUMBER (FormatInt i)) H).
  - rewrite parseToken_S. now apply NUMBER_value_FormatInt.
  - rewrite E. apply scanIgnoreWhitespace_token; [|discriminate].
    apply Scan_number; [exact Hd|now apply terminated_ends_number].
Qed.

Lemma real_parses d l f rest p :
  isDigit d = true ->
  forallb (fun c => rune_in c (runes "0123456789.")) l = true ->
  rune_in "."%rune l = true -> ParseFloat (d :: l) = Some f ->
  stops rest -> follows p ((d :: l) ++ rest) ->
  parses p (FloatValue f) rest.
Proof.
  intros Hd Hl Hdot Hf [Ht _] H.
  exists 2%nat, (parser_at rest None NUMBER (d :: l)).
  split; [|apply follows_parser_at].
  rewrite (parse_of_token _ _ _ NUMBER (d :: l) (parser_at rest None NUMBER (d :: l)) H).
  - rewrite parseToken_S. now apply NUMBER_value_real.
  - apply scanIgnoreWhitespace_token; [|discriminate].
    apply Scan_decimal; [assumption..|now apply terminated_ends_number].
Qed.

Lemma float_parses f rest p :
  float_text f = true -> stops rest -> follows p (FormatFloat_g f ++ rest) ->
  parses p (FloatValue f) rest.
Proof.
  intros Hf Hrest H.
  destruct (float_text_literal f Hf) as (d & l & E & Hd & Hl & Hdot & Hp).
  rewrite E in H. now apply (real_parses d l).
Qed.

Section RoundTripProof.

Variable tbl : rune -> bool.

Lemma string_parses s rest p :
  string_text tbl s = true -> follows p (Quote tbl s ++ rest) ->
  parses p (StringValue s) rest.
Proof.
  intros Hs H.
  exists 2%nat, (parser_at rest (Some dquote) STRING s).
  split; [|apply follows_parser_at].
  now rewrite (parse_of_token _ _ _ STRING s _ H
                 (scanIgnoreWhitespace_token _ None ILLEGAL [] _ _ _ _
                    (Scan_quoted_string tbl s rest None [] Hs) ltac:(discriminate))).
Qed.

(** An annotation before a value that is parsed back. *)
Lemma annotation_parses a t v rest p :
  is_identifier a = true ->
  (forall p1, follows p1 t -> parses p1 v rest) ->
  follows p (a ++ runes "::" ++ t) ->
  parses p (set_Annotations v [a]) rest.
Proof.
  intros Hid Hv H.
  destruct (Hv (parser_at t None ILLEGAL []) (follows_parser_at _ _ _ _))
    as (n & p' & Hn & Hf').
  exists (S (S n)), p'. split; [|exact Hf'].
  now rewrite (parse_follows _ _ _ H), parse_annotation, Hn.
Qed.

(** The rendering of a renderable value is parsed back to the value,
    whatever text that may follow a value comes after it. *)
Lemma Renderable_parses_back : forall v, Renderable tbl v -> parses_back tbl v.
Proof.
  apply (Renderable_ind tbl); unfold parses_back.
  - intros rest p Hrest H.
    apply (identifier_parses (runes "null") rest p eq_refl Hrest H).
  - intros i [-> | ->] rest p Hrest H.
    + apply (identifier_parses (runes "false") rest p eq_refl Hrest H).
    + apply (identifier_parses (runes "true") rest p eq_refl Hrest H).
  - intros i Hi rest p Hrest H. now apply int_parses.
  - intros f Hf rest p Hrest H. now apply float_parses.
  - intros s Hs rest p Hrest H. now apply string_parses.
  - intros s Hs rest p Hrest H. now apply symbol_parses.
  - intros seq Hr Hp rest p Hrest H.
    apply (sequence_parses tbl "["%rune ","%rune "]"%rune CLOSE_BRACKET seq rest p);
      try assumption; [left; now repeat split | reflexivity].
  - intros seq Hr Hp rest p Hrest H.
    apply (sequence_parses tbl "("%rune 0 ")"%rune CLOSE_PAREN seq rest p);
      try assumption; [right; now repeat split | reflexivity].
  - intros annotations fields Ha Hn Hr Hp rest p Hrest H.
    destruct annotations as [|a [|b annotations]]; [| |discriminate].
    + now apply (struct_parses tbl).
    + cbn [annotations_ok] in Ha.
      apply (annotation_parses a (structToString (String tbl) fields ++ rest)
               (StructValue fields) rest p Ha).
      * intros p1 H1. now apply (struct_parses tbl).
      * cbn -[structToString] in H. cbn -[structToString].
        rewrite <- !app_assoc in H. exact H.
Qed.

End RoundTripProof.
(** * Comments and whitespace before a value *)

Lemma Scan_fuel_more : forall n m s x,
  Scan_fuel n s = Some x -> (n <= m)%nat -> Scan_fuel m s = Some x.
Proof.
  induction n as [|n IH]; intros m s x H Hle; [discriminate|].
  destruct m as [|m]; [lia|].
  rewrite Scan_fuel_S in H. rewrite Scan_fuel_S.
  destruct (negb (Token_eqb (lastToken s) ILLEGAL)); [exact H|].
  cbv zeta in *.
  destruct (read (r s)) as [ch b1].
  destruct (isWhitespace ch); [exact H|].
  destruct (isLetter ch); [exact H|].
  destruct (ch =? eof); [exact H|].
  destruct (ch =? "/"%rune); [|exact H].
  destruct (read b1) as [ch2 b2].
  destruct (ch2 =? "/"%rune); [|exact H].
  apply (IH m _ _ H). lia.
Qed.

Lemma Scan_fuel_Scan n s x : Scan_fuel n s = Some x -> Scan s = x.
Proof.
  intros H. unfold Scan.
  destruct (Scan_fuel_spec (S (List.length (pending (r s)))) s (Nat.lt_succ_diag_r _))
    as (tok & lit & s' & E & _).
  rewrite E.
  destruct (Nat.le_ge_cases n (S (List.length (pending (r s))))) as [Hle | Hle].
  - rewrite (Scan_fuel_more _ _ _ _ H Hle) in E. now inversion E.
  - rewrite (Scan_fuel_more _ _ _ _ E Hle) in H. now inversion H.
Qed.

Lemma skipLine_comment c t :
  forallb comment_rune c = true ->
  skipLine (c ++ newline :: t) = mkReader t (Some newline).
Proof.
  induction c as [|ch c IH]; intros H; [reflexivity|].
  cbn [forallb] in H. apply andb_prop in H. destruct H as [Hch Hc].
  unfold comment_rune in Hch. apply andb_prop in Hch. destruct Hch as [H1 H2].
  apply negb_true_iff in H1, H2.
  cbn [app skipLine]. rewrite H1, H2. cbn [orb]. now apply IH.
Qed.

Lemma Scan_comment c t u ll :
  forallb comment_rune c = true ->
  Scan (mkScanner (mkReader (runes "//" ++ c ++ newline :: t) u) ILLEGAL ll)
  = Scan (mkScanner (mkReader t None) ILLEGAL ll).
Proof.
  intros Hc.
  destruct (Scan_fuel_spec (S (List.length t)) (mkScanner (mkReader t None) ILLEGAL ll)
              (Nat.lt_succ_diag_r _)) as (tok & lit & s' & E & _).
  rewrite (Scan_fuel_Scan _ _ _ E).
  apply (Scan_fuel_Scan (S (S (List.length t)))).
  rewrite Scan_fuel_S. cbn -[Scan_fuel skipLine newline].
  rewrite (skipLine_comment c t Hc), Scan_fuel_reader_irrelevant. exact E.
Qed.

Lemma scanWhitespace_loop_app ws : forall c t buf,
  forallb isWhitespace ws = true -> isWhitespace c = false -> c <> eof ->
  scanWhitespace_loop (ws ++ c :: t) buf = (buf ++ ws, mkReader (c :: t) None).
Proof.
  induction ws as [|w ws IH]; intros c t buf Hws Hc Heof.
  - cbn [app scanWhitespace_loop]. apply Z.eqb_neq in Heof. rewrite Heof, Hc.
    now rewrite app_nil_r.
  - cbn [forallb] in Hws. apply andb_prop in Hws. destruct Hws as [Hw Hws].
    cbn [app scanWhitespace_loop].
    assert (E : (w =? eof) = false).
    { apply Z.eqb_neq. intros ->. discriminate. }
    rewrite E, Hw. cbn [negb]. rewrite (IH c t _ Hws Hc Heof).
    now rewrite <- app_assoc.
Qed.

Lemma Scan_whitespace w ws c t u ll :
  forallb isWhitespace (w :: ws) = true -> isWhitespace c = false -> c <> eof ->
  Scan (mkScanner (mkReader ((w :: ws) ++ c :: t) u) ILLEGAL ll)
  = (WHITESPACE, w :: ws, mkScanner (mkReader (c :: t) None) ILLEGAL ll).
Proof.
  intros Hws Hc Heof. cbn [forallb] in Hws. apply andb_prop in Hws.
  destruct Hws as [Hw Hws].
  apply (Scan_fuel_Scan 1). rewrite Scan_fuel_S.
  cbn -[scanWhitespace isWhitespace isLetter]. rewrite Hw.
  unfold scanWhitespace. cbn -[scanWhitespace_loop].
  now rewrite (scanWhitespace_loop_app ws c t [w] Hws Hc Heof).
Qed.

Lemma follows_whitespace ws t :
  forallb isWhitespace ws = true -> begins_value t ->
  follows (parser_at (ws ++ t) None ILLEGAL []) t.
Proof.
  intros Hws (c & t0 & tok & lit & t' & u' & -> & Hc & Heof & Hscan & Htok).
  destruct ws as [|w ws]; [reflexivity|].
  destruct (value_token_not tok Htok) as (Hw & _).
  unfold follows.
  rewrite (scanIgnoreWhitespace_whitespace _ _ _ _ _ _ _ _ _ _ _
             (Scan_whitespace w ws c t0 None [] Hws Hc Heof) Hscan).
  symmetry. now apply scanIgnoreWhitespace_token.
Qed.

Lemma follows_comment c t :
  forallb comment_rune c = true ->
  follows (parser_at (runes "//" ++ c ++ newline :: t) None ILLEGAL []) t.
Proof.
  intros Hc. unfold follows, scanIgnoreWhitespace, scan, parser_at.
  cbn [buf_n scanner Z.eqb negb]. now rewrite (Scan_comment c t None [] Hc).
Qed.

(** [Parse] of a text is [Parse] of the text that the parser goes on
    with. *)
Lemma Parse_follows t' t :
  follows (parser_at t' None ILLEGAL []) t -> (List.length t <= List.length t')%nat ->
  Parse t' = Parse t.
Proof.
  intros H Hle. symmetry.
  rewrite (Parse_fuel_Parse (3 * List.length t' + 4) t).
  - unfold Parse, Parse_fuel. rewrite !parseFrom_parser_at. f_equal.
    symmetry. now apply parse_follows.
  - unfold Parse_fuel. rewrite parseFrom_parser_at. intros E.
    apply result_of_Unfinished in E.
    destruct (proj1 (parser_finishes (3 * List.length t' + 4))
                (parser_at t None ILLEGAL [])) as [Hne _]; [|now apply Hne].
    unfold parser_left, scanner_left, parser_at. cbn. lia.
Qed.

(** * A value or an error *)

Lemma NUMBER_value_value_or_error lit p val e p' :
  NUMBER_value lit p = Return val e p' -> value_or_error val e.
Proof.
  unfold NUMBER_value, value_or_error. intros H.
  destruct (rune_in "."%rune lit).
  - destruct (if negb (HasPrefix lit (runes "0x")) && negb (HasPrefix lit (runes "0b"))
              then ParseFloat lit else None); inversion H; auto.
  - destruct (if HasPrefix lit (runes "0x") then (16, skipn 2 lit)
              else if HasPrefix lit (runes "0b") then (2, skipn 2 lit)
              else (10, lit)) as [base lit'].
    destruct (ParseInt lit' base); inversion H; auto.
Qed.

Lemma parser_value_or_error : forall n,
  (forall p val e p', parse n p = Return val e p' -> value_or_error val e)
  /\ (forall tok lit p val e p',
        parseToken n tok lit p = Return val e p' -> value_or_error val e)
  /\ (forall end_ p val e p',
        parseSequence n end_ p = Return val e p' -> value_or_error val e)
  /\ (forall end_ seq tok lit p val e p',
        parseSequence_loop n end_ seq tok lit p = Return val e p' ->
        value_or_error val e)
  /\ (forall p val e p', parseStruct n p = Return val e p' -> value_or_error val e)
  /\ (forall fields tok lit p val e p',
        parseStruct_loop n fields tok lit p = Return val e p' ->
        value_or_error val e).
Proof.
  induction n as [|n IH].
  { repeat split; intros; discriminate. }
  destruct IH as (Hp & Ht & Hs & Hsl & Hst & Hstl).
  split; [|split; [|split; [|split; [|split]]]].
  - intros p val e p' H. rewrite parse_S in H.
    destruct (scanIgnoreWhitespace p) as [[tok lit] p1]. eauto.
  - intros tok lit p val e p' H. rewrite parseToken_S in H.
    destruct tok; eauto using NUMBER_value_value_or_error;
      try (inversion H; unfold value_or_error; auto; fail).
    destruct (scanIgnoreWhitespace p) as [[nt nl] p1].
    destruct (Token_eqb nt DOUBLE_COLON).
    + destruct (parse n p1) as [val1 e1 p2| |] eqn:E; try discriminate.
      apply Hp in E.
      destruct e1; [|destruct val1]; inversion H; subst; auto;
        unfold value_or_error; auto.
    + destruct (str_eqb lit (runes "true")); [inversion H; now right|].
      destruct (str_eqb lit (runes "false")); [inversion H; now right|].
      destruct (str_eqb lit (runes "null")); inversion H; now right.
  - intros end_ p val e p' H. rewrite parseSequence_S in H.
    destruct (scanIgnoreWhitespace p) as [[tok lit] p1]. eauto.
  - intros end_ seq tok lit p val e p' H. rewrite parseSequence_loop_S in H.
    destruct (Token_eqb tok EOF); [inversion H; now left|].
    destruct (Token_eqb tok CLOSE_BRACKET || Token_eqb tok CLOSE_PAREN).
    { destruct (negb (Token_eqb end_ tok)); [inversion H; now left|].
      destruct (Token_eqb end_ CLOSE_PAREN); inversion H; now right. }
    destruct (parseToken n tok lit p) as [val1 e1 p1| |] eqn:E; try discriminate.
    destruct e1; [inversion H; now left|].
    destruct (scanIgnoreWhitespace p1) as [[tok' lit'] p2]. eauto.
  - intros p val e p' H. rewrite parseStruct_S in H.
    destruct (scanIgnoreWhitespace p) as [[tok lit] p1]. eauto.
  - intros fields tok lit p val e p' H. rewrite parseStruct_loop_S in H.
    destruct (Token_eqb tok EOF); [inversion H; now left|].
    destruct (Token_eqb tok CLOSE_BRACE); [inversion H; now right|].
    destruct (Token_eqb tok COMMA).
    { destruct (scanIgnoreWhitespace p) as [[tok' lit'] p1]. eauto. }
    destruct (parseToken n tok lit p) as [val1 e1 p1| |] eqn:E; try discriminate.
    destruct val1 as [elem|], e1; try discriminate; try (inversion H; now left).
    destruct (negb (Type_eqb (Type' elem) SymbolType)
              && negb (Type_eqb (Type' elem) StringType)); [inversion H; now left|].
    destruct (scanIgnoreWhitespace p1) as [[tok' lit'] p2].
    destruct (negb (Token_eqb tok' COLON)); [inversion H; now left|].
    destruct (parse n p2) as [val2 e2 p3| |] eqn:E2; try discriminate.
    destruct val2 as [elem2|], e2; try discriminate; try (inversion H; now left).
    destruct (scanIgnoreWhitespace p3) as [[tok3 lit3] p4]. eauto.
Qed.
(** * Edge cases of the scanner and the parser *)

(** [Parse] returns what [p.parse()] returns with some count of nested
    calls. *)
Lemma Parse_parse n t val e p' :
  parse n (parser_at t None ILLEGAL []) = Return val e p' -> Parse t = Returned val e.
Proof.
  intros H.
  assert (E : Parse_fuel n t = Returned val e).
  { unfold Parse_fuel. now rewrite parseFrom_parser_at, H. }
  rewrite (Parse_fuel_Parse n); [exact E|]. rewrite E. discriminate.
Qed.

Lemma scanWhitespace_loop_all ws : forall buf,
  forallb isWhitespace ws = true ->
  scanWhitespace_loop ws buf = (buf ++ ws, mkReader [] None).
Proof.
  induction ws as [|w ws IH]; intros buf Hws.
  - now rewrite app_nil_r.
  - cbn [forallb] in Hws. apply andb_prop in Hws. destruct Hws as [Hw Hws].
    cbn [scanWhitespace_loop].
    assert (E : (w =? eof) = false).
    { apply Z.eqb_neq. intros ->. discriminate. }
    rewrite E, Hw. cbn [negb]. rewrite (IH _ Hws). now rewrite <- app_assoc.
Qed.

Lemma Scan_whitespace_all w ws u ll :
  forallb isWhitespace (w :: ws) = true ->
  Scan (mkScanner (mkReader (w :: ws) u) ILLEGAL ll)
  = (WHITESPACE, w :: ws, mkScanner (mkReader [] None) ILLEGAL ll).
Proof.
  intros Hws. cbn [forallb] in Hws. apply andb_prop in Hws. destruct Hws as [Hw Hws].
  apply (Scan_fuel_Scan 1). rewrite Scan_fuel_S.
  cbn -[scanWhitespace isWhitespace isLetter]. rewrite Hw.
  unfold scanWhitespace. cbn -[scanWhitespace_loop].
  now rewrite (scanWhitespace_loop_all ws [w] Hws).
Qed.

Lemma skipLine_all c : forallb comment_rune c = true -> skipLine c = mkReader [] None.
Proof.
  induction c as [|ch c IH]; intros H; [reflexivity|].
  cbn [forallb] in H. apply andb_prop in H. destruct H as [Hch Hc].
  unfold comment_rune in Hch. apply andb_prop in Hch. destruct Hch as [H1 H2].
  apply negb_true_iff in H1, H2.
  cbn [skipLine]. rewrite H1, H2. cbn [orb]. now apply IH.
Qed.

Lemma Scan_comment_all c u ll :
  forallb comment_rune c = true ->
  Scan (mkScanner (mkReader (runes "//" ++ c) u) ILLEGAL ll)
  = (EOF, [], mkScanner (mkReader [] None) ILLEGAL ll).
Proof.
  intros Hc. apply (Scan_fuel_Scan 2). rewrite Scan_fuel_S.
  cbn -[Scan_fuel skipLine]. now rewrite (skipLine_all c Hc).
Qed.

Lemma parse_whitespace_only ws :
  forallb isWhitespace ws = true ->
  exists p', parse 2 (parser_at ws None ILLEGAL []) = Return None None p'.
Proof.
  intros Hws. destruct ws as [|w ws]; [eexists; reflexivity|].
  rewrite parse_S. unfold scanIgnoreWhitespace, scan, parser_at.
  cbn [buf_n scanner Z.eqb negb]. rewrite (Scan_whitespace_all w ws None [] Hws).
  cbn [Token_eqb buf_n scanner Z.eqb negb err source]. eexists. reflexivity.
Qed.

Lemma parse_comment_only ws c :
  forallb isWhitespace ws = true -> forallb comment_rune c = true ->
  exists p', parse 2 (parser_at (ws ++ runes "//" ++ c) None ILLEGAL []) = Return None None p'.
Proof.
  intros Hws Hc. rewrite parse_S. unfold scanIgnoreWhitespace, scan, parser_at.
  cbn [buf_n scanner Z.eqb negb]. destruct ws as [|w ws].
  - cbn [app]. rewrite (Scan_comment_all c None [] Hc).
    cbn [Token_eqb]. eexists. reflexivity.
  - change (runes "//" ++ c) with ("/"%rune :: "/"%rune :: c).
    assert (E : Scan (mkScanner (mkReader ((w :: ws) ++ "/"%rune :: "/"%rune :: c) None)
                        ILLEGAL [])
                = (WHITESPACE, w :: ws,
                   mkScanner (mkReader ("/"%rune :: "/"%rune :: c) None) ILLEGAL [])).
    { apply Scan_whitespace; [exact Hws|reflexivity|discriminate]. }
    rewrite E.
    cbn [Token_eqb buf_n scanner Z.eqb negb err source].
    change ("/"%rune :: "/"%rune :: c) with (runes "//" ++ c).
    rewrite (Scan_comment_all c None [] Hc). eexists. reflexivity.
Qed.

Lemma Scan_unknown_rune c t u ll :
  unknown_rune c = true ->
  Scan (mkScanner (mkReader (c :: t) u) ILLEGAL ll)
  = (ILLEGAL, [c], mkScanner (mkReader t (Some c)) ILLEGAL ll).
Proof.
  intros H. unfold unknown_rune in H.
  repeat (apply andb_prop in H; destruct H as [H ?]).
  repeat match goal with
         | H : negb _ = true |- _ => apply negb_true_iff in H
         end.
  match goal with
  | H : rune_in c _ = false |- _ =>
      cbv -[Z.eqb orb] in H;
      repeat (apply orb_false_elim in H; destruct H as [? H])
  end.
  apply (Scan_fuel_Scan 1). rewrite Scan_fuel_S.
  cbn -[isWhitespace isLetter isDigit Z.eqb].
  repeat match goal with
         | H : ?x = false |- context [?x] => rewrite H
         end.
  reflexivity.
Qed.

Lemma parse_unknown_rune c t :
  unknown_rune c = true ->
  exists p',
    parse 2 (parser_at (c :: t) None ILLEGAL [])
    = Return None (Some (ErrTokenNotHandled ILLEGAL [c])) p'.
Proof.
  intros H. rewrite parse_S.
  rewrite (scanIgnoreWhitespace_token _ None ILLEGAL [] _ _ _ _
             (Scan_unknown_rune c t None [] H)) by discriminate.
  eexists. reflexivity.
Qed.

(** * Quoted literals *)

Lemma scanUntil_loop_plain tok delim s : forall l buf,
  forallb (plain_rune delim) s = true ->
  scanUntil_loop tok delim (s ++ l) Plain buf
  = scanUntil_loop tok delim l Plain (buf ++ s).
Proof.
  induction s as [|c s IH]; intros l buf H.
  - now rewrite app_nil_r.
  - cbn [forallb] in H. apply andb_prop in H. destruct H as [Hc Hs].
    unfold plain_rune in Hc.
    apply andb_prop in Hc. destruct Hc as [Hc H3].
    apply andb_prop in Hc. destruct Hc as [H1 H2].
    apply negb_true_iff in H1, H2, H3.
    cbn [app scanUntil_loop]. rewrite H1, H2, H3, (IH l _ Hs).
    now rewrite <- app_assoc.
Qed.

(** A literal with a closing delimiter, or with none before the end of the
    input. *)
Lemma Scan_literal q tok first s u ll :
  (q = dquote /\ tok = STRING) \/ (q = "'"%rune /\ tok = SYMBOL) ->
  forallb (plain_rune q) s = true ->
  (forall t,
     Scan (mkScanner (mkReader (q :: first :: s ++ q :: t) u) ILLEGAL ll)
     = (tok, first :: s, mkScanner (mkReader t (Some q)) ILLEGAL ll))
  /\ Scan (mkScanner (mkReader (q :: first :: s) u) ILLEGAL ll)
     = (tok, first :: s, mkScanner (mkReader [] None) ILLEGAL ll).
Proof.
  intros Hq Hs. split; [intros t|].
  - apply (Scan_fuel_Scan 1). rewrite Scan_fuel_S.
    destruct Hq as [[-> ->] | [-> ->]]; cbn -[scanUntil_loop];
      rewrite (scanUntil_loop_plain _ _ s _ _ Hs); cbn [scanUntil_loop];
      rewrite Z.eqb_refl; reflexivity.
  - pose proof (scanUntil_loop_plain tok q s [] [first] Hs) as E.
    rewrite app_nil_r in E.
    apply (Scan_fuel_Scan 1). rewrite Scan_fuel_S.
    destruct Hq as [[-> ->] | [-> ->]]; cbn -[scanUntil_loop];
      rewrite E; reflexivity.
Qed.

Lemma Scan_unknown_escape q tok first s c t u ll :
  (q = dquote /\ tok = STRING) \/ (q = "'"%rune /\ tok = SYMBOL) ->
  forallb (plain_rune q) s = true -> known_escape c = false ->
  Scan (mkScanner (mkReader (q :: first :: s ++ "\"%rune :: c :: t) u) ILLEGAL ll)
  = (ILLEGAL, ["\"%rune; c], mkScanner (mkReader t (Some c)) ILLEGAL ll).
Proof.
  intros Hq Hs Hc. unfold known_escape in Hc.
  repeat (apply orb_false_elim in Hc; destruct Hc as [Hc ?]).
  apply (Scan_fuel_Scan 1). rewrite Scan_fuel_S.
  destruct Hq as [[-> ->] | [-> ->]]; cbn -[scanUntil_loop];
    rewrite (scanUntil_loop_plain _ _ s _ _ Hs); cbn [scanUntil_loop];
    repeat match goal with
           | H : ?x = false |- context [?x] => rewrite H
           end; reflexivity.
Qed.
(** * Sequences with either delimiter and either closing rune *)

Lemma sequence_closed end_ close tok seq0 p rest :
  closer close tok -> follows p (close :: rest) ->
  exists p',
    parseSequence_from 1 end_ seq0 p
    = Return (fst (closed_sequence end_ tok seq0)) (snd (closed_sequence end_ tok seq0)) p'.
Proof.
  intros Hc H. exists (parser_at rest (Some close) tok [close]).
  unfold parseSequence_from, closed_sequence.
  rewrite H, (scanIgnoreWhitespace_punctuation close tok)
    by (destruct Hc as [[-> ->] | [-> ->]]; reflexivity).
  rewrite parseSequence_loop_S.
  destruct Hc as [[_ ->] | [_ ->]]; cbn [Token_eqb orb];
    destruct (negb (Token_eqb end_ _)); try reflexivity;
    unfold sequence_value; destruct (Token_eqb end_ CLOSE_PAREN); reflexivity.
Qed.

Section WrittenSequences.

Variable tbl : rune -> bool.

Lemma stops_closed_tail delim close tok seq rest :
  delimiter delim -> closer close tok -> Forall (Renderable tbl) seq ->
  stops (tail_text (separator delim) (String tbl) seq close rest).
Proof.
  intros Hd Hc Hseq. destruct seq as [|x seq].
  - destruct Hc as [[-> ->] | [-> ->]];
      eapply stops_punctuation; (reflexivity || discriminate).
  - apply Forall_cons_iff in Hseq. destruct Hseq as [Hx Hseq].
    unfold tail_text. cbn [flat_map]. rewrite <- !app_assoc.
    destruct Hd as [-> | ->].
    + eapply (stops_punctuation ","%rune COMMA); (reflexivity || discriminate).
    + apply stops_space. apply String_begins_value; [exact Hx|].
      destruct Hc as [[-> _] | [-> _]]; destruct seq; reflexivity.
Qed.

Lemma closed_tail delim close tok end_ rest :
  delimiter delim -> closer close tok ->
  forall seq, Forall (Renderable tbl) seq ->
  forall seq0 p,
    follows p (tail_text (separator delim) (String tbl) seq close rest) ->
    exists n p',
      parseSequence_from n end_ seq0 p
      = Return (fst (closed_sequence end_ tok (seq0 ++ seq)))
          (snd (closed_sequence end_ tok (seq0 ++ seq))) p'.
Proof.
  intros Hd Hc. induction seq as [|x seq IH]; intros Hr seq0 p H.
  - rewrite app_nil_r. unfold tail_text in H. cbn [flat_map app] in H.
    destruct (sequence_closed end_ close tok seq0 p rest Hc H) as [p' Hp'].
    now exists 1%nat, p'.
  - apply Forall_cons_iff in Hr. destruct Hr as [Hrx Hr].
    pose proof (stops_closed_tail delim close tok seq rest Hd Hc Hr) as Hstops.
    pose proof (String_begins_value tbl x _ Hrx (stops_terminated _ Hstops)) as Hbegins.
    set (tail := tail_text (separator delim) (String tbl) seq close rest) in *.
    assert (Hstep : forall p1, follows p1 (String tbl x ++ tail) ->
              exists n p',
                parseSequence_from n end_ seq0 p1
                = Return (fst (closed_sequence end_ tok (seq0 ++ x :: seq)))
                    (snd (closed_sequence end_ tok (seq0 ++ x :: seq))) p').
    { intros p1 H1.
      destruct (Renderable_parses_back tbl x Hrx tail p1 Hstops H1) as (k & p2 & Hk2 & Hf2).
      destruct (IH Hr (seq0 ++ [x]) p2 Hf2) as (m & p' & Hm).
      rewrite <- app_assoc in Hm. cbn [app] in Hm.
      destruct (sequence_element _ _ _ _ _ _ _ _ _ _ _ H1 Hbegins Hk2 Hm) as [n Hn].
      now exists n, p'. }
    assert (Htext : tail_text (separator delim) (String tbl) (x :: seq) close rest
                    = separator delim ++ String tbl x ++ tail).
    { unfold tail, tail_text. cbn [flat_map]. now rewrite <- !app_assoc. }
    rewrite Htext in H.
    destruct Hd as [-> | ->].
    + change (separator ","%rune) with [","%rune; " "%rune] in H. cbn [app] in H.
      destruct (Hstep (parser_at (" "%rune :: String tbl x ++ tail) (Some ","%rune)
                         COMMA [","%rune])) as (m & p' & Hm).
      { unfold follows. rewrite scanIgnoreWhitespace_parser_at.
        now apply scanIgnoreWhitespace_space. }
      destruct (sequence_comma _ _ _ _ _ _ _ _ H Hm) as [n Hn].
      now exists n, p'.
    + change (separator 0) with [" "%rune] in H. cbn [app] in H.
      apply Hstep. unfold follows. rewrite H. now apply scanIgnoreWhitespace_space.
Qed.

(** [Parse] of a sequence written with either delimiter and closed by
    either closing rune. *)
Lemma Parse_written_sequence open delim close end_ tok seq :
  opener open end_ -> delimiter delim -> closer close tok ->
  Forall (Renderable tbl) seq ->
  Parse (sequenceToString (String tbl) seq open delim close)
  = Returned (fst (closed_sequence end_ tok seq)) (snd (closed_sequence end_ tok seq)).
Proof.
  intros Ho Hd Hc Hr.
  rewrite sequenceToString_eq.
  set (t := items_text (separator delim) (String tbl) seq ++ [close]).
  assert (Hitems : exists n p',
            parseSequence_from n end_ [] (parser_at t (Some open) ILLEGAL [])
            = Return (fst (closed_sequence end_ tok seq))
                (snd (closed_sequence end_ tok seq)) p').
  { subst t. destruct seq as [|x seq].
    - apply (closed_tail delim close tok end_ [] Hd Hc [] Hr [] _
               (follows_parser_at _ _ _ _)).
    - apply Forall_cons_iff in Hr. destruct Hr as [Hrx Hr].
      pose proof (stops_closed_tail delim close tok seq [] Hd Hc Hr) as Hstops.
      pose proof (String_begins_value tbl x _ Hrx (stops_terminated _ Hstops)) as Hbegins.
      cbn [items_text]. rewrite <- app_assoc.
      fold (tail_text (separator delim) (String tbl) seq close []).
      destruct (Renderable_parses_back tbl x Hrx _ _ Hstops
                  (follows_parser_at _ (Some open) ILLEGAL []))
        as (k & p2 & Hk2 & Hf2).
      destruct (closed_tail delim close tok end_ [] Hd Hc seq Hr [x] p2 Hf2)
        as (m & p' & Hm).
      destruct (sequence_element _ [] _ _ _ _ _ _ _ _ _
                  (follows_parser_at _ (Some open) ILLEGAL []) Hbegins Hk2 Hm) as [n Hn].
      now exists n, p'. }
  destruct Hitems as (n & p' & Hn).
  apply (Parse_parse (S (S (S n))) _ _ _ p').
  assert (Hopen : punctuation open
                  = Some (if Token_eqb end_ CLOSE_PAREN then OPEN_PAREN else OPEN_BRACKET)).
  { destruct Ho as [[-> ->] | [-> ->]]; reflexivity. }
  rewrite (parse_of_token _ _ _ _ [open] _ (follows_parser_at _ None ILLEGAL [])
             (scanIgnoreWhitespace_punctuation open _ t None ILLEGAL [] Hopen)).
  rewrite parseToken_S.
  assert (E : parseSequence_from n end_ []
                (parser_at t (Some open)
                   (if Token_eqb end_ CLOSE_PAREN then OPEN_PAREN else OPEN_BRACKET) [open])
              = parseSequence_from n end_ [] (parser_at t (Some open) ILLEGAL [])).
  { unfold parseSequence_from. now rewrite !(scanIgnoreWhitespace_parser_at t (Some open)). }
  destruct Ho as [[_ ->] | [_ ->]]; cbn [Token_eqb] in *;
    rewrite parseSequence_S; unfold parseSequence_from in E, Hn; now rewrite E.
Qed.

End WrittenSequences.
(** * Structs with bare or quoted field names, with or without commas *)

Section WrittenStructs.

Variable tbl : rune -> bool.

(** The text of a field, and the fields whose names it can write. *)
Variable ft : Field -> str.
Variable ok : Field -> Prop.

Hypothesis ft_begins : forall f tail, ok f -> begins_value (ft f ++ tail).

Hypothesis ft_field : forall fields0 f p tail,
  ok f -> Renderable tbl (Value' f) -> stops tail -> follows p (ft f ++ tail) ->
  exists p2,
    follows p2 tail
    /\ forall m val e p',
         parseStruct_from m (fields0 ++ [f]) p2 = Return val e p' ->
         exists n, parseStruct_from n fields0 p = Return val e p'.

Variable sep : str.
Hypothesis Hsep : field_separator sep.

Lemma stops_fields_tail fields rest :
  Forall ok fields -> stops (tail_text sep ft fields "}"%rune rest).
Proof.
  intros Hok. destruct fields as [|f fields].
  - eapply (stops_punctuation "}"%rune CLOSE_BRACE); (reflexivity || discriminate).
  - apply Forall_cons_iff in Hok. destruct Hok as [Hf _].
    unfold tail_text. cbn [flat_map]. rewrite <- !app_assoc.
    destruct Hsep as [-> | ->].
    + eapply (stops_punctuation ","%rune COMMA); (reflexivity || discriminate).
    + apply stops_space. now apply ft_begins.
Qed.

Lemma fields_tail rest :
  forall fields,
    Forall ok fields -> Forall (fun f => Renderable tbl (Value' f)) fields ->
    forall fields0 p,
      follows p (tail_text sep ft fields "}"%rune rest) ->
      exists n p',
        parseStruct_from n fields0 p
        = Return (Some (StructValue (fields0 ++ fields))) None p'
        /\ follows p' rest.
Proof.
  induction fields as [|f fields IH]; intros Hok Hr fields0 p H.
  - rewrite app_nil_r. destruct (struct_end fields0 p rest H) as [p' Hp'].
    now exists 1%nat, p'.
  - apply Forall_cons_iff in Hok, Hr.
    destruct Hok as [Hf Hok], Hr as [Hrf Hr].
    pose proof (stops_fields_tail fields rest Hok) as Hstops.
    set (tail := tail_text sep ft fields "}"%rune rest) in *.
    assert (Hstep : forall p1, follows p1 (ft f ++ tail) ->
              exists n p',
                parseStruct_from n fields0 p1
                = Return (Some (StructValue (fields0 ++ f :: fields))) None p'
                /\ follows p' rest).
    { intros p1 H1.
      destruct (ft_field fields0 f p1 tail Hf Hrf Hstops H1) as (p2 & Hf2 & Hstep).
      destruct (IH Hok Hr (fields0 ++ [f]) p2 Hf2) as (m & p' & Hm & Hf').
      rewrite <- app_assoc in Hm. cbn [app] in Hm.
      destruct (Hstep _ _ _ _ Hm) as [n Hn]. now exists n, p'. }
    assert (Htext : tail_text sep ft (f :: fields) "}"%rune rest = sep ++ ft f ++ tail).
    { unfold tail, tail_text. cbn [flat_map]. now rewrite <- !app_assoc. }
    rewrite Htext in H.
    destruct Hsep as [E | E]; rewrite E in H.
    + change (runes ", " ++ ft f ++ tail)
        with (","%rune :: " "%rune :: ft f ++ tail) in H.
      destruct (Hstep (parser_at (" "%rune :: ft f ++ tail) (Some ","%rune)
                         COMMA [","%rune])) as (m & p' & Hm & Hf').
      { unfold follows. rewrite scanIgnoreWhitespace_parser_at.
        apply scanIgnoreWhitespace_space. now apply ft_begins. }
      destruct (struct_comma _ _ _ _ _ _ _ H Hm) as [n Hn].
      now exists n, p'.
    + change (runes " " ++ ft f ++ tail) with (" "%rune :: ft f ++ tail) in H.
      apply Hstep. unfold follows. rewrite H.
      apply scanIgnoreWhitespace_space. now apply ft_begins.
Qed.

Lemma Parse_written_struct fields :
  Forall ok fields -> Forall (fun f => Renderable tbl (Value' f)) fields ->
  Parse ("{"%rune :: items_text sep ft fields ++ ["}"%rune])
  = Returned (Some (StructValue fields)) None.
Proof.
  intros Hok Hr.
  set (t := items_text sep ft fields ++ ["}"%rune]).
  assert (Hitems : exists n p',
            parseStruct_from n [] (parser_at t (Some "{"%rune) OPEN_BRACE ["{"%rune])
            = Return (Some (StructValue fields)) None p').
  { subst t. destruct fields as [|f fields].
    - destruct (fields_tail [] [] Hok Hr []
                  (parser_at ["}"%rune] (Some "{"%rune) OPEN_BRACE ["{"%rune])
                  (follows_parser_at _ _ _ _))
        as (n & p' & Hn & _). now exists n, p'.
    - apply Forall_cons_iff in Hok, Hr.
      destruct Hok as [Hf Hok], Hr as [Hrf Hr].
      cbn [items_text]. rewrite <- app_assoc.
      fold (tail_text sep ft fields "}"%rune []).
      destruct (ft_field [] f _ _ Hf Hrf (stops_fields_tail fields [] Hok)
                  (follows_parser_at _ (Some "{"%rune) OPEN_BRACE ["{"%rune]))
        as (p2 & Hf2 & Hstep).
      destruct (fields_tail [] fields Hok Hr [f] p2 Hf2) as (m & p' & Hm & _).
      destruct (Hstep _ _ _ _ Hm) as [n Hn]. now exists n, p'. }
  destruct Hitems as (n & p' & Hn).
  apply (Parse_parse (S (S (S n))) _ _ _ p').
  rewrite (parse_of_token _ _ _ OPEN_BRACE ["{"%rune] _ (follows_parser_at _ None ILLEGAL [])
             (scanIgnoreWhitespace_punctuation "{"%rune OPEN_BRACE t None ILLEGAL []
                eq_refl)).
  rewrite parseToken_S. cbn [Token_eqb]. rewrite parseStruct_S. exact Hn.
Qed.

End WrittenStructs.

Section FieldNames.

Variable tbl : rune -> bool.

Lemma bare_field fields0 f p tail :
  field_name (Name f) = true -> Renderable tbl (Value' f) -> stops tail ->
  follows p (field_text (String tbl) f ++ tail) ->
  exists p2,
    follows p2 tail
    /\ forall m val e p',
         parseStruct_from m (fields0 ++ [f]) p2 = Return val e p' ->
         exists n, parseStruct_from n fields0 p = Return val e p'.
Proof.
  intros Hn Hr. apply struct_field; [exact Hn|exact Hr|].
  now apply Renderable_parses_back.
Qed.

Lemma begins_quoted_field f tail :
  string_text tbl (Name f) = true ->
  begins_value (quoted_field_text tbl (String tbl) f ++ tail).
Proof.
  intros Hn. unfold quoted_field_text. rewrite <- app_assoc.
  exists dquote, (tl (Quote tbl (Name f) ++ (runes ": " ++ String tbl (Value' f)) ++ tail)),
    STRING, (Name f), ((runes ": " ++ String tbl (Value' f)) ++ tail), (Some dquote).
  split; [reflexivity|]. split; [reflexivity|]. split; [discriminate|].
  split; [|reflexivity]. now apply Scan_quoted_string.
Qed.

Lemma quoted_field fields0 f p tail :
  string_text tbl (Name f) = true -> Renderable tbl (Value' f) -> stops tail ->
  follows p (quoted_field_text tbl (String tbl) f ++ tail) ->
  exists p2,
    follows p2 tail
    /\ forall m val e p',
         parseStruct_from m (fields0 ++ [f]) p2 = Return val e p' ->
         exists n, parseStruct_from n fields0 p = Return val e p'.
Proof.
  intros Hn Hr Htail H.
  pose proof (String_begins_value tbl _ _ Hr (stops_terminated _ Htail)) as Hbegins.
  unfold quoted_field_text in H. rewrite <- !app_assoc in H.
  set (t := String tbl (Value' f) ++ tail) in *.
  destruct (Renderable_parses_back tbl _ Hr tail
              (parser_at (" "%rune :: t) None COLON (runes ":")) Htail)
    as (k & p2 & Hk & Hf2).
  { unfold follows. rewrite scanIgnoreWhitespace_parser_at.
    now apply scanIgnoreWhitespace_space. }
  exists p2. split; [exact Hf2|]. intros m val e p' Hm.
  exists (S (S (k + m))). unfold parseStruct_from at 1.
  rewrite H.
  rewrite (scanIgnoreWhitespace_token _ None ILLEGAL [] _ _ _ _
             (Scan_quoted_string tbl (Name f) (runes ": " ++ t) None [] Hn))
    by discriminate.
  rewrite parseStruct_loop_S. cbn [Token_eqb]. rewrite parseToken_S.
  cbn [StringValue Type' Type_eqb negb andb Text].
  rewrite scanIgnoreWhitespace_colon. cbn [Token_eqb negb].
  rewrite (parse_more _ (S (k + m)) _ _ _ _ Hk) by lia.
  destruct f as [name value]. cbn [Name Value'] in *.
  apply (parseStruct_from_more _ _ _ _ _ _ _ Hm). lia.
Qed.

End FieldNames.
(** * The hard errors of a struct *)

Lemma closing_rune_punctuation c tok :
  closing_rune c tok ->
  punctuation c = Some tok /\ ends_identifier [c] = true
  /\ isWhitespace c = false /\ c <> eof.
Proof.
  intros [[-> ->] | [[-> ->] | [-> ->]]]; repeat split; discriminate.
Qed.

Lemma parse_open_brace n t :
  parse (S (S (S n))) (parser_at ("{"%rune :: t) None ILLEGAL [])
  = parseStruct_from n [] (parser_at t None ILLEGAL []).
Proof.
  rewrite (parse_of_token _ _ _ OPEN_BRACE ["{"%rune] _ (follows_parser_at _ None ILLEGAL [])
             (scanIgnoreWhitespace_punctuation "{"%rune OPEN_BRACE t None ILLEGAL []
                eq_refl)).
  rewrite parseToken_S. cbn [Token_eqb]. rewrite parseStruct_S.
  unfold parseStruct_from. now rewrite scanIgnoreWhitespace_parser_at.
Qed.

Lemma Type_eqb_neq a b : a <> b -> Type_eqb a b = false.
Proof. destruct a, b; intros H; try reflexivity; now destruct H. Qed.

(** The name of a field is read by [parseToken] as any value is. *)
Lemma parse_invalid_field_name tbl v rest :
  Renderable tbl v -> Type' v <> SymbolType -> Type' v <> StringType -> stops rest ->
  exists n p',
    parseStruct_from n [] (parser_at (String tbl v ++ rest) None ILLEGAL [])
    = Return None (Some (ErrInvalidFieldName v)) p'.
Proof.
  intros Hv Hsym Hstr Hrest.
  destruct (Renderable_parses_back tbl v Hv rest _ Hrest
              (follows_parser_at (String tbl v ++ rest) None ILLEGAL []))
    as (k & p2 & Hk & _).
  destruct (String_begins_value tbl v rest Hv (stops_terminated _ Hrest))
    as (c & t0 & tok & lit & t' & u' & Et & _ & _ & Hscan & Htok).
  destruct (value_token_not tok Htok) as (Hw & _ & Heof & Hcomma & Hbrace & _).
  rewrite Et in *.
  pose proof (scanIgnoreWhitespace_token _ None ILLEGAL [] _ _ _ _ Hscan Hw) as E.
  destruct k as [|k]; [discriminate|].
  rewrite (parse_of_token _ _ _ _ _ _ (follows_parser_at _ None ILLEGAL []) E) in Hk.
  exists (S k), p2.
  unfold parseStruct_from. rewrite E, parseStruct_loop_S.
  apply Token_eqb_neq in Heof, Hcomma, Hbrace. rewrite Heof, Hcomma, Hbrace, Hk.
  now rewrite (Type_eqb_neq _ _ Hsym), (Type_eqb_neq _ _ Hstr).
Qed.

Lemma parse_bare_name n a rest tok lit t' u' fields0 :
  field_name a = true -> ends_identifier rest = true ->
  scanIgnoreWhitespace (parser_at rest None ILLEGAL []) = (tok, lit, parser_at t' u' tok lit) ->
  tok <> DOUBLE_COLON -> tok <> WHITESPACE ->
  parseStruct_from (S (S n)) fields0 (parser_at (a ++ rest) None ILLEGAL [])
  = if negb (Token_eqb tok COLON)
    then Return None (Some (ErrBadStructSyntax tok)) (parser_at t' u' tok lit)
    else
      match parse (S n) (parser_at t' u' tok lit) with
      | Return _ (Some e) p => Return None (Some e) p
      | Return None None p => Panic
      | Return (Some elem) None p =>
          parseStruct_from (S n) (fields0 ++ [mkField a elem]) p
      | o => o
      end.
Proof.
  intros Hn Hends Hscan Hdc Hw.
  apply andb_prop in Hn. destruct Hn as [Hid Hkw]. apply negb_true_iff in Hkw.
  unfold parseStruct_from at 1.
  rewrite (scanIgnoreWhitespace_identifier a rest None ILLEGAL [] Hid Hends).
  rewrite parseStruct_loop_S. cbn [Token_eqb].
  destruct (parseToken_SYMBOL n a rest None SYMBOL a) as (p1 & Hp1 & Hf1).
  { now exists tok, lit, t', u'. }
  rewrite Hp1, (symbol_value_not_keyword _ Hkw).
  cbn [SymbolValue Type' Type_eqb negb andb Text].
  rewrite Hf1, Hscan. reflexivity.
Qed.

Lemma parse_missing_colon a c tok t :
  field_name a = true -> closing_rune c tok ->
  parseStruct_from 2 [] (parser_at (a ++ c :: t) None ILLEGAL [])
  = Return None (Some (ErrBadStructSyntax tok)) (parser_at t (Some c) tok [c]).
Proof.
  intros Ha Hc. destruct (closing_rune_punctuation c tok Hc) as (Hp & He & _).
  rewrite (parse_bare_name 0 a (c :: t) tok [c] t (Some c) [] Ha He
             (scanIgnoreWhitespace_punctuation c tok t None ILLEGAL [] Hp)).
  - destruct Hc as [[_ ->] | [[_ ->] | [_ ->]]]; reflexivity.
  - destruct Hc as [[_ ->] | [[_ ->] | [_ ->]]]; discriminate.
  - destruct Hc as [[_ ->] | [[_ ->] | [_ ->]]]; discriminate.
Qed.

Lemma parse_missing_value a c tok t :
  field_name a = true -> closing_rune c tok ->
  parseStruct_from 3 [] (parser_at (a ++ runes ": " ++ c :: t) None ILLEGAL [])
  = Return None (Some (ErrUnexpected tok)) (parser_at t (Some c) tok [c]).
Proof.
  intros Ha Hc. destruct (closing_rune_punctuation c tok Hc) as (Hp & _ & Hw & Heof).
  rewrite (parse_bare_name 1 a (runes ": " ++ c :: t) COLON (runes ":")
             (" "%rune :: c :: t) None [] Ha eq_refl
             (scanIgnoreWhitespace_colon (c :: t) None ILLEGAL []))
    by discriminate.
  cbn [Token_eqb negb]. rewrite parse_S.
  assert (E : scanIgnoreWhitespace (parser_at (" "%rune :: c :: t) None COLON (runes ":"))
              = (tok, [c], parser_at t (Some c) tok [c])).
  { apply (scanIgnoreWhitespace_whitespace _ None COLON (runes ":") _ _ _ _ _ _ _
             (Scan_whitespace " "%rune [] c t None [] eq_refl Hw Heof)
             (Scan_punctuation c tok t None [] Hp)). }
  rewrite E.
  rewrite parseToken_S.
  destruct Hc as [[_ ->] | [[_ ->] | [_ ->]]]; reflexivity.
Qed.
(** * Integer literals *)

Lemma digit_value_nonneg c : 0 <= digit_value c.
Proof.
  unfold digit_value, digit_of.
  destruct (("0"%rune <=? c) && (c <=? "9"%rune)) eqn:E1; [lia|].
  destruct ((0 <=? c) && (c <? 128) && ("a"%rune <=? Z.lor c 32)
            && (Z.lor c 32 <=? "z"%rune)) eqn:E2; lia.
Qed.

Lemma number_value_cons base c s acc :
  number_value base (c :: s) acc = number_value base s (acc * base + digit_value c).
Proof. reflexivity. Qed.

Lemma number_value_ge base s : forall acc,
  1 <= base -> 0 <= acc -> acc <= number_value base s acc.
Proof.
  induction s as [|c s IH]; intros acc Hb Hacc; [cbn; lia|].
  rewrite number_value_cons. pose proof (digit_value_nonneg c).
  etransitivity; [|apply IH; nia]. nia.
Qed.

Lemma radix_digit k c :
  rune_in c (radix_digits k) = true ->
  exists d, digit_of c = Some d /\ 0 <= d < radix_base k.
Proof.
  destruct k; cbv -[Z.eqb orb digit_of Z.le Z.lt]; intros H;
    repeat match type of H with
           | ((c =? ?x) || _) = true =>
               revert H; destruct (Z.eqb_spec c x) as [-> | _]; intros H;
               [eexists; split; [cbv; reflexivity|lia]|cbn [orb] in H]
           end; discriminate H.
Qed.

Lemma radix_digit_not c d x :
  digit_of c = Some d -> digit_of x = None -> (c =? x) = false /\ (x =? c) = false.
Proof.
  intros Hc Hx. split; apply Z.eqb_neq; intros E; subst; congruence.
Qed.

Lemma ParseUint_loop_value base s :
  2 <= base <= 36 ->
  forallb (fun c => match digit_of c with
                    | Some d => d <? base
                    | None => false
                    end) s = true ->
  forall n, 0 <= n <= maxUint64 ->
    ParseUint_loop base s n
    = if number_value base s n <=? maxUint64 then Some (number_value base s n) else None.
Proof.
  intros Hb. induction s as [|c s IH]; intros Hs n Hn.
  - unfold number_value. cbn [fold_left ParseUint_loop].
    destruct (Z.leb_spec n maxUint64); [reflexivity|lia].
  - cbn [forallb] in Hs. apply andb_prop in Hs. destruct Hs as [Hc Hs].
    rewrite number_value_cons. cbn [ParseUint_loop]. unfold digit_value.
    pose proof (digit_value_nonneg c) as Hd0. unfold digit_value in Hd0.
    destruct (digit_of c) as [d|]; [|discriminate].
    replace (base <=? d) with false by lia.
    assert (Hmax : maxUint64 = 2 ^ 64 - 1) by reflexivity.
    pose proof (Z.div_mod maxUint64 base ltac:(lia)) as Hdm.
    pose proof (Z.mod_pos_bound maxUint64 base ltac:(lia)) as Hmb.
    destruct (Z.leb_spec (maxUint64 / base + 1) n) as [Hcut | Hcut].
    + pose proof (number_value_ge base s (n * base + d) ltac:(lia) ltac:(nia)).
      replace (number_value base s (n * base + d) <=? maxUint64) with false
        by (symmetry; apply Z.leb_gt; nia).
      reflexivity.
    + cbv zeta.
      destruct (Z.le_gt_cases (n * base + d) maxUint64) as [Hfit | Hover].
      * rewrite (Z.mod_small (n * base + d)) by nia.
        replace (n * base + d <? n * base) with false by lia.
        replace (maxUint64 <? n * base + d) with false by lia.
        cbn [orb]. apply IH; [exact Hs|nia].
      * assert (E : (n * base + d) mod 2 ^ 64 = n * base + d - 2 ^ 64).
        { symmetry. apply (Z.mod_unique _ _ 1); nia. }
        rewrite E.
        replace (n * base + d - 2 ^ 64 <? n * base) with true by lia.
        cbn [orb].
        pose proof (number_value_ge base s (n * base + d) ltac:(lia) ltac:(nia)).
        replace (number_value base s (n * base + d) <=? maxUint64) with false
          by (symmetry; apply Z.leb_gt; lia).
        reflexivity.
Qed.

Lemma radix_digits_ok k s :
  forallb (fun c => rune_in c (radix_digits k)) s = true ->
  forallb (fun c => match digit_of c with
                    | Some d => d <? radix_base k
                    | None => false
                    end) s = true
  /\ rune_in "."%rune s = false
  /\ forallb (fun c => negb (c =? eof)) s = true.
Proof.
  induction s as [|c s IH]; intros H; [now repeat split|].
  cbn [forallb] in H. apply andb_prop in H. destruct H as [Hc Hs].
  destruct (IH Hs) as (H1 & H2 & H3).
  destruct (radix_digit k c Hc) as (d & Hd & Hlt).
  split; [|split].
  - cbn [forallb]. rewrite Hd, H1. replace (d <? radix_base k) with true by lia.
    reflexivity.
  - unfold rune_in in *. cbn [existsb]. rewrite H2.
    now rewrite (proj2 (radix_digit_not c d "."%rune Hd eq_refl)).
  - cbn [forallb]. rewrite H3.
    now rewrite (proj1 (radix_digit_not c d eof Hd eq_refl)).
Qed.

Lemma ParseInt_value k c s :
  forallb (fun c => rune_in c (radix_digits k)) (c :: s) = true ->
  ParseInt (c :: s) (radix_base k)
  = if number_value (radix_base k) (c :: s) 0 <? 2 ^ 63
    then Some (number_value (radix_base k) (c :: s) 0) else None.
Proof.
  intros H. destruct (radix_digits_ok k (c :: s) H) as (Hd & _ & _).
  assert (Hc : rune_in c (radix_digits k) = true).
  { cbn [forallb] in H. now apply andb_prop in H. }
  destruct (radix_digit k c Hc) as (d & Ed & _).
  unfold ParseInt.
  rewrite (proj1 (radix_digit_not c d "+"%rune Ed eq_refl)).
  rewrite (proj1 (radix_digit_not c d "-"%rune Ed eq_refl)).
  unfold ParseUint.
  replace ((radix_base k <? 2) || (36 <? radix_base k)) with false
    by (destruct k; reflexivity).
  rewrite (ParseUint_loop_value (radix_base k) (c :: s)) by
    (try exact Hd; destruct k; cbn; unfold maxUint64; lia).
  pose proof (number_value_ge (radix_base k) (c :: s) 0
                ltac:(destruct k; cbn; lia) ltac:(lia)) as Hge.
  assert (Hmax : maxUint64 = 2 ^ 64 - 1) by reflexivity.
  destruct (Z.leb_spec (number_value (radix_base k) (c :: s) 0) maxUint64);
    cbn [negb andb];
    destruct (Z.ltb_spec (number_value (radix_base k) (c :: s) 0) (2 ^ 63));
    destruct (Z.leb_spec (2 ^ 63) (number_value (radix_base k) (c :: s) 0));
    try lia; reflexivity.
Qed.

Lemma scanNumber_loop_all digits ds : forall buf,
  forallb (fun c => negb (c =? eof)) ds = true ->
  forallb (fun c => rune_in c digits) ds = true ->
  scanNumber_loop digits ds buf = (buf ++ ds, mkReader [] None).
Proof.
  induction ds as [|c ds IH]; intros buf H0 Hin.
  - now rewrite app_nil_r.
  - cbn [forallb] in H0, Hin. apply andb_prop in H0, Hin.
    destruct H0 as [Hc0 H0], Hin as [Hc Hin]. apply negb_true_iff in Hc0.
    cbn [scanNumber_loop]. rewrite Hc0, Hc, (IH _ H0 Hin).
    now rewrite <- app_assoc.
Qed.

Lemma rune_in_app c a b : rune_in c a = true -> rune_in c (a ++ b) = true.
Proof.
  unfold rune_in. intros H. rewrite existsb_app. apply orb_true_iff. now left.
Qed.

Lemma Scan_radix_literal k c s :
  forallb (fun c => rune_in c (radix_digits k)) (c :: s) = true ->
  Scan (mkScanner (mkReader (radix_prefix k ++ c :: s) None) ILLEGAL [])
  = (NUMBER, radix_prefix k ++ c :: s, mkScanner (mkReader [] None) ILLEGAL []).
Proof.
  intros H. destruct (radix_digits_ok k (c :: s) H) as (_ & _ & H0).
  destruct k.
  - cbn [radix_prefix app].
    rewrite <- (app_nil_r (c :: s)) at 1.
    apply Scan_number; [|reflexivity].
    apply forallb_forall. intros x Hx.
    pose proof (proj1 (forallb_forall _ _) H x Hx) as Hin.
    destruct (radix_digit Decimal x Hin) as (d & Hd & Hlt).
    revert Hin. cbv -[Z.eqb orb isDigit]. intros Hin.
    repeat match type of Hin with
           | ((x =? ?y) || _) = true =>
               revert Hin; destruct (Z.eqb_spec x y) as [-> | _]; intros Hin;
               [reflexivity|cbn [orb] in Hin]
           end; discriminate Hin.
  - apply (Scan_fuel_Scan 1). rewrite Scan_fuel_S.
    cbn -[scanNumber_loop].
    rewrite (scanNumber_loop_all _ (c :: s) _ H0); [reflexivity|].
    apply forallb_forall. intros x Hx.
    pose proof (proj1 (forallb_forall _ _) H x Hx) as Hin.
    apply (rune_in_app x (radix_digits Hexadecimal) (runes ".")). exact Hin.
  - apply (Scan_fuel_Scan 1). rewrite Scan_fuel_S.
    cbn -[scanNumber_loop].
    rewrite (scanNumber_loop_all _ (c :: s) _ H0); [reflexivity|].
    apply forallb_forall. intros x Hx.
    pose proof (proj1 (forallb_forall _ _) H x Hx) as Hin.
    apply (rune_in_app x (radix_digits Binary) (runes ".")). exact Hin.
Qed.

Lemma NUMBER_value_radix k c s p :
  forallb (fun c => rune_in c (radix_digits k)) (c :: s) = true ->
  NUMBER_value (radix_prefix k ++ c :: s) p
  = match ParseInt (c :: s) (radix_base k) with
    | None => Return None (Some (ErrCannotParseInt (radix_base k) (c :: s))) p
    | Some i => Return (Some (IntValue i)) None p
    end.
Proof.
  intros H. destruct (radix_digits_ok k (c :: s) H) as (_ & Hdot & _).
  assert (Hc : rune_in c (radix_digits k) = true).
  { cbn [forallb] in H. now apply andb_prop in H. }
  destruct (radix_digit k c Hc) as (d & Ed & _).
  unfold NUMBER_value. destruct k; cbn [radix_prefix app radix_base].
  - rewrite Hdot.
    assert (E1 : HasPrefix (c :: s) (runes "0x") = false).
    { change (runes "0x") with ["0"%rune; "x"%rune].
      destruct s as [|c2 s]; cbn [HasPrefix]; [now rewrite andb_false_r|].
      assert (Hc2 : rune_in c2 (radix_digits Decimal) = true).
      { cbn [forallb] in H. apply andb_prop in H. destruct H as [_ H].
        now apply andb_prop in H. }
      destruct (radix_digit Decimal c2 Hc2) as (d2 & Ed2 & Hd2).
      assert (E : ("x"%rune =? c2) = false).
      { apply Z.eqb_neq. intros <-. cbv in Ed2. inversion Ed2. subst d2.
        cbn in Hd2. lia. }
      rewrite E. cbn [andb]. apply andb_false_r. }
    assert (E2 : HasPrefix (c :: s) (runes "0b") = false).
    { change (runes "0b") with ["0"%rune; "b"%rune].
      destruct s as [|c2 s]; cbn [HasPrefix]; [now rewrite andb_false_r|].
      assert (Hc2 : rune_in c2 (radix_digits Decimal) = true).
      { cbn [forallb] in H. apply andb_prop in H. destruct H as [_ H].
        now apply andb_prop in H. }
      destruct (radix_digit Decimal c2 Hc2) as (d2 & Ed2 & Hd2).
      assert (E : ("b"%rune =? c2) = false).
      { apply Z.eqb_neq. intros <-. cbv in Ed2. inversion Ed2. subst d2.
        cbn in Hd2. lia. }
      rewrite E. cbn [andb]. apply andb_false_r. }
    now rewrite E1, E2.
  - change (runes "0x" ++ c :: s) with ("0"%rune :: "x"%rune :: c :: s).
    assert (E : rune_in "."%rune ("0"%rune :: "x"%rune :: c :: s) = false).
    { unfold rune_in in *. cbn [existsb] in *. now rewrite Hdot. }
    rewrite E. reflexivity.
  - change (runes "0b" ++ c :: s) with ("0"%rune :: "b"%rune :: c :: s).
    assert (E : rune_in "."%rune ("0"%rune :: "b"%rune :: c :: s) = false).
    { unfold rune_in in *. cbn [existsb] in *. now rewrite Hdot. }
    rewrite E. reflexivity.
Qed.

(** * The name of the source *)

Lemma scan_with_source src p :
  scan (with_source src p)
  = let '(tok, lit, p') := scan p in (tok, lit, with_source src p').
Proof.
  unfold scan, with_source. cbn [buf_n scanner err source buf_tok buf_lit].
  destruct (negb (buf_n p =? 0)); [reflexivity|].
  destruct (Scan (scanner p)) as [[tok lit] s]. reflexivity.
Qed.

Lemma scanIgnoreWhitespace_with_source src p :
  scanIgnoreWhitespace (with_source src p)
  = let '(tok, lit, p') := scanIgnoreWhitespace p in (tok, lit, with_source src p').
Proof.
  unfold scanIgnoreWhitespace. rewrite scan_with_source.
  destruct (scan p) as [[tok lit] p1].
  destruct (Token_eqb tok WHITESPACE); [apply scan_with_source|reflexivity].
Qed.

Lemma NUMBER_value_with_source src lit p :
  NUMBER_value lit (with_source src p) = outcome_with_source src (NUMBER_value lit p).
Proof.
  unfold NUMBER_value. destruct (rune_in "."%rune lit).
  - destruct (if negb (HasPrefix lit (runes "0x")) && negb (HasPrefix lit (runes "0b"))
              then ParseFloat lit else None); reflexivity.
  - destruct (if HasPrefix lit (runes "0x") then (16, skipn 2 lit)
              else if HasPrefix lit (runes "0b") then (2, skipn 2 lit)
              else (10, lit)) as [base lit'].
    destruct (ParseInt lit' base); reflexivity.
Qed.

Lemma parser_with_source src : forall n,
  (forall p, parse n (with_source src p) = outcome_with_source src (parse n p))
  /\ (forall tok lit p,
        parseToken n tok lit (with_source src p)
        = outcome_with_source src (parseToken n tok lit p))
  /\ (forall end_ p,
        parseSequence n end_ (with_source src p)
        = outcome_with_source src (parseSequence n end_ p))
  /\ (forall end_ seq tok lit p,
        parseSequence_loop n end_ seq tok lit (with_source src p)
        = outcome_with_source src (parseSequence_loop n end_ seq tok lit p))
  /\ (forall p,
        parseStruct n (with_source src p) = outcome_with_source src (parseStruct n p))
  /\ (forall fields tok lit p,
        parseStruct_loop n fields tok lit (with_source src p)
        = outcome_with_source src (parseStruct_loop n fields tok lit p)).
Proof.
  induction n as [|n IH]; [now repeat split|].
  destruct IH as (Hp & Ht & Hs & Hsl & Hst & Hstl).
  split; [|split; [|split; [|split; [|split]]]].
  - intros p. rewrite !parse_S, scanIgnoreWhitespace_with_source.
    destruct (scanIgnoreWhitespace p) as [[tok lit] p1]. apply Ht.
  - intros tok lit p. rewrite !parseToken_S.
    destruct tok; try reflexivity; auto using NUMBER_value_with_source.
    rewrite scanIgnoreWhitespace_with_source.
    destruct (scanIgnoreWhitespace p) as [[nt nl] p1].
    destruct (Token_eqb nt DOUBLE_COLON).
    + rewrite Hp. destruct (parse n p1) as [val e p2| |]; try reflexivity.
      destruct e, val; reflexivity.
    + destruct (str_eqb lit (runes "true")); [reflexivity|].
      destruct (str_eqb lit (runes "false")); [reflexivity|].
      destruct (str_eqb lit (runes "null")); reflexivity.
  - intros end_ p. rewrite !parseSequence_S, scanIgnoreWhitespace_with_source.
    destruct (scanIgnoreWhitespace p) as [[tok lit] p1]. apply Hsl.
  - intros end_ seq tok lit p. rewrite !parseSequence_loop_S.
    destruct (Token_eqb tok EOF); [reflexivity|].
    destruct (Token_eqb tok CLOSE_BRACKET || Token_eqb tok CLOSE_PAREN).
    { destruct (negb (Token_eqb end_ tok)); [reflexivity|].
      destruct (Token_eqb end_ CLOSE_PAREN); reflexivity. }
    rewrite Ht. destruct (parseToken n tok lit p) as [val e p1| |]; try reflexivity.
    cbn [outcome_with_source]. destruct e; [reflexivity|].
    rewrite scanIgnoreWhitespace_with_source.
    destruct (scanIgnoreWhitespace p1) as [[tok' lit'] p2]. apply Hsl.
  - intros p. rewrite !parseStruct_S, scanIgnoreWhitespace_with_source.
    destruct (scanIgnoreWhitespace p) as [[tok lit] p1]. apply Hstl.
  - intros fields tok lit p. rewrite !parseStruct_loop_S.
    destruct (Token_eqb tok EOF); [reflexivity|].
    destruct (Token_eqb tok CLOSE_BRACE); [reflexivity|].
    destruct (Token_eqb tok COMMA).
    { rewrite scanIgnoreWhitespace_with_source.
      destruct (scanIgnoreWhitespace p) as [[tok' lit'] p1]. apply Hstl. }
    rewrite Ht. destruct (parseToken n tok lit p) as [val e p1| |]; try reflexivity.
    cbn [outcome_with_source]. destruct val as [elem|], e; try reflexivity.
    destruct (negb (Type_eqb (Type' elem) SymbolType)
              && negb (Type_eqb (Type' elem) StringType)); [reflexivity|].
    rewrite scanIgnoreWhitespace_with_source.
    destruct (scanIgnoreWhitespace p1) as [[tok' lit'] p2].
    destruct (negb (Token_eqb tok' COLON)); [reflexivity|].
    rewrite Hp. destruct (parse n p2) as [val2 e2 p3| |]; try reflexivity.
    cbn [outcome_with_source]. destruct val2 as [elem2|], e2; try reflexivity.
    rewrite scanIgnoreWhitespace_with_source.
    destruct (scanIgnoreWhitespace p3) as [[tok3 lit3] p4]. apply Hstl.
Qed.

Lemma result_of_with_source src o : result_of (outcome_with_source src o) = result_of o.
Proof. destruct o; reflexivity. Qed.
(** * Literals with a point *)

Lemma isDigit_digit_value c : isDigit c = true -> c - "0"%rune = digit_value c.
Proof.
  intros H. unfold digit_value, digit_of. fold (isDigit c). now rewrite H.
Qed.

Lemma readFloat_digits s : forall rest mantissa sawdot sawdigits fraction,
  forallb isDigit s = true ->
  readFloat (s ++ rest) mantissa sawdot sawdigits fraction
  = readFloat rest (number_value 10 s mantissa) sawdot
      (sawdigits || negb (match s with [] => true | _ => false end))
      (if sawdot then fraction + Z.of_nat (List.length s) else fraction).
Proof.
  induction s as [|c s IH]; intros rest mantissa sawdot sawdigits fraction H.
  - cbn [app number_value fold_left List.length negb]. rewrite orb_false_r.
    destruct sawdot; [now rewrite Z.add_0_r|reflexivity].
  - cbn [forallb] in H. apply andb_prop in H. destruct H as [Hc Hs].
    cbn [app readFloat]. rewrite Hc.
    replace (c =? "."%rune) with false by (unfold isDigit in Hc; lia).
    rewrite (IH _ _ _ _ _ Hs), number_value_cons, (isDigit_digit_value c Hc).
    cbn [negb]. rewrite orb_true_r.
    destruct sawdot; [|reflexivity].
    f_equal. cbn [List.length]. lia.
Qed.

Lemma isDigit_not_eof s :
  forallb (fun c => rune_in c (runes "0123456789.")) s = true ->
  forallb (fun c => negb (c =? eof)) s = true.
Proof.
  intros H. apply forallb_forall. intros x Hx.
  pose proof (proj1 (forallb_forall _ _) H x Hx) as Hin.
  apply negb_true_iff, Z.eqb_neq. intros ->. discriminate Hin.
Qed.

(** A literal of decimal digits and points is one NUMBER token. *)
Lemma Scan_decimal_literal d l :
  isDigit d = true ->
  forallb (fun c => rune_in c (runes "0123456789.")) l = true ->
  Scan (mkScanner (mkReader (d :: l) None) ILLEGAL [])
  = (NUMBER, d :: l, mkScanner (mkReader [] None) ILLEGAL []).
Proof.
  intros Hd Hl. pose proof (isDigit_not_eof l Hl) as H0.
  apply (Scan_fuel_Scan 1). rewrite Scan_fuel_S.
  cbn -[isWhitespace isLetter isDigit Z.eqb scanNumber].
  replace (isWhitespace d) with false
    by (unfold isWhitespace, tab, newline; unfold isDigit in Hd; lia).
  replace (isLetter d) with false by (unfold isLetter; unfold isDigit in Hd; lia).
  unfold eof at 1.
  repeat match goal with
         | |- context [d =? ?k] =>
             replace (d =? k) with false by (unfold isDigit, dquote in *; lia)
         end.
  rewrite Hd. unfold scanNumber.
  destruct l as [|c l]; [reflexivity|].
  assert (E : scanNumber_loop (runes "0123456789.") (c :: l) [d]
              = ([d] ++ c :: l, mkReader [] None)).
  { now apply scanNumber_loop_all. }
  cbn [forallb] in Hl, H0. apply andb_prop in Hl, H0.
  destruct Hl as [Hc Hl], H0 as [Hc0 H0].
  assert (Hx : (c =? "x"%rune) = false).
  { apply Z.eqb_neq. intros ->. discriminate Hc. }
  assert (Hb : (c =? "b"%rune) = false).
  { apply Z.eqb_neq. intros ->. discriminate Hc. }
  remember (runes "0123456789.") as digits eqn:Edigits.
  cbn -[Z.eqb scanNumber_loop]. rewrite Hc0, Hx, Hb.
  destruct (d =? "0"%rune); cbn -[scanNumber_loop]; rewrite E; reflexivity.
Qed.

Lemma rune_in_digits_dot s1 s2 :
  forallb isDigit s1 = true ->
  forallb (fun c => rune_in c (runes "0123456789.")) s2 = true ->
  forallb (fun c => rune_in c (runes "0123456789.")) (s1 ++ "."%rune :: s2) = true
  /\ rune_in "."%rune (s1 ++ "."%rune :: s2) = true.
Proof.
  intros H1 H2. split.
  - rewrite forallb_app. cbn [forallb]. rewrite H2.
    replace (forallb (fun c => rune_in c (runes "0123456789.")) s1) with true;
      [reflexivity|].
    symmetry. apply forallb_forall. intros x Hx.
    apply isDigit_in_digits. exact (proj1 (forallb_forall _ _) H1 x Hx).
  - unfold rune_in. rewrite existsb_app. cbn [existsb].
    rewrite Z.eqb_refl. cbn [orb]. apply orb_true_r.
Qed.

Lemma rune_in_not_eof digits s :
  rune_in eof digits = false ->
  forallb (fun c => rune_in c digits) s = true ->
  forallb (fun c => negb (c =? eof)) s = true.
Proof.
  intros Hd H. apply forallb_forall. intros x Hx.
  pose proof (proj1 (forallb_forall _ _) H x Hx) as Hin.
  apply negb_true_iff, Z.eqb_neq. intros ->. congruence.
Qed.

(** A literal with a radix prefix and a point is one NUMBER token too. *)
Lemma Scan_prefixed_literal k l :
  k <> Decimal ->
  forallb (fun c => rune_in c (radix_digits k ++ runes ".")) l = true ->
  Scan (mkScanner (mkReader (radix_prefix k ++ l) None) ILLEGAL [])
  = (NUMBER, radix_prefix k ++ l, mkScanner (mkReader [] None) ILLEGAL []).
Proof.
  intros Hk Hl. destruct k; [now destruct Hk| |].
  - pose proof (rune_in_not_eof (radix_digits Hexadecimal ++ runes ".") l eq_refl Hl)
      as H0.
    apply (Scan_fuel_Scan 1). rewrite Scan_fuel_S.
    cbn -[scanNumber_loop]. now rewrite (scanNumber_loop_all _ l _ H0 Hl).
  - pose proof (rune_in_not_eof (radix_digits Binary ++ runes ".") l eq_refl Hl) as H0.
    apply (Scan_fuel_Scan 1). rewrite Scan_fuel_S.
    cbn -[scanNumber_loop]. now rewrite (scanNumber_loop_all _ l _ H0 Hl).
Qed.

Lemma NUMBER_value_prefixed_point k l p :
  k <> Decimal -> rune_in "."%rune l = true ->
  NUMBER_value (radix_prefix k ++ l) p
  = Return None (Some (ErrCannotParseReal (radix_prefix k ++ l))) p.
Proof.
  intros Hk Hl. unfold NUMBER_value.
  assert (E : rune_in "."%rune (radix_prefix k ++ l) = true).
  { unfold rune_in in *. rewrite existsb_app. apply orb_true_iff. now right. }
  rewrite E. destruct k; [now destruct Hk| |].
  - replace (HasPrefix (radix_prefix Hexadecimal ++ l) (runes "0x")) with true
      by (destruct l; reflexivity).
    reflexivity.
  - replace (HasPrefix (radix_prefix Binary ++ l) (runes "0b")) with true
      by (destruct l; reflexivity).
    now rewrite andb_false_r.
Qed.

Lemma ParseFloat_two_points d s1 s2 l :
  isDigit d = true -> forallb isDigit s1 = true -> forallb isDigit s2 = true ->
  ParseFloat (d :: s1 ++ "."%rune :: s2 ++ "."%rune :: l) = None.
Proof.
  intros Hd H1 H2. unfold ParseFloat.
  change (d :: s1 ++ "."%rune :: s2 ++ "."%rune :: l)
    with ((d :: s1) ++ "."%rune :: s2 ++ "."%rune :: l).
  rewrite readFloat_digits by (cbn [forallb]; now rewrite Hd, H1).
  cbn [readFloat Z.eqb Pos.eqb]. rewrite readFloat_digits by exact H2.
  reflexivity.
Qed.

Lemma ParseFloat_real d s1 s2 :
  isDigit d = true -> forallb isDigit s1 = true -> forallb isDigit s2 = true ->
  ParseFloat (d :: s1 ++ "."%rune :: s2)
  = match float64_of_decimal (number_value 10 (d :: s1 ++ s2) 0)
            (- Z.of_nat (List.length s2)) with
    | S754_infinity _ => None
    | f => Some f
    end.
Proof.
  intros Hd H1 H2. unfold ParseFloat.
  change (d :: s1 ++ "."%rune :: s2) with ((d :: s1) ++ "."%rune :: s2).
  rewrite readFloat_digits by (cbn [forallb]; now rewrite Hd, H1).
  cbn [readFloat Z.eqb Pos.eqb].
  rewrite <- (app_nil_r s2) at 1. rewrite readFloat_digits by exact H2.
  cbn [readFloat orb negb Z.add].
  change (d :: s1 ++ s2) with ((d :: s1) ++ s2).
  unfold number_value at 3. rewrite fold_left_app. reflexivity.
Qed.

(** * Rendering and parsing *)

Lemma Parse_rendering tbl v rest :
  Renderable tbl v -> stops rest ->
  Parse (String tbl v ++ rest) = Returned (Some v) None.
Proof.
  intros Hv Hrest.
  destruct (Renderable_parses_back tbl v Hv rest
              (parser_at (String tbl v ++ rest) None ILLEGAL [])
              Hrest (follows_parser_at _ _ _ _)) as (n & p' & Hn & _).
  exact (Parse_parse _ _ _ _ _ Hn).
Qed.
(** * Without a struct the parser does not panic *)

Lemma skipLine_brace_free l : brace_free l -> brace_free (pending (skipLine l)).
Proof.
  unfold brace_free. induction l as [|ch l IH]; intros H; [constructor|].
  apply Forall_cons_iff in H. destruct H as [_ H]. cbn [skipLine].
  destruct ((ch =? eof) || (ch =? newline)); [exact H|now apply IH].
Qed.

Lemma scanWhitespace_loop_brace_free l : forall buf lit b,
  scanWhitespace_loop l buf = (lit, b) -> brace_free l -> brace_free (pending b).
Proof.
  unfold brace_free. induction l as [|ch l IH]; cbn [scanWhitespace_loop];
    intros buf lit b H Hl.
  - inversion H; subst. constructor.
  - pose proof Hl as Hl'. apply Forall_cons_iff in Hl'. destruct Hl' as [_ Hl'].
    destruct (ch =? eof); [inversion H; subst; exact Hl'|].
    destruct (negb (isWhitespace ch)); [inversion H; subst; exact Hl|].
    now apply (IH _ _ _ H).
Qed.

Lemma scanIdentifier_loop_brace_free l : forall buf lit b,
  scanIdentifier_loop l buf = (lit, b) -> brace_free l -> brace_free (pending b).
Proof.
  unfold brace_free. induction l as [|ch l IH]; cbn [scanIdentifier_loop];
    intros buf lit b H Hl.
  - inversion H; subst. constructor.
  - pose proof Hl as Hl'. apply Forall_cons_iff in Hl'. destruct Hl' as [_ Hl'].
    destruct (ch =? eof); [inversion H; subst; exact Hl'|].
    destruct (negb (isLetter ch) && negb (isDigit ch) && negb (ch =? "_"%rune));
      [inversion H; subst; exact Hl|].
    now apply (IH _ _ _ H).
Qed.

Lemma scanNumber_loop_brace_free digits l : forall buf lit b,
  scanNumber_loop digits l buf = (lit, b) -> brace_free l -> brace_free (pending b).
Proof.
  unfold brace_free. induction l as [|ch l IH]; cbn [scanNumber_loop];
    intros buf lit b H Hl.
  - inversion H; subst. constructor.
  - pose proof Hl as Hl'. apply Forall_cons_iff in Hl'. destruct Hl' as [_ Hl'].
    destruct (ch =? eof); [inversion H; subst; exact Hl'|].
    destruct (rune_in ch digits); [now apply (IH _ _ _ H)|].
    inversion H; subst. exact Hl.
Qed.

Lemma scanUntil_loop_brace_free tok delim l : forall mode buf tok' lit b,
  scanUntil_loop tok delim l mode buf = (tok', lit, b) ->
  brace_free l -> tok <> OPEN_BRACE ->
  brace_free (pending b) /\ tok' <> OPEN_BRACE.
Proof.
  unfold brace_free. induction l as [|ch l IH]; cbn [scanUntil_loop];
    intros mode buf tok' lit b H Hl Htok.
  - inversion H; subst. split; [constructor|exact Htok].
  - apply Forall_cons_iff in Hl. destruct Hl as [_ Hl].
    destruct mode;
      repeat match type of H with
             | (if ?c then _ else _) = _ => destruct c
             end;
      try (inversion H; subst; split; [exact Hl|(exact Htok || discriminate)]);
      try (now apply (IH _ _ _ _ _ H)).
Qed.

Lemma read_brace_free b c b1 :
  read b = (c, b1) -> brace_free (pending b) ->
  brace_free (pending b1) /\ brace_free (pending (unread b1)).
Proof.
  destruct b as [l u]. destruct l as [|c0 l]; unfold read; cbn; intros H Hl;
    inversion H; subst; cbn; split; try constructor; try exact Hl.
  - apply Forall_cons_iff in Hl. exact (proj2 Hl).
  - apply Forall_cons_iff in Hl. exact (proj1 Hl).
  - apply Forall_cons_iff in Hl. exact (proj2 Hl).
Qed.

Lemma Scan_fuel_brace_free : forall n s tok lit s',
  Scan_fuel n s = Some (tok, lit, s') ->
  brace_free (pending (r s)) -> lastToken s <> OPEN_BRACE ->
  tok <> OPEN_BRACE /\ brace_free (pending (r s')) /\ lastToken s' <> OPEN_BRACE.
Proof.
  induction n as [|n IH]; intros s tok lit s' H Hs Hlast; [discriminate|].
  rewrite Scan_fuel_S in H.
  destruct (negb (Token_eqb (lastToken s) ILLEGAL)) eqn:Elast.
  { inversion H; subst. cbn [r lastToken]. repeat split; (assumption || discriminate). }
  apply negb_false_iff, Token_eqb_eq in Elast.
  destruct s as [[l u] lt ll]. cbn [r lastToken lastLiteral pending] in *. subst lt.
  cbv zeta in H.
  destruct l as [|ch l].
  { cbn in H. inversion H; subst. cbn. repeat split; (constructor || discriminate). }
  pose proof Hs as Hs'. unfold brace_free in Hs'.
  apply Forall_cons_iff in Hs'. destruct Hs' as [Hch Hl].
  unfold read at 1 in H. cbn [ReadRune pending] in H.
  destruct (isWhitespace ch).
  { unfold scanWhitespace, read in H. cbn [unread UnreadRune unreadable pending ReadRune] in H.
    destruct (scanWhitespace_loop l [ch]) as [lit0 b] eqn:E.
    inversion H; subst. cbn [r lastToken].
    repeat split; try discriminate. exact (scanWhitespace_loop_brace_free _ _ _ _ E Hl). }
  destruct (isLetter ch).
  { unfold scanIdentifier, read in H.
    cbn [unread UnreadRune unreadable pending ReadRune] in H.
    destruct (scanIdentifier_loop l [ch]) as [lit0 b] eqn:E.
    inversion H; subst. cbn [r lastToken].
    repeat split; try discriminate. exact (scanIdentifier_loop_brace_free _ _ _ _ E Hl). }
  destruct (ch =? eof).
  { inversion H; subst. cbn [r lastToken pending]. repeat split; (assumption || discriminate). }
  destruct (ch =? "/"%rune).
  { destruct l as [|ch2 l2].
    - cbn in H. inversion H; subst. cbn. repeat split; (constructor || discriminate).
    - unfold read in H. cbn [ReadRune pending] in H.
      destruct (ch2 =? "/"%rune).
      + apply IH in H; cbn [r lastToken pending] in *; [exact H| |discriminate].
        apply skipLine_brace_free. apply Forall_cons_iff in Hl. exact (proj2 Hl).
      + inversion H; subst. cbn. repeat split; (assumption || discriminate). }
  destruct (ch =? ":"%rune).
  { destruct l as [|ch2 l2].
    - cbn in H. inversion H; subst. cbn. repeat split; (constructor || discriminate).
    - unfold read in H. cbn [ReadRune pending] in H.
      destruct (ch2 =? ":"%rune); inversion H; subst; cbn;
        repeat split; try discriminate; try assumption.
      apply Forall_cons_iff in Hl. exact (proj2 Hl). }
  destruct (ch =? "'"%rune).
  { unfold scanUntil in H.
    destruct (read (mkReader l (Some ch))) as [c1 b1] eqn:Er.
    destruct (scanUntil_loop SYMBOL ch (pending b1) Plain [c1]) as [[tok0 lit0] b] eqn:E.
    inversion H; subst. cbn [r lastToken].
    pose proof (proj1 (read_brace_free _ _ _ Er Hl)) as Hb1.
    destruct (scanUntil_loop_brace_free _ _ _ _ _ _ _ _ E Hb1) as [H1 H2];
      [discriminate|].
    repeat split; (assumption || discriminate). }
  destruct (ch =? dquote).
  { unfold scanUntil in H.
    destruct (read (mkReader l (Some ch))) as [c1 b1] eqn:Er.
    destruct (scanUntil_loop STRING ch (pending b1) Plain [c1]) as [[tok0 lit0] b] eqn:E.
    inversion H; subst. cbn [r lastToken].
    pose proof (proj1 (read_brace_free _ _ _ Er Hl)) as Hb1.
    destruct (scanUntil_loop_brace_free _ _ _ _ _ _ _ _ E Hb1) as [H1 H2];
      [discriminate|].
    repeat split; (assumption || discriminate). }
  destruct (ch =? ","%rune).
  { inversion H; subst. cbn. repeat split; (assumption || discriminate). }
  destruct (Z.eqb_spec ch "{"%rune) as [Eb|_]; [contradiction|].
  destruct (ch =? "}"%rune).
  { inversion H; subst. cbn. repeat split; (assumption || discriminate). }
  destruct (ch =? "["%rune).
  { inversion H; subst. cbn. repeat split; (assumption || discriminate). }
  destruct (ch =? "]"%rune).
  { inversion H; subst. cbn. repeat split; (assumption || discriminate). }
  destruct (ch =? "("%rune).
  { inversion H; subst. cbn. repeat split; (assumption || discriminate). }
  destruct (ch =? ")"%rune).
  { inversion H; subst. cbn. repeat split; (assumption || discriminate). }
  destruct (isDigit ch).
  { unfold scanNumber in H.
    destruct (read (mkReader l (Some ch))) as [c1 b1] eqn:Er.
    destruct (read_brace_free _ _ _ Er Hl) as [Hb1 Hu1].
    destruct (negb (c1 =? eof)).
    - destruct (if ch =? "0"%rune
                then if c1 =? "x"%rune
                     then (runes "0123456789abcdefABCDEF.", [ch] ++ [c1], b1)
                     else if c1 =? "b"%rune
                          then (runes "01.", [ch] ++ [c1], b1)
                          else (runes "0123456789.", [ch], unread b1)
                else (runes "0123456789.", [ch], unread b1))
        as [[digits buf] b2] eqn:E2.
      assert (Hb2 : brace_free (pending b2)).
      { destruct (ch =? "0"%rune); [destruct (c1 =? "x"%rune);
          [|destruct (c1 =? "b"%rune)]|]; inversion E2; subst; assumption. }
      destruct (scanNumber_loop digits (pending b2) buf) as [lit0 b3] eqn:E3.
      inversion H; subst. cbn [r lastToken].
      repeat split; try discriminate.
      exact (scanNumber_loop_brace_free _ _ _ _ _ E3 Hb2).
    - inversion H; subst. cbn [r lastToken].
      repeat split; (assumption || discriminate). }
  inversion H; subst. cbn. repeat split; (assumption || discriminate).
Qed.

Lemma Scan_brace_free s tok lit s' :
  Scan s = (tok, lit, s') ->
  brace_free (pending (r s)) -> lastToken s <> OPEN_BRACE ->
  tok <> OPEN_BRACE /\ brace_free (pending (r s')) /\ lastToken s' <> OPEN_BRACE.
Proof.
  intros H. destruct (Scan_spec s) as (tok0 & lit0 & s0 & E & _).
  unfold Scan in H, E.
  destruct (Scan_fuel (S (List.length (pending (r s)))) s) as [[[tok1 lit1] s1]|] eqn:E1.
  - rewrite H in E1 || (inversion H; subst). now apply (Scan_fuel_brace_free _ _ _ _ _ E1).
  - inversion H; subst. intros Hs Hl. repeat split; (assumption || discriminate).
Qed.

Lemma scan_no_brace p tok lit p' :
  scan p = (tok, lit, p') -> no_brace p -> tok <> OPEN_BRACE /\ no_brace p'.
Proof.
  unfold scan, no_brace. intros H (Hs & Hl & Hb).
  destruct (negb (buf_n p =? 0)).
  - inversion H; subst. cbn. repeat split; assumption.
  - destruct (Scan (scanner p)) as [[tok0 lit0] s] eqn:E. inversion H; subst.
    destruct (Scan_brace_free _ _ _ _ E Hs Hl) as (H1 & H2 & H3).
    cbn. repeat split; assumption.
Qed.

Lemma scanIgnoreWhitespace_no_brace p tok lit p' :
  scanIgnoreWhitespace p = (tok, lit, p') -> no_brace p ->
  tok <> OPEN_BRACE /\ no_brace p'.
Proof.
  unfold scanIgnoreWhitespace. intros H Hp.
  destruct (scan p) as [[tok0 lit0] p1] eqn:E.
  destruct (scan_no_brace _ _ _ _ E Hp) as [H1 H2].
  destruct (Token_eqb tok0 WHITESPACE).
  - exact (scan_no_brace _ _ _ _ H H2).
  - inversion H; subst. now split.
Qed.

Lemma safe_Return val e p : no_brace p -> safe (Return val e p).
Proof.
  intros Hp. split; [discriminate|]. intros val' e' p' H. now inversion H; subst.
Qed.

Lemma NUMBER_value_safe lit p : no_brace p -> safe (NUMBER_value lit p).
Proof.
  intros Hp. unfold NUMBER_value. destruct (rune_in "."%rune lit).
  - destruct (if negb (HasPrefix lit (runes "0x")) && negb (HasPrefix lit (runes "0b"))
              then ParseFloat lit else None); now apply safe_Return.
  - destruct (if HasPrefix lit (runes "0x") then (16, skipn 2 lit)
              else if HasPrefix lit (runes "0b") then (2, skipn 2 lit)
              else (10, lit)) as [base lit'].
    destruct (ParseInt lit' base); now apply safe_Return.
Qed.

Lemma parser_safe : forall n,
  (forall p, no_brace p -> safe (parse n p))
  /\ (forall tok lit p, tok <> OPEN_BRACE -> no_brace p -> safe (parseToken n tok lit p))
  /\ (forall end_ p, no_brace p -> safe (parseSequence n end_ p))
  /\ (forall end_ seq tok lit p,
        tok <> OPEN_BRACE -> no_brace p ->
        safe (parseSequence_loop n end_ seq tok lit p)).
Proof.
  induction n as [|n IH].
  { repeat split; intros; discriminate. }
  destruct IH as (Hp & Ht & Hs & Hsl).
  split; [|split; [|split]].
  - intros p Hnb. rewrite parse_S.
    destruct (scanIgnoreWhitespace p) as [[tok lit] p1] eqn:E.
    destruct (scanIgnoreWhitespace_no_brace _ _ _ _ E Hnb) as [H1 H2]. now apply Ht.
  - intros tok lit p Htok Hnb. rewrite parseToken_S.
    destruct tok; try (apply safe_Return; assumption);
      try (now apply NUMBER_value_safe); try (now apply Hs);
      try (now destruct Htok).
    destruct (scanIgnoreWhitespace p) as [[nt nl] p1] eqn:E.
    destruct (scanIgnoreWhitespace_no_brace _ _ _ _ E Hnb) as [H1 H2].
    destruct (Token_eqb nt DOUBLE_COLON).
    + destruct (Hp p1 H2) as [Hne Hret].
      destruct (parse n p1) as [val e p2| |] eqn:E2; [|now destruct Hne|].
      * specialize (Hret _ _ _ eq_refl).
        destruct e, val; now apply safe_Return.
      * split; [discriminate|]. intros; discriminate.
    + assert (Hu : no_brace (unscan p1)).
      { destruct H2 as (A & B & C). repeat split; assumption. }
      destruct (str_eqb lit (runes "true")); [now apply safe_Return|].
      destruct (str_eqb lit (runes "false")); [now apply safe_Return|].
      destruct (str_eqb lit (runes "null")); now apply safe_Return.
  - intros end_ p Hnb. rewrite parseSequence_S.
    destruct (scanIgnoreWhitespace p) as [[tok lit] p1] eqn:E.
    destruct (scanIgnoreWhitespace_no_brace _ _ _ _ E Hnb) as [H1 H2]. now apply Hsl.
  - intros end_ seq tok lit p Htok Hnb. rewrite parseSequence_loop_S.
    destruct (Token_eqb tok EOF); [now apply safe_Return|].
    destruct (Token_eqb tok CLOSE_BRACKET || Token_eqb tok CLOSE_PAREN).
    { destruct (negb (Token_eqb end_ tok)); [now apply safe_Return|].
      destruct (Token_eqb end_ CLOSE_PAREN); now apply safe_Return. }
    destruct (Ht tok lit p Htok Hnb) as [Hne Hret].
    destruct (parseToken n tok lit p) as [val e p1| |] eqn:E; [|now destruct Hne|].
    + specialize (Hret _ _ _ eq_refl).
      destruct e; [now apply safe_Return|].
      destruct (scanIgnoreWhitespace p1) as [[tok' lit'] p2] eqn:E2.
      destruct (scanIgnoreWhitespace_no_brace _ _ _ _ E2 Hret) as [H1 H2].
      now apply Hsl.
    + split; [discriminate|]. intros; discriminate.
Qed.

(** * Strings that do not parse back *)

Section UnsupportedRunes.

Variable tbl : rune -> bool.

Lemma scanUntil_loop_escaped_runes s : forall l buf,
  forallb (string_rune tbl) s = true ->
  scanUntil_loop STRING dquote (flat_map (appendEscapedRune tbl) s ++ l) Plain buf
  = scanUntil_loop STRING dquote l Plain (buf ++ s).
Proof.
  induction s as [|c s IH]; intros l buf Hs.
  - now rewrite app_nil_r.
  - cbn [forallb] in Hs. apply andb_true_iff in Hs. destruct Hs as [Hc Hs].
    cbn [flat_map]. rewrite <- app_assoc, scanUntil_loop_escaped by assumption.
    rewrite IH by assumption. now rewrite <- app_assoc.
Qed.

(** A rune that is not written as it stands, nor as one of the escapes
    that [scanUntil] knows, is written as a backslash and a rune that
    [scanUntil] does not know. *)
Lemma appendEscapedRune_unknown c :
  string_rune tbl c = false ->
  exists e more,
    appendEscapedRune tbl c = "\"%rune :: e :: more /\ known_escape e = false.
Proof.
  intros H. unfold string_rune in H. unfold appendEscapedRune.
  destruct (c =? "\"%rune) eqn:Eb.
  { exists "\"%rune, []. rewrite orb_true_r. apply Z.eqb_eq in Eb. subst c. now split. }
  cbn [negb andb] in H.
  apply orb_false_elim in H. destruct H as [H Hcr].
  apply orb_false_elim in H. destruct H as [H Hnl].
  apply orb_false_elim in H. destruct H as [Hp Htab].
  destruct (c =? dquote) eqn:Eq.
  { apply Z.eqb_eq in Eq. subst c. discriminate Hp. }
  cbn [orb]. rewrite Hp, Hnl, Hcr, Htab.
  destruct (c =? 7); [exists "a"%rune, []; split; reflexivity|].
  destruct (c =? 8); [exists "b"%rune, []; split; reflexivity|].
  destruct (c =? 12); [exists "f"%rune, []; split; reflexivity|].
  destruct (c =? 11); [exists "v"%rune, []; split; reflexivity|].
  destruct ((c <? " "%rune) || (c =? 127));
    [exists "x"%rune, (hex_digits 2 c); split; reflexivity|].
  cbv zeta.
  match goal with
  | |- context [if ?b then runes "\u" ++ _ else _] => destruct b
  end.
  - exists "u"%rune, (hex_digits 4 (if ValidRune c then c else 65533)).
    split; reflexivity.
  - exists "U"%rune, (hex_digits 8 (if ValidRune c then c else 65533)).
    split; reflexivity.
Qed.

Lemma parse_unsupported_rune first s c t :
  string_first tbl first = true -> forallb (string_rune tbl) s = true ->
  string_rune tbl c = false ->
  exists e p',
    known_escape e = false
    /\ parse 2 (parser_at (Quote tbl (first :: s ++ c :: t)) None ILLEGAL [])
       = Return None (Some (ErrTokenNotHandled ILLEGAL ["\"%rune; e])) p'.
Proof.
  intros Hf Hs Hc.
  destruct (appendEscapedRune_unknown c Hc) as (e & more & Ee & He).
  unfold string_first in Hf.
  apply andb_true_iff in Hf. destruct Hf as [Hf Hb].
  apply andb_true_iff in Hf. destruct Hf as [Hp Hq].
  apply negb_true_iff in Hb, Hq.
  set (rest := more ++ flat_map (appendEscapedRune tbl) t ++ [dquote]).
  assert (E : Scan (mkScanner (mkReader (Quote tbl (first :: s ++ c :: t)) None) ILLEGAL [])
              = (ILLEGAL, ["\"%rune; e], mkScanner (mkReader rest (Some e)) ILLEGAL [])).
  { unfold Quote. cbn [app flat_map]. rewrite flat_map_app. cbn [flat_map].
    rewrite Ee. apply (Scan_fuel_Scan 1). rewrite Scan_fuel_S.
    cbn -[scanUntil_loop appendEscapedRune flat_map app].
    unfold appendEscapedRune at 1. rewrite Hq, Hb, Hp. cbn [orb].
    rewrite <- !app_assoc. cbn [app].
    unfold scanUntil, read. cbn [ReadRune pending].
    rewrite (scanUntil_loop_escaped_runes s _ _ Hs).
    cbn [app scanUntil_loop].
    unfold known_escape in He.
    repeat (apply orb_false_elim in He; destruct He as [He ?]).
    repeat match goal with
           | H : ?x = false |- context [?x] => rewrite H
           end.
    reflexivity. }
  eexists e, _. split; [exact He|].
  rewrite parse_S.
  rewrite (scanIgnoreWhitespace_token _ None ILLEGAL [] _ _ _ _ E) by discriminate.
  reflexivity.
Qed.

Lemma String_set_Annotations v annotations :
  Type' v <> StructType ->
  String tbl (set_Annotations v annotations) = String tbl v.
Proof.
  intros H. destruct v as [ty a i f txt seq fields]. cbn [Type'] in H.
  destruct ty; try reflexivity. now destruct H.
Qed.

Lemma Parse_annotated_struct fields a names :
  is_identifier a = true -> forallb is_identifier names = true ->
  Forall (fun f => field_name (Name f) = true) fields ->
  Forall (fun f => Renderable tbl (Value' f)) fields ->
  Parse (String tbl (set_Annotations (StructValue fields) (a :: names)))
  = Returned (Some (set_Annotations (StructValue fields) [a])) None.
Proof.
  intros Ha Hnames Hn Hr.
  assert (Hv : Renderable tbl (StructValue fields)).
  { apply (Renderable_Struct tbl [] fields); [reflexivity|exact Hn|exact Hr]. }
  destruct (Renderable_parses_back tbl _ Hv []
              (parser_at (String tbl (StructValue fields) ++ []) None ILLEGAL [])
              stops_nil (follows_parser_at _ _ _ _)) as (n & p' & Hp' & _).
  rewrite app_nil_r in Hp'.
  destruct (parse_annotated _ _ _ names a n Ha Hnames Hp') as [m Hm].
  exact (Parse_parse _ _ _ _ _ Hm).
Qed.

End UnsupportedRunes.
(** * The claims *)


(** C5.  Parsing "0x7fffffffffffffff" yields the Int 2^63 - 1, the largest
    64-bit signed integer; "0x8000000000000000" fails with the error of the
    integer conversion; "1.0" yields the Float 1.0; and "0x1.0" fails with
    the error of the real-number conversion, a radix prefix with a
    fractional part being rejected. *)
Theorem numeric_boundary :
  Parse (runes "0x7fffffffffffffff") = Returned (Some (IntValue (2 ^ 63 - 1))) None
  /\ Parse (runes "0x8000000000000000")
     = Returned None (Some (ErrCannotParseInt 16 (runes "8000000000000000")))
  /\ Parse (runes "1.0") = Returned (Some (FloatValue (SFone 53 1024))) None
  /\ Parse (runes "0x1.0") = Returned None (Some (ErrCannotParseReal (runes "0x1.0"))).
Proof. repeat split; vm_compute; reflexivity. Qed.

(** C2, at the failing input.  The value of "a::42" is an Int with the
    annotation "a", and [String] renders it "42", without the prefix "a::";
    only a Struct is rendered with its annotations ("a::{}"). *)
Theorem String_drops_annotations_of_Int :
  Parse (runes "a::42")
  = Returned (Some (set_Annotations (IntValue 42) [runes "a"])) None
  /\ (forall isPrintTable,
        String isPrintTable (set_Annotations (IntValue 42) [runes "a"]) = runes "42")
  /\ (forall isPrintTable,
        String isPrintTable (set_Annotations (StructValue []) [runes "a"])
        = runes "a::{}").
Proof. repeat split. Qed.

(** C3, at the failing inputs.  With a colon where a field name is
    expected, and with a comma where a field value is expected,
    [parseToken] returns no value and no error, [parseStruct] dereferences
    the nil value and [Parse] panics instead of returning an error. *)
Theorem parseStruct_dereferences_nil :
  Parse (runes "{:}") = Panicked /\ Parse (runes "{a: ,}") = Panicked.
Proof. split; vm_compute; reflexivity. Qed.

(** C4, at the failing input.  After whitespace, a comment and whitespace
    again, [scanIgnoreWhitespace] returns the second WHITESPACE token and
    [Parse] fails on it, whereas the value alone parses. *)
Theorem whitespace_after_comment_is_not_skipped :
  Parse (runes " //c" ++ newline :: runes " 42")
  = Returned None (Some (ErrTokenNotHandled WHITESPACE (runes " ")))
  /\ Parse (runes "42") = Returned (Some (IntValue 42)) None.
Proof. split; vm_compute; reflexivity. Qed.

(** C9, at the failing input.  A backslash that is the first rune of a
    quoted literal is copied as it stands, and so is the newline after it:
    the literal [\], newline, [abc] between double quotes is scanned with
    both in it.  The backslash and newline further inside a literal are
    left out with the whitespace after them: [abc\], newline, three spaces
    and [def] is the String abcdef. *)
Theorem continuation_at_start_of_literal_is_kept :
  Parse (quoted ("\"%rune :: newline :: runes "abc"))
  = Returned (Some (StringValue ("\"%rune :: newline :: runes "abc"))) None
  /\ Parse (quoted (runes "abc\" ++ newline :: runes "   def"))
     = Returned (Some (StringValue (runes "abcdef"))) None.
Proof. split; vm_compute; reflexivity. Qed.

(** C8, amended.  For every token kind other than ILLEGAL, after
    [Unscan(tok, lit)] the next [Scan] returns exactly [(tok, lit)], reads
    nothing from the input and empties the pushback slot. *)
Theorem Unscan_then_Scan s tok lit :
  tok <> ILLEGAL ->
  Scan (Unscan s tok lit) = (tok, lit, mkScanner (r s) ILLEGAL []).
Proof.
  intro H. unfold Scan, Unscan. simpl.
  apply Token_eqb_neq in H. rewrite H. reflexivity.
Qed.

Lemma Unscan_then_Scan_EOF :
  EOF <> ILLEGAL
  /\ Scan (Unscan (NewScanner (runes "x")) EOF [])
     = (EOF, [], mkScanner (r (NewScanner (runes "x"))) ILLEGAL []).
Proof. split; [discriminate | apply Unscan_then_Scan; discriminate]. Defined.

(** C8 as stated fails for ILLEGAL, the value of an empty pushback slot:
    [Scan] of "/x" returns ILLEGAL with the literal "/", and after that
    token is pushed back the next [Scan] reads on and returns the SYMBOL
    "x". *)
Lemma Unscan_ILLEGAL_is_lost :
  fst (Scan (NewScanner (runes "/x"))) = (ILLEGAL, runes "/")
  /\ fst (Scan (Unscan (snd (Scan (NewScanner (runes "/x")))) ILLEGAL (runes "/")))
     = (SYMBOL, runes "x").
Proof. split; reflexivity. Qed.

(** C6 as stated fails: of the annotations of "a::b::42" the value keeps
    the first one, "a", not the one seen last. *)
Lemma annotation_kept_is_not_the_last :
  exists v,
    Parse (runes "a::b::42") = Returned (Some v) None
    /\ Annotations v = [runes "a"] /\ Annotations v <> [runes "b"].
Proof. eexists. split; [vm_compute; reflexivity|]. split; [reflexivity|discriminate]. Qed.



(** C10.  A single-quoted symbol with the text [true], [false] or [null]
    parses to the Bool or the Null value, not to a Symbol; and no input
    parses to a value that holds, at any depth, a Symbol with one of these
    three texts. *)
Theorem quoted_keywords_are_not_Symbols :
  Parse (runes "'true'") = Returned (Some (BoolValue 1)) None
  /\ Parse (runes "'false'") = Returned (Some (BoolValue 0)) None
  /\ Parse (runes "'null'") = Returned (Some NullValue) None
  /\ (forall reader v e w,
        Parse reader = Returned (Some v) e ->
        SubValue w v -> Type' w = SymbolType ->
        Text w <> runes "true" /\ Text w <> runes "false" /\ Text w <> runes "null").
Proof.
  repeat split; try (vm_compute; reflexivity).
  all: unfold Parse, Parse_fuel, parseFrom in H;
    destruct (parse _ _) as [val e' p'| |] eqn:E; try discriminate;
    simpl in H; inversion H; subst;
    apply (proj1 (parser_no_keyword_symbol _)) in E;
    pose proof (no_keyword_symbol_SubValue _ _ E H0) as Hk;
    rewrite H1 in Hk; simpl in Hk; unfold is_keyword in Hk;
    intro Ht; rewrite Ht in Hk; discriminate.
Qed.

Lemma quoted_keywords_are_not_Symbols_abc :
  Parse (runes "'abc'") = Returned (Some (SymbolValue (runes "abc"))) None
  /\ Text (SymbolValue (runes "abc")) <> runes "true"
  /\ Text (SymbolValue (runes "abc")) <> runes "false"
  /\ Text (SymbolValue (runes "abc")) <> runes "null".
Proof.
  split; [reflexivity|].
  exact (proj2 (proj2 (proj2 quoted_keywords_are_not_Symbols))
           (runes "'abc'") (SymbolValue (runes "abc")) None
           (SymbolValue (runes "abc")) eq_refl
           (SubValue_self _) eq_refl).
Defined.

(** C6, amended.  When a text that parses to a value is prefixed by one or
    more annotations [a::b::...] (identifiers), the parsed value is that
    value with exactly one annotation, the first of the names: each outer
    annotation overwrites the one set inside it. *)
Theorem first_annotation_is_kept a names t v :
  is_identifier a = true -> forallb is_identifier names = true ->
  Parse t = Returned (Some v) None ->
  Parse (annotated (a :: names) t) = Returned (Some (set_Annotations v [a])) None.
Proof.
  intros Ha Hnames H.
  unfold Parse, Parse_fuel in H. rewrite parseFrom_parser_at in H.
  destruct (parse _ _) as [val e p| |] eqn:E; try discriminate.
  simpl in H. inversion H; subst.
  destruct (parse_annotated t v p names a _ Ha Hnames E) as [m Hm].
  rewrite (Parse_fuel_Parse m); unfold Parse_fuel; rewrite parseFrom_parser_at, Hm;
    [reflexivity|discriminate].
Qed.

Lemma first_annotation_is_kept_a_b_42 :
  Parse (annotated [runes "a"; runes "b"] (runes "42"))
  = Returned (Some (set_Annotations (IntValue 42) [runes "a"])) None.
Proof.
  apply (first_annotation_is_kept (runes "a") [runes "b"] (runes "42") (IntValue 42));
    reflexivity.
Defined.




Lemma leaves_open_nested : leaves_open (runes "[1, (x) {k: v, l: a::(").
Proof.
  do 3 eexists. split; [run|].
  eapply open_container; [reflexivity|].
  eapply open_element; [run|discriminate..|run|].
  eapply open_element; [run|discriminate..|run|].
  eapply open_element; [run|discriminate..|run|].
  eapply open_inner; [run|].
  eapply open_container; [reflexivity|].
  eapply open_field; [run|discriminate..|run|left; reflexivity|run|run|].
  eapply open_comma; [run|].
  eapply open_field_value; [run|discriminate..|run|left; reflexivity|run|run|].
  eapply open_annotated; [run|run|].
  eapply open_container; [reflexivity|].
  eapply open_end. run.
Qed.


Lemma Renderable_sample_value : Renderable (fun _ => true) sample_value.
Proof.
  apply (Renderable_Struct _ [runes "a"]); [reflexivity| |].
  - repeat (apply Forall_cons; [reflexivity|]). apply Forall_nil.
  - repeat (apply Forall_cons; [|try apply Forall_nil]); cbn [Value'].
    + apply Renderable_String. reflexivity.
    + apply Renderable_List.
      repeat (apply Forall_cons; [|try apply Forall_nil]).
      * apply Renderable_Int. lia.
      * apply Renderable_Symbol. reflexivity.
    + apply Renderable_Sexp.
      repeat (apply Forall_cons; [|try apply Forall_nil]).
      * apply Renderable_Bool. now right.
      * apply Renderable_Null.
      * apply Renderable_Int. lia.
Defined.



(** * Further properties *)

(** X1.  On every input [Parse] finishes, and in one of four ways: it returns
    a value and no error, or an error and no value, or neither (as on the
    empty input), or it panics.  It never returns a value with an
    error. *)
Theorem Parse_outcomes reader :
  (exists v, Parse reader = Returned (Some v) None)
  \/ (exists e, Parse reader = Returned None (Some e))
  \/ Parse reader = Returned None None
  \/ Parse reader = Panicked.
Proof.
  pose proof (Parse_finishes reader) as Hfin.
  unfold Parse, Parse_fuel in *. rewrite parseFrom_parser_at in *.
  destruct (parse _ _) as [val e p| |] eqn:E; cbn [result_of] in *.
  - apply (proj1 (parser_value_or_error _)) in E.
    destruct E as [-> | ->].
    + destruct e as [e|]; [right; left; now exists e|right; right; now left].
    + destruct val as [v|]; [left; now exists v|right; right; now left].
  - now repeat right.
  - now destruct Hfin.
Qed.

(** X2.  [Parse] reads the first value of its input and leaves what follows
    it: the rendering of a renderable value, before any text that may
    follow a value (a space and a value, a comma, a closing bracket, or
    nothing), parses to the value. *)
Theorem Parse_reads_first_value isPrintTable v rest :
  Renderable isPrintTable v -> stops rest ->
  Parse (String isPrintTable v ++ rest) = Returned (Some v) None.
Proof.
  intros Hv Hrest.
  destruct (Renderable_parses_back isPrintTable v Hv rest
              (parser_at (String isPrintTable v ++ rest) None ILLEGAL [])
              Hrest (follows_parser_at _ _ _ _)) as (n & p' & Hn & _).
  assert (E : Parse_fuel n (String isPrintTable v ++ rest) = Returned (Some v) None).
  { unfold Parse_fuel. rewrite parseFrom_parser_at, Hn. reflexivity. }
  rewrite (Parse_fuel_Parse n); [exact E|]. rewrite E. discriminate.
Qed.

Lemma begins_value_42 : begins_value (runes "42").
Proof.
  exists "4"%rune, (runes "2"), NUMBER, (runes "42"), [], None.
  split; [reflexivity|]. split; [reflexivity|]. split; [discriminate|].
  split; reflexivity.
Defined.

Lemma Parse_reads_first_value_1_42 :
  Parse (runes "1 42") = Returned (Some (IntValue 1)) None.
Proof.
  apply (Parse_reads_first_value (fun _ => true) (IntValue 1) (runes " 42")).
  - apply Renderable_Int. lia.
  - apply stops_space. exact begins_value_42.
Defined.

(** X3.  A line comment at the start of the input is transparent: [Parse] of
    [//], the runes of a comment, a newline and a text is [Parse] of the
    text. *)
Theorem line_comment_is_transparent c t :
  forallb comment_rune c = true ->
  Parse (runes "//" ++ c ++ newline :: t) = Parse t.
Proof.
  intros Hc. apply Parse_follows; [now apply follows_comment|].
  rewrite !length_app. cbn [List.length]. lia.
Qed.

Lemma line_comment_is_transparent_42 :
  Parse (runes "// the answer" ++ newline :: runes "42") = Parse (runes "42").
Proof. apply (line_comment_is_transparent (runes " the answer") (runes "42")). reflexivity. Defined.

(** X4.  Whitespace before a value is skipped: [Parse] of spaces, tabs and
    newlines and then a text that begins with a value is [Parse] of the
    text. *)
Theorem leading_whitespace_is_skipped ws t :
  forallb isWhitespace ws = true -> begins_value t ->
  Parse (ws ++ t) = Parse t.
Proof.
  intros Hws Ht. apply Parse_follows; [now apply follows_whitespace|].
  rewrite length_app. lia.
Qed.

Lemma leading_whitespace_is_skipped_42 :
  Parse (tab :: newline :: runes "  42") = Parse (runes "42").
Proof.
  apply (leading_whitespace_is_skipped (tab :: newline :: runes "  ") (runes "42"));
    [reflexivity|exact begins_value_42].
Defined.

(** ** The scanner and the token buffer of the parser *)

(** X5.  Every [Scan] that returns a token other than EOF takes input: it
    leaves the pushback slot empty and less to scan (runes of the input,
    and the token in the slot) than there was.  So a loop that scans up to
    EOF ends. *)
Theorem Scan_takes_input s tok lit s' :
  Scan s = (tok, lit, s') -> tok <> EOF ->
  lastToken s' = ILLEGAL /\ (scanner_left s' < scanner_left s)%nat.
Proof.
  intros H Htok. destruct (Scan_spec s) as (tok0 & lit0 & s0 & E & Hl & Hw).
  rewrite H in E. inversion E; subst. split; [exact Hl|].
  unfold tok_weight in Hw. apply Token_eqb_neq in Htok. rewrite Htok in Hw. lia.
Qed.

Lemma Scan_takes_input_ab :
  lastToken (snd (Scan (NewScanner (runes "ab c")))) = ILLEGAL
  /\ (scanner_left (snd (Scan (NewScanner (runes "ab c"))))
      < scanner_left (NewScanner (runes "ab c")))%nat.
Proof.
  apply (Scan_takes_input _ SYMBOL (runes "ab")); [reflexivity|discriminate].
Defined.

(** X6.  After [p.unscan()] the next [p.scan()] returns the token and the
    literal that the last [p.scan()] returned, of whatever kind (ILLEGAL
    and EOF too), and reads no input: the parser is as it was after that
    scan. *)
Theorem scan_after_unscan p tok lit p1 :
  scan p = (tok, lit, p1) -> scan (unscan p1) = (tok, lit, p1).
Proof.
  unfold scan. destruct (buf_n p =? 0) eqn:E; cbn [negb].
  - destruct (Scan (scanner p)) as [[tok0 lit0] s]. intros H. inversion H; subst.
    apply Z.eqb_eq in E. rewrite E. reflexivity.
  - intros H. inversion H; subst. reflexivity.
Qed.

Lemma scan_after_unscan_ILLEGAL :
  scan (unscan (parser_at (runes "x") None ILLEGAL (runes "/")))
  = (ILLEGAL, runes "/", parser_at (runes "x") None ILLEGAL (runes "/")).
Proof.
  apply (scan_after_unscan (parser_at (runes "/x") None ILLEGAL [])). reflexivity.
Defined.

(** ** Inputs without a value *)

(** X7.  An input of whitespace only, and one of whitespace and then a line
    comment that the end of the input ends, have no value: [Parse] returns
    neither a value nor an error. *)
Theorem blank_input_has_no_value ws c :
  forallb isWhitespace ws = true -> forallb comment_rune c = true ->
  Parse ws = Returned None None
  /\ Parse (ws ++ runes "//" ++ c) = Returned None None.
Proof.
  intros Hws Hc. split.
  - destruct (parse_whitespace_only ws Hws) as [p' H]. exact (Parse_parse _ _ _ _ _ H).
  - destruct (parse_comment_only ws c Hws Hc) as [p' H]. exact (Parse_parse _ _ _ _ _ H).
Qed.

Lemma blank_input_has_no_value_tab :
  Parse (tab :: runes " ") = Returned None None
  /\ Parse ((tab :: runes " ") ++ runes "//" ++ runes " no value") = Returned None None.
Proof. apply blank_input_has_no_value; reflexivity. Defined.

(** X8.  A NUL rune is read as the end of the input, whatever comes after it:
    where a value is expected [Parse] returns neither a value nor an
    error, and inside a list it fails with "Unexpected EOF". *)
Theorem NUL_is_read_as_the_end t :
  Parse (eof :: t) = Returned None None
  /\ Parse ("["%rune :: eof :: t) = Returned None (Some ErrUnexpectedEOF).
Proof.
  split.
  - apply (Parse_parse 2 _ _ _ (parser_at t (Some eof) EOF [])). reflexivity.
  - apply (Parse_parse 4 _ _ _ (parser_at t (Some eof) EOF [])). reflexivity.
Qed.

(** ** Symbols and literals *)

(** X9.  Quoting an identifier changes nothing: between single quotes and bare
    it parses to the same value, a Bool for [true] and [false], Null for
    [null], and else the Symbol. *)
Theorem quoted_identifier_is_the_identifier a :
  is_identifier a = true ->
  Parse (symbolToString a) = Returned (Some (symbol_value a)) None
  /\ Parse a = Returned (Some (symbol_value a)) None.
Proof.
  intros Ha. split.
  - destruct a as [|c s]; [discriminate|].
    cbn [is_identifier] in Ha. apply andb_prop in Ha. destruct Ha as [_ Hs].
    assert (Hsym : forallb symbol_rune s = true).
    { apply forallb_forall. intros x Hx.
      pose proof (proj1 (forallb_forall _ _) Hs x Hx) as Hi.
      unfold symbol_rune, eof. unfold ident_char, isLetter, isDigit in Hi. lia. }
    destruct (parseToken_SYMBOL 0 (c :: s) [] (Some "'"%rune) SYMBOL (c :: s)
                (proj2 stops_nil)) as (p' & Hp' & _).
    apply (Parse_parse 2 _ _ _ p'). rewrite <- Hp'.
    rewrite <- (app_nil_r (symbolToString (c :: s))).
    apply (parse_of_token _ _ _ _ _ _ (follows_parser_at _ None ILLEGAL [])).
    apply scanIgnoreWhitespace_token; [|discriminate].
    now apply Scan_quoted_symbol.
  - destruct (identifier_parses a [] (parser_at (a ++ []) None ILLEGAL []) Ha stops_nil
                (follows_parser_at _ _ _ _)) as (n & p' & Hn & _).
    rewrite app_nil_r in Hn. exact (Parse_parse _ _ _ _ _ Hn).
Qed.

Lemma quoted_identifier_is_the_identifier_x1 :
  Parse (runes "'x_1'") = Returned (Some (SymbolValue (runes "x_1"))) None
  /\ Parse (runes "x_1") = Returned (Some (SymbolValue (runes "x_1"))) None.
Proof. apply (quoted_identifier_is_the_identifier (runes "x_1")). reflexivity. Defined.

(** X10.  A negative Int does not parse back: it is rendered with a minus sign,
    which begins no token, and [Parse] of the rendering fails on the ILLEGAL
    token [-]. *)
Theorem negative_Int_does_not_parse_back isPrintTable i :
  - 2 ^ 63 <= i < 0 ->
  Parse (String isPrintTable (IntValue i))
  = Returned None (Some (ErrTokenNotHandled ILLEGAL (runes "-"))).
Proof.
  intros Hi. cbn [String IntValue Type' Int]. unfold FormatInt.
  replace (i <? 0) with true by lia. cbn [app].
  destruct (parse_unknown_rune "-"%rune
              (map digit_rune (decimal_digits (Z.abs i))) eq_refl) as [p' H].
  exact (Parse_parse _ _ _ _ _ H).
Qed.

Lemma negative_Int_does_not_parse_back_7 :
  String (fun _ => true) (IntValue (-7)) = runes "-7"
  /\ Parse (String (fun _ => true) (IntValue (-7)))
     = Returned None (Some (ErrTokenNotHandled ILLEGAL (runes "-"))).
Proof.
  split; [reflexivity|]. apply negative_Int_does_not_parse_back. lia.
Defined.

(** X11.  In a quoted literal a backslash before a rune other than the double
    quote, [t], [n], [r] and the newline is rejected, the backslash itself
    and the single quote included: [Parse] fails on the ILLEGAL token of
    the backslash and the rune. *)
Theorem unknown_escape_is_rejected q first s c t :
  q = dquote \/ q = "'"%rune ->
  forallb (plain_rune q) s = true -> known_escape c = false ->
  Parse (q :: first :: s ++ "\"%rune :: c :: t)
  = Returned None (Some (ErrTokenNotHandled ILLEGAL ["\"%rune; c])).
Proof.
  intros Hq Hs Hc.
  assert (Hq' : (q = dquote /\ (if q =? dquote then STRING else SYMBOL) = STRING)
                \/ (q = "'"%rune /\ (if q =? dquote then STRING else SYMBOL) = SYMBOL)).
  { destruct Hq as [-> | ->]; [left|right]; now split. }
  apply (Parse_parse 2 _ _ _
           (set_err (parser_at t (Some c) ILLEGAL ["\"%rune; c])
              (ErrTokenNotHandled ILLEGAL ["\"%rune; c]))).
  rewrite parse_S.
  now rewrite (scanIgnoreWhitespace_token _ None ILLEGAL [] _ _ _ _
                 (Scan_unknown_escape q _ first s c t None [] Hq' Hs Hc))
    by discriminate.
Qed.

Lemma unknown_escape_is_rejected_backslash :
  String (fun _ => true) (StringValue (runes "a\b"))
  = dquote :: "a"%rune :: [] ++ "\"%rune :: "\"%rune :: "b"%rune :: [dquote]
  /\ Parse (dquote :: "a"%rune :: [] ++ "\"%rune :: "\"%rune :: "b"%rune :: [dquote])
     = Returned None (Some (ErrTokenNotHandled ILLEGAL (runes "\\"))).
Proof.
  split; [reflexivity|].
  apply (unknown_escape_is_rejected dquote "a"%rune [] "\"%rune ("b"%rune :: [dquote]));
    [now left|reflexivity|reflexivity].
Defined.

(** X12.  The first rune after the opening double quote goes into the String as
    it stands, whatever it is, the closing quote too; the literal then
    ends at the next double quote, or at the end of the input when there
    is none.  So two double quotes are not the empty String. *)
Theorem first_rune_of_literal_is_kept first s :
  forallb (plain_rune dquote) s = true ->
  (forall t, Parse (quoted (first :: s) ++ t) = Returned (Some (StringValue (first :: s))) None)
  /\ Parse (dquote :: first :: s) = Returned (Some (StringValue (first :: s))) None.
Proof.
  intros Hs.
  destruct (Scan_literal dquote STRING first s None [] (or_introl (conj eq_refl eq_refl)) Hs)
    as [Hclosed Hopen].
  split; [intros t|].
  - apply (Parse_parse 2 _ _ _ (parser_at t (Some dquote) STRING (first :: s))).
    rewrite parse_S. unfold quoted. cbn [app]. rewrite <- app_assoc. cbn [app].
    now rewrite (scanIgnoreWhitespace_token _ None ILLEGAL [] _ _ _ _ (Hclosed t))
      by discriminate.
  - apply (Parse_parse 2 _ _ _ (parser_at [] None STRING (first :: s))).
    rewrite parse_S.
    now rewrite (scanIgnoreWhitespace_token _ None ILLEGAL [] _ _ _ _ Hopen)
      by discriminate.
Qed.

Lemma first_rune_of_literal_is_kept_quote :
  (forall t, Parse (quoted [dquote] ++ t) = Returned (Some (StringValue [dquote])) None)
  /\ Parse [dquote; dquote] = Returned (Some (StringValue [dquote])) None.
Proof. apply (first_rune_of_literal_is_kept dquote []). reflexivity. Defined.

(** ** Containers as they may be written *)

Lemma Renderable_1_2 : Forall (Renderable (fun _ => true)) [IntValue 1; IntValue 2].
Proof.
  apply Forall_cons; [apply Renderable_Int; lia|].
  apply Forall_cons; [apply Renderable_Int; lia|apply Forall_nil].
Defined.

(** X13.  Commas are optional: a list whose elements a space alone separates, a
    sexp whose elements have commas between them, and a struct whose
    fields a space alone separates parse to the same values as with the
    separators of their renderings. *)
Theorem commas_are_optional isPrintTable seq fields :
  Forall (Renderable isPrintTable) seq ->
  Forall (fun f => field_name (Name f) = true) fields ->
  Forall (fun f => Renderable isPrintTable (Value' f)) fields ->
  Parse (sequenceToString (String isPrintTable) seq "["%rune 0 "]"%rune)
  = Returned (Some (ListValue seq)) None
  /\ Parse (sequenceToString (String isPrintTable) seq "("%rune ","%rune ")"%rune)
     = Returned (Some (SexpValue seq)) None
  /\ Parse ("{"%rune :: items_text (runes " ") (field_text (String isPrintTable)) fields
            ++ ["}"%rune])
     = Returned (Some (StructValue fields)) None.
Proof.
  intros Hseq Hnames Hvalues. split; [|split].
  - apply (Parse_written_sequence isPrintTable "["%rune 0 "]"%rune
             CLOSE_BRACKET CLOSE_BRACKET seq);
      [left|right|left|exact Hseq]; now repeat split.
  - apply (Parse_written_sequence isPrintTable "("%rune ","%rune ")"%rune
             CLOSE_PAREN CLOSE_PAREN seq);
      [right|left|right|exact Hseq]; now repeat split.
  - apply (Parse_written_struct isPrintTable (field_text (String isPrintTable))
             (fun f => field_name (Name f) = true)).
    + intros f tail. apply begins_field.
    + intros fields0 f p tail. apply bare_field.
    + now right.
    + exact Hnames.
    + exact Hvalues.
Qed.

Lemma commas_are_optional_1_2 :
  Parse (runes "[1 2]") = Returned (Some (ListValue [IntValue 1; IntValue 2])) None
  /\ Parse (runes "(1, 2)") = Returned (Some (SexpValue [IntValue 1; IntValue 2])) None
  /\ Parse (runes "{a: 1 b: 2}")
     = Returned (Some (StructValue [mkField (runes "a") (IntValue 1);
                                    mkField (runes "b") (IntValue 2)])) None.
Proof.
  apply (commas_are_optional (fun _ => true) [IntValue 1; IntValue 2]
           [mkField (runes "a") (IntValue 1); mkField (runes "b") (IntValue 2)]).
  - exact Renderable_1_2.
  - repeat (apply Forall_cons; [reflexivity|]). apply Forall_nil.
  - repeat (apply Forall_cons; [apply Renderable_Int; lia|]). apply Forall_nil.
Defined.

(** X14.  A list closed by a paren and a sexp closed by a bracket are rejected
    when the closing rune is read, after all their elements have parsed:
    [Parse] fails with "Bad sequence", the closing token expected and the
    one found. *)
Theorem sequence_closed_by_the_other_rune isPrintTable delim seq :
  delimiter delim -> Forall (Renderable isPrintTable) seq ->
  Parse (sequenceToString (String isPrintTable) seq "["%rune delim ")"%rune)
  = Returned None (Some (ErrBadSequence CLOSE_BRACKET CLOSE_PAREN))
  /\ Parse (sequenceToString (String isPrintTable) seq "("%rune delim "]"%rune)
     = Returned None (Some (ErrBadSequence CLOSE_PAREN CLOSE_BRACKET)).
Proof.
  intros Hd Hseq. split.
  - apply (Parse_written_sequence isPrintTable "["%rune delim ")"%rune
             CLOSE_BRACKET CLOSE_PAREN seq);
      [left|exact Hd|right|exact Hseq]; now repeat split.
  - apply (Parse_written_sequence isPrintTable "("%rune delim "]"%rune
             CLOSE_PAREN CLOSE_BRACKET seq);
      [right|exact Hd|left|exact Hseq]; now repeat split.
Qed.

Lemma sequence_closed_by_the_other_rune_1_2 :
  Parse (runes "[1, 2)") = Returned None (Some (ErrBadSequence CLOSE_BRACKET CLOSE_PAREN))
  /\ Parse (runes "(1, 2]") = Returned None (Some (ErrBadSequence CLOSE_PAREN CLOSE_BRACKET)).
Proof.
  apply (sequence_closed_by_the_other_rune (fun _ => true) ","%rune
           [IntValue 1; IntValue 2]); [now left|exact Renderable_1_2].
Defined.

(** X15.  The name of a field may be a string literal, of any runes that a
    String may hold: a struct whose fields are written with their names
    between double quotes, with or without commas between the fields,
    parses to the struct of these fields. *)
Theorem field_names_may_be_quoted isPrintTable sep fields :
  field_separator sep ->
  Forall (fun f => string_text isPrintTable (Name f) = true) fields ->
  Forall (fun f => Renderable isPrintTable (Value' f)) fields ->
  Parse ("{"%rune
         :: items_text sep (quoted_field_text isPrintTable (String isPrintTable)) fields
         ++ ["}"%rune])
  = Returned (Some (StructValue fields)) None.
Proof.
  intros Hsep Hnames Hvalues.
  apply (Parse_written_struct isPrintTable
           (quoted_field_text isPrintTable (String isPrintTable))
           (fun f => string_text isPrintTable (Name f) = true)).
  - intros f tail. apply begins_quoted_field.
  - intros fields0 f p tail. apply quoted_field.
  - exact Hsep.
  - exact Hnames.
  - exact Hvalues.
Qed.

Lemma field_names_may_be_quoted_a_b :
  Parse ("{"%rune :: quoted (runes "a b") ++ runes ": 1, " ++ quoted (runes "c") ++ runes ": 2}")
  = Returned (Some (StructValue [mkField (runes "a b") (IntValue 1);
                                 mkField (runes "c") (IntValue 2)])) None.
Proof.
  apply (field_names_may_be_quoted (fun _ => true) (runes ", ")
           [mkField (runes "a b") (IntValue 1); mkField (runes "c") (IntValue 2)]).
  - now left.
  - repeat (apply Forall_cons; [reflexivity|]). apply Forall_nil.
  - repeat (apply Forall_cons; [apply Renderable_Int; lia|]). apply Forall_nil.
Defined.

(** ** The errors of a struct *)

(** X16.  The name of a field must be a Symbol or a String: a struct that has a
    value of another type where a field name is expected (an Int, a Bool,
    Null, a list, a sexp, a struct) fails with "Invalid struct field name"
    and that value. *)
Theorem field_name_must_be_Symbol_or_String isPrintTable v rest :
  Renderable isPrintTable v ->
  Type' v <> SymbolType -> Type' v <> StringType -> stops rest ->
  Parse ("{"%rune :: String isPrintTable v ++ rest)
  = Returned None (Some (ErrInvalidFieldName v)).
Proof.
  intros Hv Hsym Hstr Hrest.
  destruct (parse_invalid_field_name isPrintTable v rest Hv Hsym Hstr Hrest)
    as (n & p' & Hn).
  apply (Parse_parse (S (S (S n))) _ _ _ p'). now rewrite parse_open_brace.
Qed.

Lemma stops_colon : stops (runes " : 1}").
Proof.
  split; [reflexivity|].
  exists COLON, (runes ":"), (runes " 1}"), None.
  split; [reflexivity|]. split; discriminate.
Defined.

Lemma field_name_must_be_Symbol_or_String_true :
  Parse (runes "{true : 1}") = Returned None (Some (ErrInvalidFieldName (BoolValue 1))).
Proof.
  apply (field_name_must_be_Symbol_or_String (fun _ => true) (BoolValue 1) (runes " : 1}"));
    [apply Renderable_Bool; now right|discriminate|discriminate|exact stops_colon].
Defined.

(** X17.  A field whose name a closing brace, bracket or paren follows fails
    with "Bad struct syntax" and the closing token in place of the colon;
    a field in which it follows the colon fails with "Unexpected" and the
    token in place of the value. *)
Theorem field_without_colon_or_value a c tok t :
  field_name a = true -> closing_rune c tok ->
  Parse ("{"%rune :: a ++ c :: t) = Returned None (Some (ErrBadStructSyntax tok))
  /\ Parse ("{"%rune :: a ++ runes ": " ++ c :: t) = Returned None (Some (ErrUnexpected tok)).
Proof.
  intros Ha Hc. split.
  - apply (Parse_parse 5 _ _ _ (parser_at t (Some c) tok [c])).
    rewrite parse_open_brace. now apply parse_missing_colon.
  - apply (Parse_parse 6 _ _ _ (parser_at t (Some c) tok [c])).
    rewrite parse_open_brace. now apply parse_missing_value.
Qed.

Lemma field_without_colon_or_value_brace :
  Parse (runes "{a}") = Returned None (Some (ErrBadStructSyntax CLOSE_BRACE))
  /\ Parse (runes "{a: }") = Returned None (Some (ErrUnexpected CLOSE_BRACE)).
Proof.
  apply (field_without_colon_or_value (runes "a") "}"%rune CLOSE_BRACE []);
    [reflexivity|left; now split].
Defined.

(** ** Integer literals *)

(** X18.  An integer literal, the whole input: decimal digits, or [0x] and
    hexadecimal digits of either case, or [0b] and binary digits.  It
    parses to the Int of the number its digits stand for when that is
    below 2^63, and else fails with "Cannot parse base ... integer", the
    base and the digits. *)
Theorem integer_literal k c s :
  forallb (fun ch => rune_in ch (radix_digits k)) (c :: s) = true ->
  Parse (radix_prefix k ++ c :: s)
  = if number_value (radix_base k) (c :: s) 0 <? 2 ^ 63
    then Returned (Some (IntValue (number_value (radix_base k) (c :: s) 0))) None
    else Returned None (Some (ErrCannotParseInt (radix_base k) (c :: s))).
Proof.
  intros H.
  assert (E : parse 2 (parser_at (radix_prefix k ++ c :: s) None ILLEGAL [])
              = NUMBER_value (radix_prefix k ++ c :: s)
                  (parser_at [] None NUMBER (radix_prefix k ++ c :: s))).
  { rewrite parse_S.
    now rewrite (scanIgnoreWhitespace_token _ None ILLEGAL [] _ _ _ _
                   (Scan_radix_literal k c s H)) by discriminate. }
  rewrite (NUMBER_value_radix k c s _ H), (ParseInt_value k c s H) in E.
  destruct (number_value (radix_base k) (c :: s) 0 <? 2 ^ 63);
    exact (Parse_parse _ _ _ _ _ E).
Qed.

Lemma integer_literal_0xFf :
  Parse (runes "0xFf") = Returned (Some (IntValue 255)) None.
Proof. exact (integer_literal Hexadecimal "F"%rune (runes "f") eq_refl). Defined.

(** ** Files *)

(** X19.  [ParseFile] returns the error of [os.Open] and no value when the file
    does not open, and else what [Parse] returns on the runes of the file:
    the name of the source, which is all that [ParseFile] adds, changes
    nothing in what the parser returns. *)
Theorem ParseFile_is_Parse_of_the_file (os_error : Type)
    (Open : str -> os_error + list rune) (path : str) :
  ParseFile os_error Open path
  = match Open path with
    | inl e => OpenFailed os_error e
    | inr reader => Parsed os_error (Parse reader)
    end.
Proof.
  unfold ParseFile. destruct (Open path) as [e|reader]; [reflexivity|].
  f_equal. unfold Parse, Parse_fuel, parseFrom.
  change (mkParser (NewScanner reader) None path ILLEGAL [] 0)
    with (with_source path (mkParser (NewScanner reader) None [] ILLEGAL [] 0)).
  now rewrite (proj1 (parser_with_source path _)), result_of_with_source.
Qed.

(** ** Literals with a point *)

(** X20.  A literal of decimal digits, a point and decimal digits (or none)
    parses to a Float, never to an Int: the binary64 number nearest to the
    decimal number that the digits stand for; when that number is too
    large for a binary64 number, [Parse] fails with "Cannot parse real
    number". *)
Theorem real_literal d s1 s2 :
  isDigit d = true -> forallb isDigit s1 = true -> forallb isDigit s2 = true ->
  Parse (d :: s1 ++ "."%rune :: s2)
  = match float64_of_decimal (number_value 10 (d :: s1 ++ s2) 0)
            (- Z.of_nat (List.length s2)) with
    | S754_infinity _ =>
        Returned None (Some (ErrCannotParseReal (d :: s1 ++ "."%rune :: s2)))
    | f => Returned (Some (FloatValue f)) None
    end.
Proof.
  intros Hd H1 H2.
  assert (Hs2 : forallb (fun c => rune_in c (runes "0123456789.")) s2 = true).
  { apply forallb_forall. intros x Hx. apply isDigit_in_digits.
    exact (proj1 (forallb_forall _ _) H2 x Hx). }
  destruct (rune_in_digits_dot s1 s2 H1 Hs2) as [Hl Hdot].
  destruct (digits_not_prefixed d _ Hd Hl) as [Hx Hb].
  assert (E : parse 2 (parser_at (d :: s1 ++ "."%rune :: s2) None ILLEGAL [])
              = NUMBER_value (d :: s1 ++ "."%rune :: s2)
                  (parser_at [] None NUMBER (d :: s1 ++ "."%rune :: s2))).
  { rewrite parse_S.
    now rewrite (scanIgnoreWhitespace_token _ None ILLEGAL [] _ _ _ _
                   (Scan_decimal_literal d _ Hd Hl)) by discriminate. }
  unfold NUMBER_value in E.
  assert (Hdot' : rune_in "."%rune (d :: s1 ++ "."%rune :: s2) = true).
  { unfold rune_in in *. cbn [existsb]. apply orb_true_iff. now right. }
  rewrite Hdot', Hx, Hb in E. cbn [negb andb] in E.
  rewrite (ParseFloat_real d s1 s2 Hd H1 H2) in E.
  destruct (float64_of_decimal _ _); exact (Parse_parse _ _ _ _ _ E).
Qed.

Lemma real_literal_2_50 :
  Parse (runes "2.50") = Returned (Some (FloatValue (float64_of_decimal 250 (-2)))) None.
Proof. exact (real_literal "2"%rune [] (runes "50") eq_refl eq_refl eq_refl). Defined.

(** X21.  A literal with a radix prefix and a point, and a decimal literal with
    two points, are each scanned as one NUMBER token and rejected:
    [Parse] fails with "Cannot parse real number" and the literal. *)
Theorem malformed_real_is_rejected k l d s1 s2 l2 :
  k <> Decimal ->
  forallb (fun c => rune_in c (radix_digits k ++ runes ".")) l = true ->
  rune_in "."%rune l = true ->
  isDigit d = true -> forallb isDigit s1 = true -> forallb isDigit s2 = true ->
  forallb (fun c => rune_in c (runes "0123456789.")) l2 = true ->
  Parse (radix_prefix k ++ l)
  = Returned None (Some (ErrCannotParseReal (radix_prefix k ++ l)))
  /\ Parse (d :: s1 ++ "."%rune :: s2 ++ "."%rune :: l2)
     = Returned None (Some (ErrCannotParseReal (d :: s1 ++ "."%rune :: s2 ++ "."%rune :: l2))).
Proof.
  intros Hk Hl Hdot Hd H1 H2 Hl2. split.
  - apply (Parse_parse 2 _ _ _ (parser_at [] None NUMBER (radix_prefix k ++ l))).
    rewrite parse_S.
    rewrite (scanIgnoreWhitespace_token _ None ILLEGAL [] _ _ _ _
               (Scan_prefixed_literal k l Hk Hl)) by discriminate.
    rewrite parseToken_S. now apply NUMBER_value_prefixed_point.
  - assert (Hs2 : forallb (fun c => rune_in c (runes "0123456789."))
                    (s2 ++ "."%rune :: l2) = true).
    { rewrite forallb_app. cbn [forallb]. rewrite Hl2.
      replace (forallb (fun c => rune_in c (runes "0123456789.")) s2) with true;
        [reflexivity|].
      symmetry. apply forallb_forall. intros x Hx. apply isDigit_in_digits.
      exact (proj1 (forallb_forall _ _) H2 x Hx). }
    destruct (rune_in_digits_dot s1 _ H1 Hs2) as [Hlit Hpoint].
    destruct (digits_not_prefixed d _ Hd Hlit) as [Hx Hb].
    apply (Parse_parse 2 _ _ _
             (parser_at [] None NUMBER (d :: s1 ++ "."%rune :: s2 ++ "."%rune :: l2))).
    rewrite parse_S.
    rewrite (scanIgnoreWhitespace_token _ None ILLEGAL [] _ _ _ _
               (Scan_decimal_literal d _ Hd Hlit)) by discriminate.
    rewrite parseToken_S. unfold NUMBER_value.
    assert (Hdot' : rune_in "."%rune (d :: s1 ++ "."%rune :: s2 ++ "."%rune :: l2) = true).
    { unfold rune_in in *. cbn [existsb]. apply orb_true_iff. now right. }
    rewrite Hdot', Hx, Hb. cbn [negb andb].
    now rewrite (ParseFloat_two_points d s1 s2 l2 Hd H1 H2).
Qed.

Lemma malformed_real_is_rejected_0b1_1 :
  Parse (runes "0b1.1") = Returned None (Some (ErrCannotParseReal (runes "0b1.1")))
  /\ Parse (runes "1.2.3") = Returned None (Some (ErrCannotParseReal (runes "1.2.3"))).
Proof.
  apply (malformed_real_is_rejected Binary (runes "1.1") "1"%rune [] (runes "2") (runes "3"));
    (discriminate || reflexivity).
Defined.

(** ** Rendering *)

(** X22.  The rendering of a container is its opening rune, the renderings of
    its members, a comma and a space (in a sexp a space) between each two,
    and its closing rune, also when it has no member or one; a field is
    its name, a colon, a space and the rendering of its value; before a
    struct stands each of its annotations with [::] after it. *)
Theorem rendering_of_containers isPrintTable seq fields annotations :
  String isPrintTable (ListValue seq)
  = "["%rune :: items_text (runes ", ") (String isPrintTable) seq ++ ["]"%rune]
  /\ String isPrintTable (SexpValue seq)
     = "("%rune :: items_text (runes " ") (String isPrintTable) seq ++ [")"%rune]
  /\ String isPrintTable (set_Annotations (StructValue fields) annotations)
     = flat_map (fun a => a ++ runes "::") annotations
       ++ "{"%rune
          :: items_text (runes ", ") (field_text (String isPrintTable)) fields
          ++ ["}"%rune].
Proof.
  split; [|split].
  - cbn [String ListValue Type' Sequence]. now rewrite sequenceToString_eq.
  - cbn [String SexpValue Type' Sequence]. now rewrite sequenceToString_eq.
  - cbn [String set_Annotations StructValue Type' Struct].
    now rewrite structToString_eq.
Qed.

(** X23.  Rendering is injective on the renderable values: two of them with the
    same rendering are the same value. *)
Theorem rendering_is_injective isPrintTable v w :
  Renderable isPrintTable v -> Renderable isPrintTable w ->
  String isPrintTable v = String isPrintTable w -> v = w.
Proof.
  intros Hv Hw E.
  pose proof (Parse_rendering isPrintTable v [] Hv stops_nil) as Pv.
  pose proof (Parse_rendering isPrintTable w [] Hw stops_nil) as Pw.
  rewrite E, Pw in Pv. now inversion Pv.
Qed.

Lemma rendering_is_injective_sample : sample_value = sample_value.
Proof.
  exact (rendering_is_injective (fun _ => true) sample_value sample_value
           Renderable_sample_value Renderable_sample_value eq_refl).
Defined.

(** ** What the parser never does without a struct *)

(** X24.  On an input without an opening brace [Parse] does not panic: it
    returns a value or an error (or neither).  The nil dereferences of the
    parser are all in [parseStruct]. *)
Theorem Parse_without_brace_returns reader :
  rune_in "{"%rune reader = false ->
  exists val e, Parse reader = Returned val e.
Proof.
  intros H.
  assert (Hfree : brace_free reader).
  { unfold brace_free. apply Forall_forall. intros x Hx ->.
    unfold rune_in in H.
    assert (E : existsb (Z.eqb "{"%rune) reader = true).
    { apply existsb_exists. exists "{"%rune. now split. }
    congruence. }
  pose proof (Parse_finishes reader) as Hfin.
  unfold Parse, Parse_fuel in *. rewrite parseFrom_parser_at in *.
  destruct (proj1 (parser_safe (3 * List.length reader + 4))
              (parser_at reader None ILLEGAL [])) as [Hne _].
  { repeat split; (exact Hfree || discriminate). }
  destruct (parse _ _) as [val e p| |]; cbn [result_of] in *.
  - now exists val, e.
  - now destruct Hne.
  - now destruct Hfin.
Qed.

Lemma Parse_without_brace_returns_colon :
  exists val e, Parse (runes "[a: ,]") = Returned val e.
Proof. apply Parse_without_brace_returns. reflexivity. Defined.

(** ** Messages *)

(** X25.  A closing brace, bracket or paren where a value is expected fails with
    "Unexpected"; the message shows neither the rune nor the name of the
    token, but, quoted, the control character that has the number of the
    token: a tab for the brace, a vertical tab for the bracket, a carriage
    return for the paren. *)
Theorem message_of_unexpected_closing_rune isPrintTable c tok t :
  closing_rune c tok ->
  Parse (c :: t) = Returned None (Some (ErrUnexpected tok))
  /\ Error isPrintTable (ErrUnexpected tok)
     = runes "Unexpected "
       ++ quoted (match tok with
                  | CLOSE_BRACE => runes "\t"
                  | CLOSE_BRACKET => runes "\v"
                  | _ => runes "\r"
                  end).
Proof.
  intros Hc. destruct (closing_rune_punctuation c tok Hc) as (Hp & _).
  split.
  - apply (Parse_parse 2 _ _ _ (parser_at t (Some c) tok [c])).
    rewrite parse_S, (scanIgnoreWhitespace_punctuation c tok t None ILLEGAL [] Hp).
    destruct Hc as [[_ ->] | [[_ ->] | [_ ->]]]; reflexivity.
  - destruct Hc as [[_ ->] | [[_ ->] | [_ ->]]]; reflexivity.
Qed.

Lemma message_of_unexpected_closing_rune_brace :
  Parse (runes "}") = Returned None (Some (ErrUnexpected CLOSE_BRACE))
  /\ Error (fun _ => true) (ErrUnexpected CLOSE_BRACE)
     = runes "Unexpected " ++ quoted (runes "\t").
Proof.
  apply (message_of_unexpected_closing_rune (fun _ => true) "}"%rune CLOSE_BRACE []).
  left. now split.
Defined.

(** ** Values that do not parse back *)

(** X26.  A String does not parse back when it holds, after its first rune
    and runes that are read back, a backslash or a rune that is neither
    printable nor a tab, a newline or a carriage return: [Quote] writes
    such a rune as a backslash and a rune that the scanner does not know
    after a backslash, and [Parse] of the rendering fails on the ILLEGAL
    token of the two. *)
Theorem unsupported_rune_in_String isPrintTable first s c t :
  string_first isPrintTable first = true ->
  forallb (string_rune isPrintTable) s = true ->
  string_rune isPrintTable c = false ->
  exists e,
    known_escape e = false
    /\ Parse (String isPrintTable (StringValue (first :: s ++ c :: t)))
       = Returned None (Some (ErrTokenNotHandled ILLEGAL ["\"%rune; e])).
Proof.
  intros Hf Hs Hc.
  destruct (parse_unsupported_rune isPrintTable first s c t Hf Hs Hc)
    as (e & p' & He & Hp).
  exists e. split; [exact He|]. exact (Parse_parse _ _ _ _ _ Hp).
Qed.

Lemma unsupported_rune_in_String_bell :
  exists e,
    known_escape e = false
    /\ Parse (String (fun _ => true) (StringValue ("a"%rune :: [] ++ 7 :: runes "b")))
       = Returned None (Some (ErrTokenNotHandled ILLEGAL ["\"%rune; e])).
Proof.
  apply (unsupported_rune_in_String (fun _ => true) "a"%rune [] 7 (runes "b"));
    reflexivity.
Defined.

(** X27.  What the round trip does to annotations.  A renderable value
    that is no struct is rendered without the annotations it is given, and
    the rendering parses to the value without them; a struct with several
    annotations (identifiers) is rendered with all of them, and the
    rendering parses to the struct with the first one alone. *)
Theorem annotations_in_the_round_trip isPrintTable v annotations fields a names :
  Renderable isPrintTable v -> Type' v <> StructType ->
  is_identifier a = true -> forallb is_identifier names = true ->
  Forall (fun f => field_name (Name f) = true) fields ->
  Forall (fun f => Renderable isPrintTable (Value' f)) fields ->
  Parse (String isPrintTable (set_Annotations v annotations)) = Returned (Some v) None
  /\ Parse (String isPrintTable (set_Annotations (StructValue fields) (a :: names)))
     = Returned (Some (set_Annotations (StructValue fields) [a])) None.
Proof.
  intros Hv Hty Ha Hnames Hn Hr. split.
  - rewrite (String_set_Annotations isPrintTable v annotations Hty).
    rewrite <- (app_nil_r (String isPrintTable v)).
    now apply Parse_rendering; [|apply stops_nil].
  - now apply Parse_annotated_struct.
Qed.

Lemma annotations_in_the_round_trip_a_b :
  Parse (String (fun _ => true) (set_Annotations (IntValue 42) [runes "a"]))
  = Returned (Some (IntValue 42)) None
  /\ Parse (String (fun _ => true)
              (set_Annotations (StructValue [mkField (runes "x") (IntValue 1)])
                 [runes "a"; runes "b"]))
     = Returned (Some (set_Annotations (StructValue [mkField (runes "x") (IntValue 1)])
                         [runes "a"])) None.
Proof.
  apply (annotations_in_the_round_trip (fun _ => true) (IntValue 42) [runes "a"]
           [mkField (runes "x") (IntValue 1)] (runes "a") [runes "b"]).
  - apply Renderable_Int. lia.
  - discriminate.
  - reflexivity.
  - reflexivity.
  - apply Forall_cons; [reflexivity|apply Forall_nil].
  - apply Forall_cons; [apply Renderable_Int; lia|apply Forall_nil].
Defined.
